(** * ROTSE-III weather station daemons: a shallow embedding

    The development follows the Python sources of the repository:
    - [weather_daemon.py], [weather_collector.py], [rotse_weatherd/main.py]:
      the token-based line parser (module [Collector]);
    - [weather-daemon.py]: the resilient daemon with its regular-expression
      parser, bounded queue, retrying connectors, sender thread, watchdog
      and main loop (modules [Regex] and [Daemon]).

    Python [str] values are lists of characters; every character stands
    for a code point below 256.  Python exceptions are values of [exn]
    carried by [result]. *)

From Stdlib Require Import ZArith Ascii String List Lia.
From stdpp Require Import base option list strings gmap.

Local Open Scope Z_scope.

(** ** Python values and exceptions *)

Module Py.

Definition str : Type := list ascii.

(** A literal of the source text. *)
Definition lit (s : string) : str := list_ascii_of_string s.

Inductive exn : Type :=
| ValueError
| SerialException
| UnicodeDecodeError
| QueueFull
| QueueEmpty
| OtherError.

Inductive result (A : Type) : Type :=
| Ok (a : A)
| Raise (e : exn).
Arguments Ok {A} a.
Arguments Raise {A} e.

Definition bind {A B : Type} (r : result A) (k : A -> result B) : result B :=
  match r with
  | Ok a => k a
  | Raise e => Raise e
  end.

(** [try: r except Exception: h] *)
Definition try_except {A : Type} (r : result A) (h : exn -> result A) : result A :=
  match r with
  | Ok a => Ok a
  | Raise e => h e
  end.

(** [str.isspace] on one character: TAB..CR, FS..US, SPACE, NEL, NBSP. *)
Definition isspace (c : ascii) : bool :=
  let n := nat_of_ascii c in
  ((9 <=? n) && (n <=? 13) || (28 <=? n) && (n <=? 32)
   || (n =? 133) || (n =? 160))%nat.

(** [c in "0123456789"]; on code points below 256 this is also the
    class [\d] of the [re] module. *)
Definition isdigit (c : ascii) : bool :=
  let n := nat_of_ascii c in ((48 <=? n) && (n <=? 57))%nat.

Fixpoint lstrip (s : str) : str :=
  match s with
  | c :: s' => if isspace c then lstrip s' else s
  | [] => []
  end.

Definition rstrip (s : str) : str := rev (lstrip (rev s)).

(** [s.strip()] *)
Definition strip (s : str) : str := rstrip (lstrip s).

(** [s.split(sep)] for a one-character separator: empty pieces are kept,
    and the empty string gives one empty piece. *)
Fixpoint split (sep : ascii) (s : str) : list str :=
  match s with
  | [] => [[]]
  | c :: s' =>
      if Ascii.eqb c sep then [] :: split sep s'
      else match split sep s' with
           | w :: ws => (c :: w) :: ws
           | [] => [[c]]
           end
  end.

(** [sep in s] *)
Definition contains (sep : ascii) (s : str) : bool :=
  existsb (Ascii.eqb sep) s.

(** [s.split(sep, 1)] when [sep in s]: the text before the first [sep]
    and the text after it. *)
Fixpoint split1 (sep : ascii) (s : str) : str * str :=
  match s with
  | [] => ([], [])
  | c :: s' =>
      if Ascii.eqb c sep then ([], s')
      else let '(k, v) := split1 sep s' in (c :: k, v)
  end.

(** [str.lower] on one character: A..Z and the upper-case letters of
    Latin-1 move up by 32. *)
Definition lower_char (c : ascii) : ascii :=
  let n := nat_of_ascii c in
  if ((65 <=? n) && (n <=? 90)
      || (192 <=? n) && (n <=? 222) && negb (n =? 215))%nat
  then ascii_of_nat (n + 32) else c.

Definition lower (s : str) : str := map lower_char s.

(** The builtin [float] applied to a [str]: the parsed number, or the
    exception it raises.  The number type is left to the instance. *)
Class PyFloat (F : Type) : Type := float : str -> result F.

End Py.
Export Py.

(** ** The token parser of [weather_daemon.py] *)

Module Collector.

Section Parser.
Context {F : Type} `{PyFloat F}.

(** [field_mapping.get(key, key.lower())] *)
Definition field_mapping_get (key : str) : str :=
  if decide (key = lit "T") then lit "temperature"
  else if decide (key = lit "H") then lit "humidity"
  else if decide (key = lit "P") then lit "pressure"
  else if decide (key = lit "WS") then lit "windspeed"
  else lower key.

(** One turn of [for pair in data_line.split(' ')]: a token without a
    colon is passed over, a [ValueError] of [float] is caught and the
    token skipped, any other exception leaves the loop. *)
Definition parse_pair (data_dict : gmap str F) (pair_ : str)
  : result (gmap str F) :=
  if contains ":" pair_ then
    let '(key, value) := split1 ":" pair_ in
    let key := strip key in
    let field_name := field_mapping_get key in
    match float (strip value) with
    | Ok x => Ok (<[field_name := x]> data_dict)
    | Raise ValueError => Ok data_dict
    | Raise e => Raise e
    end
  else Ok data_dict.

Fixpoint parse_pairs (data_dict : gmap str F) (pairs : list str)
  : result (gmap str F) :=
  match pairs with
  | [] => Ok data_dict
  | pair_ :: rest => bind (parse_pair data_dict pair_) (fun d => parse_pairs d rest)
  end.

(** [return data_dict if data_dict else None] *)
Definition nonempty_or_none (d : gmap str F) : option (gmap str F) :=
  if decide (d = ∅) then None else Some d.

Definition parse_body (data_line : str) : result (option (gmap str F)) :=
  let data_line := strip data_line in
  if decide (data_line = []) then Ok None
  else bind (parse_pairs ∅ (split " " data_line))
            (fun d => Ok (nonempty_or_none d)).

(** [parse_weather_data]: the body under [try], and [except Exception]
    answering [None]. *)
Definition parse_weather_data (data_line : str) : result (option (gmap str F)) :=
  try_except (parse_body data_line) (fun _ => Ok None).

End Parser.
End Collector.

(** ** A model of the builtin [float] on decimal text

    The value is kept as an exact decimal numeral (it stands for the
    nearest binary64 number); infinities and NaN are separate values. *)

Module FloatModel.

Inductive pyfloat : Type :=
| Fin (neg : bool) (mant : N) (exp10 : Z)
| Inf (neg : bool)
| NaN.

Definition digit_val (c : ascii) : N := N.of_nat (nat_of_ascii c - 48).

Definition digits_val (ds : list ascii) : N :=
  fold_left (fun acc c => (10 * acc + digit_val c)%N) ds 0%N.

(** [digit (["_"] digit)*]: the digits read and the text left. *)
Fixpoint digitpart (s : str) : list ascii * str :=
  match s with
  | c :: r =>
      if isdigit c then
        match r with
        | u :: ((c2 :: _) as r2) =>
            if Ascii.eqb u "_" && isdigit c2 then
              let '(ds, t) := digitpart r2 in (c :: ds, t)
            else let '(ds, t) := digitpart r in (c :: ds, t)
        | _ => let '(ds, t) := digitpart r in (c :: ds, t)
        end
      else ([], s)
  | [] => ([], [])
  end.

Definition sign (s : str) : bool * str :=
  match s with
  | c :: r =>
      if Ascii.eqb c "-" then (true, r)
      else if Ascii.eqb c "+" then (false, r)
      else (false, s)
  | [] => (false, [])
  end.

(** [[eE] [sign] digitpart] at the end of the text, or nothing. *)
Definition exponent (s : str) : option Z :=
  match s with
  | [] => Some 0
  | c :: r =>
      if Ascii.eqb (lower_char c) "e" then
        let '(neg, r1) := sign r in
        match digitpart r1 with
        | ((_ :: _) as ds, []) =>
            let e := Z.of_N (digits_val ds) in
            Some (if neg then - e else e)
        | _ => None
        end
      else None
  end.

Definition float_of_str (s : str) : result pyfloat :=
  let '(neg, s1) := sign (strip s) in
  let word := lower s1 in
  if decide (word = lit "inf") then Ok (Inf neg)
  else if decide (word = lit "infinity") then Ok (Inf neg)
  else if decide (word = lit "nan") then Ok NaN
  else
    let '(ip, r1) := digitpart s1 in
    let '(fp, r2) :=
      match r1 with
      | c :: r => if Ascii.eqb c "." then digitpart r else ([], r1)
      | [] => ([], [])
      end in
    match ip ++ fp, exponent r2 with
    | _ :: _, Some e =>
        Ok (Fin neg (digits_val (ip ++ fp)) (e - Z.of_nat (length fp)))
    | _, _ => Raise ValueError
    end.

#[export] Instance pyfloat_float : PyFloat pyfloat := float_of_str.

End FloatModel.

(** ** The fragment of [re] used by [weather-daemon.py] *)

Module Regex.

Inductive re : Type :=
| Eps
| Chr (c : ascii)
| Cls (p : ascii -> bool)
| Cat (a b : re)
| Opt (a : re)
| Star (a : re)
| Plus (a : re)
| Grp (i : nat) (a : re).

(** The text captured by each numbered group. *)
Abbreviation groups := (gmap nat str).

(** Greedy repetition of a matcher: every turn must consume input. *)
Fixpoint star (step : str -> groups -> list (str * groups))
    (fuel : nat) (s : str) (g : groups) : list (str * groups) :=
  match fuel with
  | O => [(s, g)]
  | S fuel' =>
      (step s g ≫= fun '(s', g') =>
         if decide (length s' < length s)%nat then star step fuel' s' g'
         else [])
      ++ [(s, g)]
  end.

(** [run r s g]: every way in which [r] matches a prefix of [s], as the
    text left and the groups set, in the order a backtracking matcher
    tries them. *)
Fixpoint run (r : re) (s : str) (g : groups) : list (str * groups) :=
  match r with
  | Eps => [(s, g)]
  | Chr c =>
      match s with
      | c' :: s' => if Ascii.eqb c' c then [(s', g)] else []
      | [] => []
      end
  | Cls p =>
      match s with
      | c' :: s' => if p c' then [(s', g)] else []
      | [] => []
      end
  | Cat a b => run a s g ≫= fun '(s', g') => run b s' g'
  | Opt a => run a s g ++ [(s, g)]
  | Star a => star (run a) (length s) s g
  | Plus a => run a s g ≫= fun '(s', g') => star (run a) (length s') s' g'
  | Grp i a =>
      (fun '(s', g') => (s', <[i := take (length s - length s') s]> g'))
        <$> run a s g
  end.

(** [re.match]: the first way found at the start of the text. *)
Definition match_at (r : re) (s : str) : option groups :=
  match run r s ∅ with
  | (_, g) :: _ => Some g
  | [] => None
  end.

(** [re.search]: the leftmost position at which [r] matches. *)
Fixpoint search (r : re) (s : str) : option groups :=
  match match_at r s with
  | Some g => Some g
  | None =>
      match s with
      | _ :: s' => search r s'
      | [] => None
      end
  end.

Definition seq (rs : list re) : re := foldr Cat Eps rs.

End Regex.

(** ** [queue.Queue] *)

Module PyQueue.

Record pyqueue (A : Type) : Type := mkQueue {
  maxsize : Z;
  items : list A
}.
Arguments mkQueue {A} maxsize items.
Arguments maxsize {A} _.
Arguments items {A} _.

Section Ops.
Context {A : Type}.

(** [queue.Queue(maxsize)] *)
Definition Queue (maxsize : Z) : pyqueue A := mkQueue maxsize [].

Definition qsize (q : pyqueue A) : nat := length (items q).

Definition empty (q : pyqueue A) : bool :=
  match items q with [] => true | _ => false end.

(** [0 < self.maxsize <= self._qsize()] *)
Definition full (q : pyqueue A) : bool :=
  (0 <? maxsize q) && (maxsize q <=? Z.of_nat (qsize q)).

Definition put_nowait (x : A) (q : pyqueue A) : result (pyqueue A) :=
  if full q then Raise QueueFull
  else Ok (mkQueue (maxsize q) (items q ++ [x])).

Definition get_nowait (q : pyqueue A) : result (A * pyqueue A) :=
  match items q with
  | [] => Raise QueueEmpty
  | x :: rest => Ok (x, mkQueue (maxsize q) rest)
  end.

End Ops.
End PyQueue.
Export PyQueue.

(** ** The daemon of [weather-daemon.py] *)

Module Daemon.
Import Regex.

(** [\d+\.?\d*] *)
Definition number : re :=
  Cat (Plus (Cls isdigit)) (Cat (Opt (Chr ".")) (Star (Cls isdigit))).

(** [T:(N)\s+H:(N)\s+P:(N)\s+WS:(N)], each [N] being the text of
    [number] above, in groups 1 to 4. *)
Definition pattern : re :=
  seq [Chr "T"; Chr ":"; Grp 1 number; Plus (Cls isspace);
       Chr "H"; Chr ":"; Grp 2 number; Plus (Cls isspace);
       Chr "P"; Chr ":"; Grp 3 number; Plus (Cls isspace);
       Chr "W"; Chr "S"; Chr ":"; Grp 4 number].

Record config : Type := mkConfig {
  max_serial_retries : nat;
  max_influx_retries : nat;
  serial_retry_delay : Z;
  influx_retry_delay : Z;
  watchdog_timeout : Z;
  data_timeout : Z;
  health_check_interval : Z;
  queue_flush_interval : Z;
  read_interval : Z;
  restart_on_hang : bool
}.

(** What one pass through the [try] block of [connect_serial] meets. *)
Inductive serial_try : Type :=
| SerialOpened
| SerialCtorRaises (e : exn)
| SerialFlushRaises (e : exn).

(** What one pass through the [try] block of [connect_influxdb] meets. *)
Inductive influx_try : Type :=
| InfluxConnected
| InfluxCtorRaises
| InfluxPingRaises.

(** What the read in the main loop meets: nothing waiting, a decoded
    line, or an exception. *)
Inductive read_try : Type :=
| NothingWaiting
| Line (text : str)
| ReadRaises (e : exn).

(** The surroundings of the daemon: the outcome of the k-th use of each
    external operation. *)
Record world : Type := mkWorld {
  serial_open : nat -> serial_try;
  influx_open : nat -> influx_try;
  influx_write : nat -> bool;
  serial_read : nat -> read_try
}.

Inductive level : Type := Debug | Info | Warning | Error.

Inductive message : Type :=
| MsgSerialConnected
| MsgSerialAttemptFailed (n max : nat)
| MsgSerialUnexpected
| MsgSerialExhausted (max : nat)
| MsgInfluxConnected
| MsgInfluxAttemptFailed (n max : nat)
| MsgInfluxExhausted (max : nat)
| MsgDataSent
| MsgSendFailed
| MsgQueueFullDropOldest
| MsgQueued (size : nat)
| MsgQueueFailed
| MsgRequeueFullDrop
| MsgSentQueued (n : nat)
| MsgNoData (timeout : Z)
| MsgReconnectSerial
| MsgMainUnresponsive (timeout : Z)
| MsgForcingRestart
| MsgHealth (size serial_retries influx_retries : nat)
| MsgSerialLost
| MsgInfluxReconnect
| MsgReceived
| MsgParsed
| MsgQueueing
| MsgCouldNotParse
| MsgSerialError
| MsgSerialReconnectFailed
| MsgUnicodeError
| MsgTooManyErrors (n : nat)
| MsgUnexpected
| MsgRemaining (n : nat)
| MsgFinalError.

Section WithFloat.
Context {F : Type} `{PyFloat F}.

(** [float(match.group(i))] *)
Definition float_group (g : groups) (i : nat) : result F :=
  match g !! i with
  | Some s => float s
  | None => Raise OtherError
  end.

Definition parse_weather_data (data_line : str) : result (option (gmap str F)) :=
  match search pattern data_line with
  | Some g =>
      bind (float_group g 1) (fun t =>
      bind (float_group g 2) (fun h =>
      bind (float_group g 3) (fun p =>
      bind (float_group g 4) (fun ws =>
        Ok (Some (<[lit "wind_speed" := ws]>
                 (<[lit "pressure" := p]>
                 (<[lit "humidity" := h]>
                 (<[lit "temperature" := t]> ∅)))))))))
  | None => Ok None
  end.

(** The point handed to [write_api.write]. *)
Record point : Type := mkPoint {
  temp : F;
  humid : F;
  press : F;
  wind_speed : F;
  time : Z
}.

Definition item : Type := gmap str F * Z.

Inductive event : Type :=
| EvSerialTry (t : serial_try)
| EvInfluxTry (t : influx_try)
| EvSleep (d : Z)
| EvLog (l : level) (m : message)
| EvWrite (ok : bool) (p : point)
| EvExit (code : Z).

(** The attributes of the [WeatherDaemon] object ([consecutive_errors],
    a local of [run], is threaded separately), the clock, how often each
    external operation was used so far, the points the sink accepted and
    the events in the order they happened. *)
Record state : Type := mkState {
  running : bool;
  serial_connection : option bool;
  influx_client : bool;
  write_api : bool;
  serial_retry_count : nat;
  influx_retry_count : nat;
  last_data_time : Z;
  last_heartbeat : Z;
  data_queue : pyqueue item;
  clock : Z;
  serial_calls : nat;
  influx_calls : nat;
  write_calls : nat;
  read_calls : nat;
  sink : list point;
  trace : list event
}.

Definition upd_running (f : bool -> bool) (s : state) : state :=
  mkState (f (running s)) (serial_connection s) (influx_client s) (write_api
    s) (serial_retry_count s) (influx_retry_count s) (last_data_time s)
    (last_heartbeat s) (data_queue s) (clock s) (serial_calls s)
    (influx_calls s) (write_calls s) (read_calls s) (sink s) (trace s).

Definition upd_serial_connection (f : (option bool) -> (option bool)) (s : state) : state :=
  mkState (running s) (f (serial_connection s)) (influx_client s) (write_api
    s) (serial_retry_count s) (influx_retry_count s) (last_data_time s)
    (last_heartbeat s) (data_queue s) (clock s) (serial_calls s)
    (influx_calls s) (write_calls s) (read_calls s) (sink s) (trace s).

Definition upd_influx_client (f : bool -> bool) (s : state) : state :=
  mkState (running s) (serial_connection s) (f (influx_client s)) (write_api
    s) (serial_retry_count s) (influx_retry_count s) (last_data_time s)
    (last_heartbeat s) (data_queue s) (clock s) (serial_calls s)
    (influx_calls s) (write_calls s) (read_calls s) (sink s) (trace s).

Definition upd_write_api (f : bool -> bool) (s : state) : state :=
  mkState (running s) (serial_connection s) (influx_client s) (f (write_api
    s)) (serial_retry_count s) (influx_retry_count s) (last_data_time s)
    (last_heartbeat s) (data_queue s) (clock s) (serial_calls s)
    (influx_calls s) (write_calls s) (read_calls s) (sink s) (trace s).

Definition upd_serial_retry_count (f : nat -> nat) (s : state) : state :=
  mkState (running s) (serial_connection s) (influx_client s) (write_api s)
    (f (serial_retry_count s)) (influx_retry_count s) (last_data_time s)
    (last_heartbeat s) (data_queue s) (clock s) (serial_calls s)
    (influx_calls s) (write_calls s) (read_calls s) (sink s) (trace s).

Definition upd_influx_retry_count (f : nat -> nat) (s : state) : state :=
  mkState (running s) (serial_connection s) (influx_client s) (write_api s)
    (serial_retry_count s) (f (influx_retry_count s)) (last_data_time s)
    (last_heartbeat s) (data_queue s) (clock s) (serial_calls s)
    (influx_calls s) (write_calls s) (read_calls s) (sink s) (trace s).

Definition upd_last_data_time (f : Z -> Z) (s : state) : state :=
  mkState (running s) (serial_connection s) (influx_client s) (write_api s)
    (serial_retry_count s) (influx_retry_count s) (f (last_data_time s))
    (last_heartbeat s) (data_queue s) (clock s) (serial_calls s)
    (influx_calls s) (write_calls s) (read_calls s) (sink s) (trace s).

Definition upd_last_heartbeat (f : Z -> Z) (s : state) : state :=
  mkState (running s) (serial_connection s) (influx_client s) (write_api s)
    (serial_retry_count s) (influx_retry_count s) (last_data_time s) (f
    (last_heartbeat s)) (data_queue s) (clock s) (serial_calls s)
    (influx_calls s) (write_calls s) (read_calls s) (sink s) (trace s).

Definition upd_data_queue (f : (pyqueue item) -> (pyqueue item)) (s : state) : state :=
  mkState (running s) (serial_connection s) (influx_client s) (write_api s)
    (serial_retry_count s) (influx_retry_count s) (last_data_time s)
    (last_heartbeat s) (f (data_queue s)) (clock s) (serial_calls s)
    (influx_calls s) (write_calls s) (read_calls s) (sink s) (trace s).

Definition upd_clock (f : Z -> Z) (s : state) : state :=
  mkState (running s) (serial_connection s) (influx_client s) (write_api s)
    (serial_retry_count s) (influx_retry_count s) (last_data_time s)
    (last_heartbeat s) (data_queue s) (f (clock s)) (serial_calls s)
    (influx_calls s) (write_calls s) (read_calls s) (sink s) (trace s).

Definition upd_serial_calls (f : nat -> nat) (s : state) : state :=
  mkState (running s) (serial_connection s) (influx_client s) (write_api s)
    (serial_retry_count s) (influx_retry_count s) (last_data_time s)
    (last_heartbeat s) (data_queue s) (clock s) (f (serial_calls s))
    (influx_calls s) (write_calls s) (read_calls s) (sink s) (trace s).

Definition upd_influx_calls (f : nat -> nat) (s : state) : state :=
  mkState (running s) (serial_connection s) (influx_client s) (write_api s)
    (serial_retry_count s) (influx_retry_count s) (last_data_time s)
    (last_heartbeat s) (data_queue s) (clock s) (serial_calls s) (f
    (influx_calls s)) (write_calls s) (read_calls s) (sink s) (trace s).

Definition upd_write_calls (f : nat -> nat) (s : state) : state :=
  mkState (running s) (serial_connection s) (influx_client s) (write_api s)
    (serial_retry_count s) (influx_retry_count s) (last_data_time s)
    (last_heartbeat s) (data_queue s) (clock s) (serial_calls s)
    (influx_calls s) (f (write_calls s)) (read_calls s) (sink s) (trace s).

Definition upd_read_calls (f : nat -> nat) (s : state) : state :=
  mkState (running s) (serial_connection s) (influx_client s) (write_api s)
    (serial_retry_count s) (influx_retry_count s) (last_data_time s)
    (last_heartbeat s) (data_queue s) (clock s) (serial_calls s)
    (influx_calls s) (write_calls s) (f (read_calls s)) (sink s) (trace s).

Definition upd_sink (f : (list point) -> (list point)) (s : state) : state :=
  mkState (running s) (serial_connection s) (influx_client s) (write_api s)
    (serial_retry_count s) (influx_retry_count s) (last_data_time s)
    (last_heartbeat s) (data_queue s) (clock s) (serial_calls s)
    (influx_calls s) (write_calls s) (read_calls s) (f (sink s)) (trace s).

Definition upd_trace (f : (list event) -> (list event)) (s : state) : state :=
  mkState (running s) (serial_connection s) (influx_client s) (write_api s)
    (serial_retry_count s) (influx_retry_count s) (last_data_time s)
    (last_heartbeat s) (data_queue s) (clock s) (serial_calls s)
    (influx_calls s) (write_calls s) (read_calls s) (sink s) (f (trace s)).

(** [self.serial_connection and self.serial_connection.is_open] *)
Definition serial_is_open (s : state) : bool :=
  match serial_connection s with
  | Some b => b
  | None => false
  end.

(** A computation either returns with a new state, or the process ends
    in [os._exit]. *)
Inductive outcome (A : Type) : Type :=
| Ret (a : A) (s : state)
| Exit (code : Z) (s : state).
Arguments Ret {A} a s.
Arguments Exit {A} code s.

Definition M (A : Type) : Type := state -> outcome A.

Definition ret {A : Type} (a : A) : M A := fun s => Ret a s.

Definition bindM {A B : Type} (m : M A) (k : A -> M B) : M B :=
  fun s =>
    match m s with
    | Ret a s' => k a s'
    | Exit c s' => Exit c s'
    end.

Notation "'let*' x ':=' m 'in' k" := (bindM m (fun x => k))
  (at level 10, x pattern, m at level 100, k at level 200).

Definition get : M state := fun s => Ret s s.

Definition modify (f : state -> state) : M unit := fun s => Ret tt (f s).

Definition emit (e : event) : M unit := modify (upd_trace (fun t => t ++ [e])).

Definition log (l : level) (m : message) : M unit := emit (EvLog l m).

(** [time.sleep(d)] *)
Definition sleep (d : Z) : M unit :=
  let* _ := modify (upd_clock (fun t => t + d)) in emit (EvSleep d).

(** [datetime.now()] and [datetime.utcnow()] *)
Definition now : M Z := fun s => Ret (clock s) s.

(** [os._exit(code)] *)
Definition os_exit {A : Type} (code : Z) : M A :=
  fun s => Exit code (upd_trace (fun t => t ++ [EvExit code]) s).

Definition when (b : bool) (m : M unit) : M unit := if b then m else ret tt.

Section Operations.
Variable cfg : config.
Variable w : world.

(** The [try] block of [connect_serial]: an open port is closed first. *)
Definition serial_attempt : M serial_try :=
  let* s := get in
  let* _ := when (serial_is_open s)
              (modify (upd_serial_connection (fun _ => Some false))) in
  let t := serial_open w (serial_calls s) in
  let* _ := modify (upd_serial_calls S) in
  let* _ := emit (EvSerialTry t) in
  match t with
  | SerialOpened | SerialFlushRaises _ =>
      let* _ := modify (upd_serial_connection (fun _ => Some true)) in ret t
  | SerialCtorRaises _ => ret t
  end.

(** The [while] loop of [connect_serial]; [None] when [fuel] runs out. *)
Fixpoint connect_serial_loop (fuel retry_count : nat) : M (option bool) :=
  match fuel with
  | O => ret None
  | S fuel' =>
      let* s := get in
      if (retry_count <? max_serial_retries cfg)%nat && running s then
        let* t := serial_attempt in
        match t with
        | SerialOpened =>
            let* _ := modify (upd_serial_retry_count (fun _ => O)) in
            let* _ := log Info MsgSerialConnected in
            ret (Some true)
        | SerialCtorRaises e | SerialFlushRaises e =>
            let retry_count := S retry_count in
            let* _ :=
              match e with
              | SerialException =>
                  let* _ := modify (upd_serial_retry_count (fun _ => retry_count)) in
                  log Warning
                    (MsgSerialAttemptFailed retry_count (max_serial_retries cfg))
              | _ => log Error MsgSerialUnexpected
              end in
            let* _ := when (retry_count <? max_serial_retries cfg)%nat
                        (sleep (serial_retry_delay cfg)) in
            connect_serial_loop fuel' retry_count
        end
      else
        let* _ := log Error (MsgSerialExhausted (max_serial_retries cfg)) in
        ret (Some false)
  end.

Definition connect_serial : M (option bool) :=
  connect_serial_loop (S (max_serial_retries cfg)) 0.

(** The [try] block of [connect_influxdb]. *)
Definition influx_attempt : M influx_try :=
  let* s := get in
  let t := influx_open w (influx_calls s) in
  let* _ := modify (upd_influx_calls S) in
  let* _ := emit (EvInfluxTry t) in
  match t with
  | InfluxConnected | InfluxPingRaises =>
      let* _ := modify (upd_influx_client (fun _ => true)) in
      let* _ := modify (upd_write_api (fun _ => true)) in
      ret t
  | InfluxCtorRaises => ret t
  end.

Fixpoint connect_influxdb_loop (fuel retry_count : nat) : M (option bool) :=
  match fuel with
  | O => ret None
  | S fuel' =>
      let* s := get in
      if (retry_count <? max_influx_retries cfg)%nat && running s then
        let* t := influx_attempt in
        match t with
        | InfluxConnected =>
            let* _ := modify (upd_influx_retry_count (fun _ => O)) in
            let* _ := log Info MsgInfluxConnected in
            ret (Some true)
        | InfluxCtorRaises | InfluxPingRaises =>
            let retry_count := S retry_count in
            let* _ := modify (upd_influx_retry_count (fun _ => retry_count)) in
            let* _ := log Warning
                        (MsgInfluxAttemptFailed retry_count (max_influx_retries cfg)) in
            let* _ := when (retry_count <? max_influx_retries cfg)%nat
                        (sleep (influx_retry_delay cfg)) in
            connect_influxdb_loop fuel' retry_count
        end
      else
        let* _ := log Error (MsgInfluxExhausted (max_influx_retries cfg)) in
        ret (Some false)
  end.

Definition connect_influxdb : M (option bool) :=
  connect_influxdb_loop (S (max_influx_retries cfg)) 0.

(** The four subscripts of [send_to_influxdb]; [None] is a [KeyError]. *)
Definition make_point (weather_data : gmap str F) (timestamp : Z) : option point :=
  t ← weather_data !! lit "temperature";
  h ← weather_data !! lit "humidity";
  p ← weather_data !! lit "pressure";
  ws ← weather_data !! lit "wind_speed";
  Some (mkPoint t h p ws timestamp).

(** [timestamp] when given, the clock otherwise. *)
Definition timestamp_or_now (timestamp : option Z) : M Z :=
  match timestamp with
  | Some t => ret t
  | None => now
  end.

Definition send_to_influxdb (weather_data : gmap str F) (timestamp : option Z)
  : M bool :=
  let* timestamp := timestamp_or_now timestamp in
  let* s := get in
  match make_point weather_data timestamp with
  | Some p =>
      if write_api s then
        let ok := influx_write w (write_calls s) in
        let* _ := modify (upd_write_calls S) in
        let* _ := emit (EvWrite ok p) in
        if ok then
          let* _ := modify (upd_sink (fun l => l ++ [p])) in
          let* _ := log Debug MsgDataSent in
          ret true
        else
          let* _ := log Error MsgSendFailed in ret false
      else
        let* _ := log Error MsgSendFailed in ret false
  | None =>
      let* _ := log Error MsgSendFailed in ret false
  end.

(** The queue methods on [self.data_queue]. *)
Definition q_get_nowait : M (result item) :=
  let* s := get in
  match get_nowait (data_queue s) with
  | Ok (x, q) => let* _ := modify (upd_data_queue (fun _ => q)) in ret (Ok x)
  | Raise e => ret (Raise e)
  end.

Definition q_put_nowait (x : item) : M (result unit) :=
  let* s := get in
  match put_nowait x (data_queue s) with
  | Ok q => let* _ := modify (upd_data_queue (fun _ => q)) in ret (Ok tt)
  | Raise e => ret (Raise e)
  end.

Definition queue_data (weather_data : gmap str F) (timestamp : option Z)
  : M unit :=
  let* timestamp := timestamp_or_now timestamp in
  let* s := get in
  let* _ :=
    when (full (data_queue s))
      (let* r := q_get_nowait in
       match r with
       | Ok _ => log Warning MsgQueueFullDropOldest
       | Raise _ => ret tt
       end) in
  let* r := q_put_nowait (weather_data, timestamp) in
  match r with
  | Ok _ =>
      let* s := get in log Debug (MsgQueued (qsize (data_queue s)))
  | Raise _ => log Error MsgQueueFailed
  end.

(** The [for _ in range(...)] loop of [data_sender_worker]. *)
Fixpoint sender_batch (n sent_count : nat) (failed_items : list item)
  : M (nat * list item) :=
  match n with
  | O => ret (sent_count, failed_items)
  | S n' =>
      let* r := q_get_nowait in
      match r with
      | Ok (weather_data, timestamp) =>
          let* ok := send_to_influxdb weather_data (Some timestamp) in
          if ok then sender_batch n' (S sent_count) failed_items
          else sender_batch n' sent_count (failed_items ++ [(weather_data, timestamp)])
      | Raise _ => ret (sent_count, failed_items)
      end
  end.

(** [for item in failed_items: ... put_nowait(item)] *)
Fixpoint sender_requeue (failed_items : list item) : M unit :=
  match failed_items with
  | [] => ret tt
  | x :: rest =>
      let* r := q_put_nowait x in
      let* _ :=
        match r with
        | Ok _ => ret tt
        | Raise _ => log Warning MsgRequeueFullDrop
        end in
      sender_requeue rest
  end.

(** One turn of the [while] loop of [data_sender_worker]. *)
Definition data_sender_cycle : M unit :=
  let* s := get in
  if empty (data_queue s) then sleep (queue_flush_interval cfg)
  else if influx_client s then
    let* (sent_count, failed_items) :=
      sender_batch (Nat.min 10 (qsize (data_queue s))) 0 [] in
    let* _ := sender_requeue failed_items in
    when (0 <? sent_count)%nat (log Info (MsgSentQueued sent_count))
  else sleep (influx_retry_delay cfg).

(** The second half of a turn of [watchdog_worker]: the check of the
    heartbeat, the health entry and the pause. *)
Definition watchdog_rest (now_ : Z) : M unit :=
  let* s := get in
  let* _ :=
    when (watchdog_timeout cfg <? now_ - last_heartbeat s)
      (let* _ := log Error (MsgMainUnresponsive (watchdog_timeout cfg)) in
       if restart_on_hang cfg then
         let* _ := log Error MsgForcingRestart in os_exit 1
       else ret tt) in
  let* s := get in
  let queue_size := qsize (data_queue s) in
  let* _ :=
    when (0 <? queue_size)%nat
      (log Info (MsgHealth queue_size (serial_retry_count s) (influx_retry_count s))) in
  sleep (health_check_interval cfg).

(** One turn of the [while] loop of [watchdog_worker]. *)
Definition watchdog_cycle : M unit :=
  let* now_ := now in
  let* s := get in
  let* _ :=
    when (data_timeout cfg <? now_ - last_data_time s)
      (let* _ := log Warning (MsgNoData (data_timeout cfg)) in
       let* s := get in
       when (serial_is_open s)
         (let* _ := log Info MsgReconnectSerial in
          let* _ := connect_serial in ret tt)) in
  watchdog_rest now_.

(** The final drain of [cleanup]. *)
Fixpoint cleanup_batch (n : nat) : M unit :=
  match n with
  | O => ret tt
  | S n' =>
      let* r := q_get_nowait in
      match r with
      | Ok (weather_data, timestamp) =>
          let* _ := send_to_influxdb weather_data (Some timestamp) in
          cleanup_batch n'
      | Raise _ => ret tt
      end
  end.

Definition cleanup_drain : M unit :=
  let* s := get in
  when (influx_client s && negb (empty (data_queue s)))
    (let* _ := log Info (MsgRemaining (qsize (data_queue s))) in
     cleanup_batch (Nat.min 50 (qsize (data_queue s)))).

(** [max_consecutive_errors = 10] *)
Definition max_consecutive_errors : nat := 10.

(** The use of a received line in [run]: parse it, and send or queue
    what it gives.  The result is the new [consecutive_errors], or the
    exception that leaves the block. *)
Definition handle_line (line : str) (consecutive_errors : nat) : M (result nat) :=
  let* _ := log Debug MsgReceived in
  match parse_weather_data line with
  | Raise e => ret (Raise e)
  | Ok None =>
      let* _ := log Debug MsgCouldNotParse in ret (Ok consecutive_errors)
  | Ok (Some weather_data) =>
      if decide (weather_data = ∅) then
        let* _ := log Debug MsgCouldNotParse in ret (Ok consecutive_errors)
      else
        let* t := now in
        let* _ := modify (upd_last_data_time (fun _ => t)) in
        let* _ := log Info MsgParsed in
        let* s := get in
        let* sent :=
          if influx_client s then send_to_influxdb weather_data None
          else ret false in
        if sent then ret (Ok O)
        else
          let* _ := log Warning MsgQueueing in
          let* _ := queue_data weather_data None in
          ret (Ok consecutive_errors)
  end.

(** The inner [try] of [run]: the read, and the two handlers. *)
Definition read_serial (consecutive_errors : nat) : M (result nat) :=
  let* s := get in
  let r := serial_read w (read_calls s) in
  let* _ := modify (upd_read_calls S) in
  let* body :=
    match r with
    | NothingWaiting => ret (Ok consecutive_errors)
    | Line text =>
        let line := strip text in
        if decide (line = []) then ret (Ok consecutive_errors)
        else handle_line line consecutive_errors
    | ReadRaises e => ret (Raise e)
    end in
  match body with
  | Ok n => ret (Ok n)
  | Raise SerialException =>
      let* _ := log Error MsgSerialError in
      let* ok := connect_serial in
      let* _ :=
        match ok with
        | Some true => ret tt
        | _ =>
            let* _ := log Error MsgSerialReconnectFailed in
            sleep (serial_retry_delay cfg)
        end in
      ret (Ok (S consecutive_errors))
  | Raise UnicodeDecodeError =>
      let* _ := log Warning MsgUnicodeError in
      ret (Ok (S consecutive_errors))
  | Raise e => ret (Raise e)
  end.

(** The end of a turn of [run]: the check of the error count and the
    pause after a turn that raised nothing, the handler of the outer
    [try] otherwise. *)
Definition run_rest (consecutive_errors : nat) (r : result nat) : M nat :=
  match r with
  | Ok consecutive_errors =>
      let* consecutive_errors :=
        if (max_consecutive_errors <=? consecutive_errors)%nat then
          let* _ := log Error (MsgTooManyErrors consecutive_errors) in
          if restart_on_hang cfg then os_exit 1
          else let* _ := sleep 60 in ret O
        else ret consecutive_errors in
      let* _ := sleep (read_interval cfg) in
      ret consecutive_errors
  | Raise _ =>
      let* _ := log Error MsgUnexpected in
      let* _ := sleep (read_interval cfg) in
      ret (S consecutive_errors)
  end.

(** One turn of the [while] loop of [run], from the value of
    [consecutive_errors] before it to the value after it. *)
Definition run_iteration (consecutive_errors : nat) : M nat :=
  let* t := now in
  let* _ := modify (upd_last_heartbeat (fun _ => t)) in
  let* s := get in
  let* connected :=
    if serial_is_open s then ret true
    else
      let* _ := log Warning MsgSerialLost in
      let* ok := connect_serial in
      ret (match ok with Some true => true | _ => false end) in
  if negb connected then
    let* _ := sleep (serial_retry_delay cfg) in ret consecutive_errors
  else
    let* s := get in
    let* _ :=
      when (negb (influx_client s))
        (let* _ := log Info MsgInfluxReconnect in
         let* _ := connect_influxdb in ret tt) in
    let* s := get in
    let* r :=
      if serial_is_open s then read_serial consecutive_errors
      else ret (Ok consecutive_errors) in
    run_rest consecutive_errors r.

(** [n] turns of the loop in a row. *)
Fixpoint run_iterations (n consecutive_errors : nat) : M nat :=
  match n with
  | O => ret consecutive_errors
  | S n' =>
      let* consecutive_errors := run_iteration consecutive_errors in
      run_iterations n' consecutive_errors
  end.

End Operations.

(** A run of calls [queue_data(weather_data, timestamp)], one for each
    element of [xs] in turn. *)
Fixpoint queue_all (xs : list item) : M unit :=
  match xs with
  | [] => ret tt
  | (weather_data, timestamp) :: rest =>
      let* _ := queue_data weather_data (Some timestamp) in queue_all rest
  end.

(** The attributes set by [__init__] at time [t]. *)
Definition init (t : Z) : state :=
  mkState true None false false 0 0 t t (Queue 1000) t 0 0 0 0 [] [].

End WithFloat.

Arguments Ret {F A} a s.
Arguments Exit {F A} code s.

End Daemon.


#[local] Set Warnings "-register-all".

(** * More of the daemon of [weather-daemon.py] *)

Section SenderLoop.
Import Daemon.
Context {F : Type}.
Variable cfg : config.
Variable w : world.

(** [n] turns of the loop of [data_sender_worker] in a row. *)
Fixpoint data_sender_turns (n : nat) : @M F unit :=
  match n with
  | O => ret tt
  | S n' =>
      bindM (data_sender_cycle cfg w) (fun _ => data_sender_turns n')
  end.

End SenderLoop.

(** ** The main loop with the sender thread at the queue

    [queue_data] holds [queue_lock] from its test of [full()] to its
    [put_nowait]; [data_sender_worker] takes from the queue and puts back
    without the lock, so its calls can fall between the two.  The
    definitions below are [queue_data] and its callers with, at that
    place, what another thread does to the state in the meantime. *)

Section Meanwhile.
Import Daemon.
Context {F : Type} `{PyFloat F}.
Variable cfg : config.
Variable w : world.
Variable meanwhile : @M F unit.

Notation "'let*' x ':=' m 'in' k" := (bindM m (fun x => k))
  (at level 10, x pattern, m at level 100, k at level 200).

Definition queue_data_meanwhile (weather_data : gmap str F) (timestamp : option Z)
  : M unit :=
  let* timestamp := timestamp_or_now timestamp in
  let* s := get in
  let* _ :=
    when (full (data_queue s))
      (let* r := q_get_nowait in
       match r with
       | Ok _ => log Warning MsgQueueFullDropOldest
       | Raise _ => ret tt
       end) in
  let* _ := meanwhile in
  let* r := q_put_nowait (weather_data, timestamp) in
  match r with
  | Ok _ =>
      let* s := get in log Debug (MsgQueued (qsize (data_queue s)))
  | Raise _ => log Error MsgQueueFailed
  end.

Definition handle_line_meanwhile (line : str) (consecutive_errors : nat)
  : M (result nat) :=
  let* _ := log Debug MsgReceived in
  match parse_weather_data line with
  | Raise e => ret (Raise e)
  | Ok None =>
      let* _ := log Debug MsgCouldNotParse in ret (Ok consecutive_errors)
  | Ok (Some weather_data) =>
      if decide (weather_data = ∅) then
        let* _ := log Debug MsgCouldNotParse in ret (Ok consecutive_errors)
      else
        let* t := now in
        let* _ := modify (upd_last_data_time (fun _ => t)) in
        let* _ := log Info MsgParsed in
        let* s := get in
        let* sent :=
          if influx_client s then send_to_influxdb w weather_data None
          else ret false in
        if sent then ret (Ok O)
        else
          let* _ := log Warning MsgQueueing in
          let* _ := queue_data_meanwhile weather_data None in
          ret (Ok consecutive_errors)
  end.

Definition read_serial_meanwhile (consecutive_errors : nat) : M (result nat) :=
  let* s := get in
  let r := serial_read w (read_calls s) in
  let* _ := modify (upd_read_calls S) in
  let* body :=
    match r with
    | NothingWaiting => ret (Ok consecutive_errors)
    | Line text =>
        let line := strip text in
        if decide (line = []) then ret (Ok consecutive_errors)
        else handle_line_meanwhile line consecutive_errors
    | ReadRaises e => ret (Raise e)
    end in
  match body with
  | Ok n => ret (Ok n)
  | Raise SerialException =>
      let* _ := log Error MsgSerialError in
      let* ok := connect_serial cfg w in
      let* _ :=
        match ok with
        | Some true => ret tt
        | _ =>
            let* _ := log Error MsgSerialReconnectFailed in
            sleep (serial_retry_delay cfg)
        end in
      ret (Ok (S consecutive_errors))
  | Raise UnicodeDecodeError =>
      let* _ := log Warning MsgUnicodeError in
      ret (Ok (S consecutive_errors))
  | Raise e => ret (Raise e)
  end.

(** One turn of the [while] loop of [run], as [run_iteration]. *)
Definition run_iteration_meanwhile (consecutive_errors : nat) : M nat :=
  let* t := now in
  let* _ := modify (upd_last_heartbeat (fun _ => t)) in
  let* s := get in
  let* connected :=
    if serial_is_open s then ret true
    else
      let* _ := log Warning MsgSerialLost in
      let* ok := connect_serial cfg w in
      ret (match ok with Some true => true | _ => false end) in
  if negb connected then
    let* _ := sleep (serial_retry_delay cfg) in ret consecutive_errors
  else
    let* s := get in
    let* _ :=
      when (negb (influx_client s))
        (let* _ := log Info MsgInfluxReconnect in
         let* _ := connect_influxdb cfg w in ret tt) in
    let* s := get in
    let* r :=
      if serial_is_open s then read_serial_meanwhile consecutive_errors
      else ret (Ok consecutive_errors) in
    run_rest cfg consecutive_errors r.

End Meanwhile.

(** * The daemon of [weather_daemon.py] *)

Module Station.

(** ** The configuration *)

(** A value of the configuration: a [dict], or anything else (a
    number, a string, a list, [None]). *)
Inductive value (A : Type) : Type :=
| Other (a : A)
| Dict (entries : list (str * value A)).
Arguments Other {A} a.
Arguments Dict {A} entries.

Section Config.
Context {A : Type}.

(** A [dict] with string keys, its entries in the order of insertion. *)
Definition dict : Type := list (str * value A).

(** [d.get(key)] *)
Fixpoint dict_get (key : str) (d : dict) : option (value A) :=
  match d with
  | [] => None
  | (k, v) :: rest => if decide (k = key) then Some v else dict_get key rest
  end.

(** [d[key] = v]: the value is replaced where the key is, a new key is
    added at the end. *)
Fixpoint dict_set (key : str) (v : value A) (d : dict) : dict :=
  match d with
  | [] => [(key, v)]
  | (k, x) :: rest =>
      if decide (k = key) then (k, v) :: rest else (k, x) :: dict_set key v rest
  end.

(** The value one turn of the loop of [merge_config] stores under a
    key, from [result.get(key)] and the loaded value: the merge of the
    two when both are dicts, the loaded value otherwise.  The merge, in
    the first branch, is the loop of [merge_config] itself, written out
    because the recursion goes through the entries of the loaded dict. *)
Fixpoint merged (current : option (value A)) (v : value A) {struct v} : value A :=
  match current, v with
  | Some (Dict result), Dict loaded =>
      Dict (fold_left
              (fun result kv =>
                 dict_set kv.1 (merged (dict_get kv.1 result) kv.2) result)
              loaded result)
  | _, _ => v
  end.

(** [merge_config]: [result] starts as a copy of [default]; the loop
    goes through [loaded.items()] in their order. *)
Definition merge_config (default loaded : dict) : dict :=
  fold_left
    (fun result kv => dict_set kv.1 (merged (dict_get kv.1 result) kv.2) result)
    loaded default.

End Config.

(** ** The connections and the collection loop

    The methods are taken with a configuration that has the keys they
    read, as the merge with the defaults gives it; the log entries the
    parser itself writes are left out. *)

(** The two numbers of the section [collection]. *)
Record settings : Type := mkSettings {
  retry_delay : Z;
  loop_delay : Z
}.

(** The surroundings: the outcome of the k-th use of each external
    operation.  [serial_open] says whether [serial.Serial(...)] returns
    ([true]) or raises. *)
Record world : Type := mkWorld {
  serial_open : nat -> bool;
  influx_open : nat -> Daemon.influx_try;
  influx_write : nat -> bool;
  serial_read : nat -> Daemon.read_try
}.

Inductive message : Type :=
| MsgSerialEstablished
| MsgSerialFailed
| MsgInfluxEstablished
| MsgInfluxFailed
| MsgWritten
| MsgWriteError
| MsgLoopStart
| MsgSerialLost
| MsgReceived
| MsgWriteFailedReconnect
| MsgSerialError
| MsgUnexpected
| MsgLoopEnded
| MsgStarting
| MsgNoSerial
| MsgNoInflux
| MsgStarted.

Section WithFloat.
Context {F : Type} `{PyFloat F}.

(** One call of [write_api.write]: a point for each field of [data],
    made at time [t]. *)
Inductive event : Type :=
| EvSerialTry (ok : bool)
| EvInfluxTry (t : Daemon.influx_try)
| EvSleep (d : Z)
| EvLog (l : Daemon.level) (m : message)
| EvWrite (ok : bool) (data : gmap str F) (t : Z).

(** The attributes of the [WeatherStationDaemon] object, the clock, how
    often each external operation was used, what the sink accepted and
    the events in their order. *)
Record state : Type := mkState {
  running : bool;
  serial_conn : option bool;
  influx_client : bool;
  write_api : bool;
  clock : Z;
  serial_calls : nat;
  influx_calls : nat;
  write_calls : nat;
  read_calls : nat;
  sink : list (gmap str F * Z);
  trace : list event
}.

Definition set_running (b : bool) (s : state) : state :=
  mkState b (serial_conn s) (influx_client s) (write_api s) (clock s)
    (serial_calls s) (influx_calls s) (write_calls s) (read_calls s)
    (sink s) (trace s).

Definition set_serial_conn (c : option bool) (s : state) : state :=
  mkState (running s) c (influx_client s) (write_api s) (clock s)
    (serial_calls s) (influx_calls s) (write_calls s) (read_calls s)
    (sink s) (trace s).

(** [self.influx_client = InfluxDBClient(...)] followed by
    [self.write_api = self.influx_client.write_api(...)] *)
Definition set_influx (s : state) : state :=
  mkState (running s) (serial_conn s) true true (clock s)
    (serial_calls s) (influx_calls s) (write_calls s) (read_calls s)
    (sink s) (trace s).

Definition add_clock (d : Z) (s : state) : state :=
  mkState (running s) (serial_conn s) (influx_client s) (write_api s)
    (clock s + d)
    (serial_calls s) (influx_calls s) (write_calls s) (read_calls s)
    (sink s) (trace s).

Definition next_serial_call (s : state) : state :=
  mkState (running s) (serial_conn s) (influx_client s) (write_api s) (clock s)
    (S (serial_calls s)) (influx_calls s) (write_calls s) (read_calls s)
    (sink s) (trace s).

Definition next_influx_call (s : state) : state :=
  mkState (running s) (serial_conn s) (influx_client s) (write_api s) (clock s)
    (serial_calls s) (S (influx_calls s)) (write_calls s) (read_calls s)
    (sink s) (trace s).

Definition next_write_call (s : state) : state :=
  mkState (running s) (serial_conn s) (influx_client s) (write_api s) (clock s)
    (serial_calls s) (influx_calls s) (S (write_calls s)) (read_calls s)
    (sink s) (trace s).

Definition next_read_call (s : state) : state :=
  mkState (running s) (serial_conn s) (influx_client s) (write_api s) (clock s)
    (serial_calls s) (influx_calls s) (write_calls s) (S (read_calls s))
    (sink s) (trace s).

Definition add_sink (x : gmap str F * Z) (s : state) : state :=
  mkState (running s) (serial_conn s) (influx_client s) (write_api s) (clock s)
    (serial_calls s) (influx_calls s) (write_calls s) (read_calls s)
    (sink s ++ [x]) (trace s).

Definition add_event (e : event) (s : state) : state :=
  mkState (running s) (serial_conn s) (influx_client s) (write_api s) (clock s)
    (serial_calls s) (influx_calls s) (write_calls s) (read_calls s)
    (sink s) (trace s ++ [e]).

(** [self.serial_conn and self.serial_conn.is_open] *)
Definition serial_is_open (s : state) : bool :=
  match serial_conn s with
  | Some b => b
  | None => false
  end.

(** A method of the daemon: from the state before to the result and
    the state after. *)
Definition M (A : Type) : Type := state -> A * state.

Definition ret {A : Type} (a : A) : M A := fun s => (a, s).

Definition bindM {A B : Type} (m : M A) (k : A -> M B) : M B :=
  fun s => let (a, s') := m s in k a s'.

Notation "'let*' x ':=' m 'in' k" := (bindM m (fun x => k))
  (at level 10, x pattern, m at level 100, k at level 200).

Definition get : M state := fun s => (s, s).

Definition modify (f : state -> state) : M unit := fun s => (tt, f s).

Definition log (l : Daemon.level) (m : message) : M unit :=
  modify (add_event (EvLog l m)).

(** [time.sleep(d)] *)
Definition sleep (d : Z) : M unit :=
  let* _ := modify (add_clock d) in modify (add_event (EvSleep d)).

Definition when (b : bool) (m : M unit) : M unit := if b then m else ret tt.

Section Operations.
Variable cfg : settings.
Variable w : world.

(** [setup_serial]: an open port is closed first; an exception of the
    constructor is logged and gives [False]. *)
Definition setup_serial : M bool :=
  let* s := get in
  let* _ := when (serial_is_open s) (modify (set_serial_conn (Some false))) in
  let ok := serial_open w (serial_calls s) in
  let* _ := modify next_serial_call in
  let* _ := modify (add_event (EvSerialTry ok)) in
  if ok then
    let* _ := modify (set_serial_conn (Some true)) in
    let* _ := log Daemon.Info MsgSerialEstablished in
    ret true
  else
    let* _ := log Daemon.Error MsgSerialFailed in
    ret false.

(** [setup_influxdb]: the client and its write API are in place as soon
    as the constructor returns, also when the test of the connection
    raises. *)
Definition setup_influxdb : M bool :=
  let* s := get in
  let t := influx_open w (influx_calls s) in
  let* _ := modify next_influx_call in
  let* _ := modify (add_event (EvInfluxTry t)) in
  match t with
  | Daemon.InfluxConnected =>
      let* _ := modify set_influx in
      let* _ := log Daemon.Info MsgInfluxEstablished in
      ret true
  | Daemon.InfluxPingRaises =>
      let* _ := modify set_influx in
      let* _ := log Daemon.Error MsgInfluxFailed in
      ret false
  | Daemon.InfluxCtorRaises =>
      let* _ := log Daemon.Error MsgInfluxFailed in
      ret false
  end.

(** [write_to_influxdb]: every value of a parsed reading is a float, so
    there is a point for each field; [None] is the result of the method
    when there is no point. *)
Definition write_to_influxdb (data : gmap str F) : M (option bool) :=
  if decide (data = ∅) then ret None
  else
    let* s := get in
    if write_api s then
      let ok := influx_write w (write_calls s) in
      let* _ := modify next_write_call in
      let* _ := modify (add_event (EvWrite ok data (clock s))) in
      if ok then
        let* _ := modify (add_sink (data, clock s)) in
        let* _ := log Daemon.Info MsgWritten in
        ret (Some true)
      else
        let* _ := log Daemon.Error MsgWriteError in
        ret (Some false)
    else
      let* _ := log Daemon.Error MsgWriteError in
      ret (Some false).

(** The two handlers of the loop of [collect_data]. *)
Definition on_exception (e : exn) : M unit :=
  match e with
  | SerialException =>
      let* _ := log Daemon.Error MsgSerialError in
      let* _ := sleep (retry_delay cfg) in
      let* _ := setup_serial in
      ret tt
  | _ =>
      let* _ := log Daemon.Error MsgUnexpected in
      sleep (retry_delay cfg)
  end.

(** The use of a received line in [collect_data]. *)
Definition use_line (line : str) : M (result unit) :=
  let* _ := log Daemon.Debug MsgReceived in
  match Collector.parse_weather_data line with
  | Raise e => ret (Raise e)
  | Ok None => ret (Ok tt)
  | Ok (Some parsed_data) =>
      if decide (parsed_data = ∅) then ret (Ok tt)
      else
        let* written := write_to_influxdb parsed_data in
        match written with
        | Some true => ret (Ok tt)
        | _ =>
            let* _ := log Daemon.Warning MsgWriteFailedReconnect in
            let* _ := setup_influxdb in
            ret (Ok tt)
        end
  end.

(** One turn of the [while] loop of [collect_data]. *)
Definition collect_turn : M unit :=
  let* s := get in
  let* connected :=
    if serial_is_open s then ret true
    else let* _ := log Daemon.Warning MsgSerialLost in setup_serial in
  if negb connected then sleep (retry_delay cfg)
  else
    let* s := get in
    let r := serial_read w (read_calls s) in
    let* _ := modify next_read_call in
    let* body :=
      match r with
      | Daemon.NothingWaiting => ret (Ok tt)
      | Daemon.Line text =>
          let line := strip text in
          if decide (line = []) then ret (Ok tt) else use_line line
      | Daemon.ReadRaises e => ret (Raise e)
      end in
    match body with
    | Ok _ => sleep (loop_delay cfg)
    | Raise e => on_exception e
    end.

(** [start], up to the start of the collection thread. *)
Definition start : M bool :=
  let* _ := log Daemon.Info MsgStarting in
  let* ok := setup_serial in
  if negb ok then
    let* _ := log Daemon.Error MsgNoSerial in ret false
  else
    let* ok := setup_influxdb in
    if negb ok then
      let* _ := log Daemon.Error MsgNoInflux in ret false
    else
      let* _ := modify (set_running true) in
      let* _ := log Daemon.Info MsgStarted in
      ret true.

End Operations.

(** The attributes set by [__init__] at time [t]. *)
Definition init (t : Z) : state :=
  mkState false None false false t 0 0 0 0 [] [].

End WithFloat.

End Station.
(** * Vocabulary of the statements *)

Section QueueVocabulary.
Import Daemon.
Context {F : Type}.

Definition within_capacity (q : pyqueue (@item F)) : Prop :=
  Z.of_nat (qsize q) <= maxsize q.

(** The queue after [queue_data]: the oldest element leaves when the
    queue was full, and the new pair is last. *)
Definition after_queue_data (q : pyqueue (@item F)) (x : @item F) : list (@item F) :=
  (if full q then tail (items q) else items q) ++ [x].

(** The last [n] elements of a list. *)
Definition keep_last {A : Type} (n : nat) (l : list A) : list A :=
  drop (length l - n) l.

End QueueVocabulary.

(** What a trace shows of a reconnection: the connection attempts and
    the pauses, in their order. *)
Inductive step : Type :=
| Attempt
| Delay (d : Z).

Section TraceVocabulary.
Import Daemon.
Context {F : Type}.

Definition step_of (e : @event F) : list step :=
  match e with
  | EvSerialTry _ | EvInfluxTry _ => [Attempt]
  | EvSleep d => [Delay d]
  | _ => []
  end.

Definition schedule (tr : list (@event F)) : list step :=
  tr ≫= step_of.

End TraceVocabulary.

(** [m] attempts with a pause of [d] between two of them. *)
Fixpoint attempts_with_delay (m : nat) (d : Z) : list step :=
  match m with
  | O => []
  | S m' =>
      Attempt :: match m' with
                 | O => []
                 | S _ => Delay d :: attempts_with_delay m' d
                 end
  end.

Section WatchdogVocabulary.
Import Daemon.
Context {F : Type}.

(** The state in which a computation ends, returned or not. *)
Definition final {A : Type} (o : @outcome F A) : @state F :=
  match o with
  | Ret _ s => s
  | Exit _ s => s
  end.

(** The watchdog announcing a reconnection of the serial port. *)
Definition is_reconnect_trigger (e : @event F) : bool :=
  match e with
  | EvLog Info MsgReconnectSerial => true
  | _ => false
  end.

(** The end of one call of [connect_serial]: connected, or given up. *)
Definition is_reconnect_end (e : @event F) : bool :=
  match e with
  | EvLog Info MsgSerialConnected => true
  | EvLog Error (MsgSerialExhausted _) => true
  | _ => false
  end.

Definition is_serial_try (e : @event F) : bool :=
  match e with
  | EvSerialTry _ => true
  | _ => false
  end.

Definition count_events (p : @event F -> bool) (tr : list (@event F)) : nat :=
  length (List.filter p tr).

End WatchdogVocabulary.

Section SenderVocabulary.
Import Daemon.
Context {F : Type}.

(** The elements of [xs] whose flag in [oks] is [b]. *)
Fixpoint select {A : Type} (b : bool) (oks : list bool) (xs : list A) : list A :=
  match oks, xs with
  | ok :: oks', x :: xs' =>
      if Bool.eqb ok b then x :: select b oks' xs' else select b oks' xs'
  | _, _ => []
  end.

(** The point made of a queued pair: its reading, with its own
    timestamp. *)
Definition point_of (x : @item F) (p : @point F) : Prop :=
  make_point (fst x) (snd x) = Some p.

(** What [put_nowait] makes of a queue: the element is added at the end
    when there is room, and left out when the queue is full. *)
Definition after_put_nowait (q : pyqueue (@item F)) (x : @item F) : list (@item F) :=
  if full q then items q else items q ++ [x].

End SenderVocabulary.

(** The texts a regular expression matches, with the groups before and
    after the match. *)
Module RegexSpec.
Import Regex.

Inductive matches : re -> str -> groups -> groups -> Prop :=
| M_eps g : matches Eps [] g g
| M_chr c g : matches (Chr c) [c] g g
| M_cls (p : ascii -> bool) c g : p c = true -> matches (Cls p) [c] g g
| M_cat a b u v g g1 g2 :
    matches a u g g1 -> matches b v g1 g2 -> matches (Cat a b) (u ++ v) g g2
| M_opt_some a u g g1 : matches a u g g1 -> matches (Opt a) u g g1
| M_opt_none a g : matches (Opt a) [] g g
| M_star_nil a g : matches (Star a) [] g g
| M_star_cons a u v g g1 g2 :
    u <> [] -> matches a u g g1 -> matches (Star a) v g1 g2 ->
    matches (Star a) (u ++ v) g g2
| M_plus a u v g g1 g2 :
    matches a u g g1 -> matches (Star a) v g1 g2 ->
    matches (Plus a) (u ++ v) g g2
| M_grp i a u g g1 :
    matches a u g g1 -> matches (Grp i a) u g (<[i := u]> g1).

(** The groups of a match of [Daemon.pattern]. *)
Definition groups_of (n1 n2 n3 n4 : str) : groups :=
  <[4%nat := n4]> (<[3%nat := n3]> (<[2%nat := n2]> (<[1%nat := n1]> ∅))).

End RegexSpec.

Section LineVocabulary.

Definition all_digits (s : str) : Prop := Forall (fun c => isdigit c = true) s.

Definition all_spaces (s : str) : Prop := Forall (fun c => isspace c = true) s.

(** One or more digits, then at most one dot, then any number of
    digits: no sign, no exponent. *)
Definition unsigned_decimal (n : str) : Prop :=
  exists ip dot fp,
    n = ip ++ dot ++ fp
    /\ ip <> [] /\ all_digits ip
    /\ (dot = [] \/ dot = lit ".")
    /\ all_digits fp.

(** One or more whitespace characters. *)
Definition whitespace (s : str) : Prop := s <> [] /\ all_spaces s.

(** [T:n1 H:n2 P:n3 WS:n4] with whitespace, and nothing else, between
    the four pairs. *)
Definition four_pairs (u n1 n2 n3 n4 : str) : Prop :=
  exists w1 w2 w3,
    u = lit "T:" ++ n1 ++ w1 ++ lit "H:" ++ n2 ++ w2
        ++ lit "P:" ++ n3 ++ w3 ++ lit "WS:" ++ n4
    /\ unsigned_decimal n1 /\ unsigned_decimal n2
    /\ unsigned_decimal n3 /\ unsigned_decimal n4
    /\ whitespace w1 /\ whitespace w2 /\ whitespace w3.

(** The line has the four pairs somewhere in it. *)
Definition has_four_pairs (line : str) : Prop :=
  exists pre u post n1 n2 n3 n4,
    line = pre ++ u ++ post /\ four_pairs u n1 n2 n3 n4.

(** The four keys in their order, each followed by an unsigned decimal
    number, with any text before, between and after. *)
Definition keys_in_order (line : str) : Prop :=
  exists a n1 b n2 c n3 d n4 e,
    line = a ++ lit "T:" ++ n1 ++ b ++ lit "H:" ++ n2 ++ c
             ++ lit "P:" ++ n3 ++ d ++ lit "WS:" ++ n4 ++ e
    /\ unsigned_decimal n1 /\ unsigned_decimal n2
    /\ unsigned_decimal n3 /\ unsigned_decimal n4.

(** [key in line] *)
Definition occurs_in (key line : str) : Prop :=
  exists a b, line = a ++ key ++ b.

End LineVocabulary.

Section TokenVocabulary.
Context {F : Type} `{PyFloat F}.

(** The tokens of a line as [weather_daemon.py] cuts it: the pieces
    between single spaces of the stripped line. *)
Definition tokens (line : str) : list str := split " " (strip line).

(** The field a token gives: its key, stripped and mapped, with the
    number read from its stripped value; nothing when the token has no
    colon or [float] refuses the value. *)
Definition token_field (tok : str) : option (str * F) :=
  if contains ":" tok then
    match float (strip (split1 ":" tok).2) with
    | Ok x => Some (Collector.field_mapping_get (strip (split1 ":" tok).1), x)
    | Raise _ => None
    end
  else None.

(** The fields of the tokens that convert, in the order of the line. *)
Definition converted (line : str) : list (str * F) :=
  omap token_field (tokens line).

(** [data_dict[field_name] = x] *)
Definition put_field (d : gmap str F) (kv : str * F) : gmap str F :=
  <[kv.1 := kv.2]> d.

(** The value of the last pair of [l] with the name [f]. *)
Definition last_value (f : str) (l : list (str * F)) : option F :=
  snd <$> last (filter (fun kv => kv.1 = f) l).

End TokenVocabulary.

(** * Sample data *)

Module Sample.
Import FloatModel Daemon.

(** The reading of the line [T:22.6 H:50.1 P:1011.9 WS:0.00]. *)
Definition reading : gmap str pyfloat :=
  <[lit "wind_speed" := Fin false 0 (-2)]>
  (<[lit "pressure" := Fin false 10119 (-1)]>
  (<[lit "humidity" := Fin false 501 (-1)]>
  (<[lit "temperature" := Fin false 226 (-1)]> ∅))).

Definition cfg : config :=
  mkConfig 3 2 5 30 300 600 60 10 5 true.

(** Every connection attempt fails, the sink refuses every write and
    the port delivers the same line at every read. *)
Definition down : world :=
  mkWorld (fun _ => SerialCtorRaises SerialException)
          (fun _ => InfluxCtorRaises)
          (fun _ => false)
          (fun _ => Line (lit "T:22.6 H:50.1 P:1011.9 WS:0.00")).

(** The sink accepts every second write. *)
Definition flaky : world :=
  mkWorld (fun _ => SerialOpened)
          (fun _ => InfluxConnected)
          Nat.even
          (fun _ => Line (lit "T:22.6 H:50.1 P:1011.9 WS:0.00")).

(** A decode error at every second read, nothing waiting in between. *)
Definition noisy : world :=
  mkWorld (fun _ => SerialOpened)
          (fun _ => InfluxConnected)
          (fun _ => true)
          (fun k => if Nat.even k then ReadRaises UnicodeDecodeError
                    else NothingWaiting).

(** Every read raises an exception that is neither a
    [SerialException] nor a [UnicodeDecodeError]. *)
Definition broken : world :=
  mkWorld (fun _ => SerialOpened)
          (fun _ => InfluxConnected)
          (fun _ => true)
          (fun _ => ReadRaises OtherError).

(** The daemon after a start at time 0 with both connections made. *)
Definition connected : @state pyfloat :=
  upd_serial_connection (fun _ => Some true)
    (upd_influx_client (fun _ => true)
       (upd_write_api (fun _ => true) (init 0))).

Definition with_queue (q : pyqueue (@item pyfloat)) (s : @state pyfloat)
  : @state pyfloat :=
  upd_data_queue (fun _ => q) s.

(** Three readings taken at times 1, 2 and 3. *)
Definition three : list (@item pyfloat) :=
  [(reading, 1); (reading, 2); (reading, 3)].

(** The queue of [__init__], full of readings taken at time 0. *)
Definition full_queue : pyqueue (@item pyfloat) :=
  mkQueue 1000 (replicate 1000 (reading, 0)).

End Sample.

(** * Vocabulary of the further statements *)

(** A text at the start of which a number cannot go on: empty, or
    beginning with a character that is neither a digit nor a dot. *)
Definition ends_number (rest : str) : Prop :=
  match rest with
  | [] => True
  | c :: _ => isdigit c = false /\ c <> "."%char
  end.

(** The line the station sends: the four pairs with one space between
    two of them and nothing around. *)
Definition clean_line (n1 n2 n3 n4 : str) : str :=
  lit "T:" ++ n1 ++ lit " H:" ++ n2 ++ lit " P:" ++ n3 ++ lit " WS:" ++ n4.


Section TurnVocabulary.
Import Daemon.
Context {F : Type}.

(** Whatever state [s] the computation starts in, the state it ends in,
    returned or not, is related to [s] by [R]. *)
Definition keeps {A : Type} (R : @state F -> @state F -> Prop) (m : @M F A) : Prop :=
  forall s, R s (final (m s)).

(** The code of [os._exit] when the computation ends the process. *)
Definition exit_code {A : Type} (o : @outcome F A) : option Z :=
  match o with
  | Ret _ _ => None
  | Exit code _ => Some code
  end.

(** The computation ends the process only with code 1, and only when
    [P] holds. *)
Definition exits_only_if {A : Type} (P : Prop) (m : @M F A) : Prop :=
  forall s code, exit_code (m s) = Some code -> code = 1 /\ P.

(** The computation leaves the attribute [field] as it is. *)
Definition same {X : Type} (field : @state F -> X) (s s' : @state F) : Prop :=
  field s' = field s.

(** The queue has a positive bound and holds no more than it. *)
Definition bounded_queue (s : @state F) : Prop :=
  0 < maxsize (data_queue s) /\ within_capacity (data_queue s).

(** From a bounded queue to a bounded queue with the same bound. *)
Definition keeps_bound (s s' : @state F) : Prop :=
  bounded_queue s ->
  bounded_queue s' /\ maxsize (data_queue s') = maxsize (data_queue s).

End TurnVocabulary.

Section Interleavings.
Import Daemon.
Context {F : Type} `{PyFloat F}.
Variable cfg : config.
Variable w : world.

(** One turn of one of the three loops, or the final drain, taken as a
    whole; a turn that ends the process leaves the state it ended in. *)
Inductive turn : @state F -> @state F -> Prop :=
| turn_main (consecutive_errors : nat) (s : state) :
    turn s (final (run_iteration cfg w consecutive_errors s))
| turn_sender (s : state) :
    turn s (final (data_sender_cycle cfg w s))
| turn_watchdog (s : state) :
    turn s (final (watchdog_cycle cfg w s))
| turn_cleanup (s : state) :
    turn s (final (cleanup_drain w s)).

(** The states the daemon can be in after any number of turns, in any
    order, from the state [__init__] sets up at time [t]. *)
Definition reachable (t : Z) (s : @state F) : Prop :=
  rtc turn (init t) s.

End Interleavings.

Section DeliveryVocabulary.
Import Daemon.
Context {F : Type}.

(** The queued pair has the four fields a point is made of. *)
Definition complete (x : @item F) : Prop :=
  is_Some (make_point (fst x) (snd x)).

End DeliveryVocabulary.

Section ConfigVocabulary.
Import Station.
Context {A : Type}.

(** The keys of a dict in their order. *)
Definition keys (d : @dict A) : list str := d.*1.

(** A dict as Python has it, at every depth: no key twice. *)
Inductive well_formed : value A -> Prop :=
| wf_other (a : A) : well_formed (Other a)
| wf_dict (entries : @dict A) :
    NoDup (keys entries) ->
    Forall (fun kv => well_formed kv.2) entries ->
    well_formed (Dict entries).

(** What [merge_config] leaves under a key that both dicts have: the
    merge of the two values when both are dicts, the loaded value
    otherwise. *)
Definition merge_values (old new : value A) : value A :=
  match old, new with
  | Dict r, Dict l => Dict (merge_config r l)
  | _, _ => new
  end.

End ConfigVocabulary.

Section StationVocabulary.
Import Station.
Context {F : Type}.

(** From [s] to [s'] the clock advances by [pause], the port is read at
    most [reads] times, the sink written to at most [writes] times and
    tried at most [tries] times, the port opened at most [opens] times,
    and [running] is left alone. *)
Definition advance (pause : Z) (reads writes tries opens : nat)
    (s s' : @state F) : Prop :=
  clock s' = clock s + pause
  /\ (read_calls s <= read_calls s' <= read_calls s + reads)%nat
  /\ (write_calls s <= write_calls s' <= write_calls s + writes)%nat
  /\ (influx_calls s <= influx_calls s' <= influx_calls s + tries)%nat
  /\ (serial_calls s <= serial_calls s' <= serial_calls s + opens)%nat
  /\ running s' = running s.

End StationVocabulary.

Section WriteVocabulary.
Import Daemon.
Context {F : Type}.

Definition write_of (e : @event F) : option (bool * @point F) :=
  match e with
  | EvWrite ok p => Some (ok, p)
  | _ => None
  end.

(** The calls of [write_api.write] in a trace, in their order: what
    the sink answered and the point written. *)
Definition writes (tr : list (@event F)) : list (bool * @point F) :=
  omap write_of tr.

(** The answers of the sink to [n] writes in a row, the first of them
    being its write number [k]. *)
Definition answers (w : world) (k n : nat) : list bool :=
  (fun i => influx_write w (k + i)) <$> seq 0 n.

(** The write made for a queued pair: the point made of the pair's
    reading, with the pair's own timestamp. *)
Definition written_as (x : @item F) (a : bool * @point F) : Prop :=
  point_of x a.2 /\ time a.2 = snd x.

(** Whenever the computation returns, its result satisfies [Q]. *)
Definition returns_only {A : Type} (Q : A -> Prop) (m : @M F A) : Prop :=
  forall s a s', m s = Ret a s' -> Q a.

(** The connection attempts in a piece of the trace, [serial.Serial]
    calls in their order, each with what it met. *)
Definition try_of (e : @event F) : option serial_try :=
  match e with EvSerialTry t => Some t | _ => None end.

Definition serial_tries (tr : list (@event F)) : list serial_try :=
  omap try_of tr.

(** What the port answers to [n] attempts from the [k]-th one on. *)
Definition opens (w : world) (k n : nat) : list serial_try :=
  (fun i => serial_open w (k + i)) <$> seq 0 n.

Definition failed_try (t : serial_try) : bool :=
  match t with SerialOpened => false | _ => true end.

End WriteVocabulary.

(** * More sample data *)

Module Scenario.
Import FloatModel.

(** The port opens at the third attempt and the sink answers at the
    second; every write is accepted. *)
Definition late : Daemon.world :=
  Daemon.mkWorld
    (fun k => if (k <? 2)%nat then Daemon.SerialCtorRaises SerialException
              else Daemon.SerialOpened)
    (fun k => if (k <? 1)%nat then Daemon.InfluxPingRaises
              else Daemon.InfluxConnected)
    (fun _ => true)
    (fun _ => Daemon.Line (lit "T:22.6 H:50.1 P:1011.9 WS:0.00")).

(** [DEFAULT_CONFIG], every value that is not a dict by its text. *)
Definition DEFAULT_CONFIG : @Station.dict string :=
  [(lit "serial",
    Station.Dict [(lit "port", Station.Other "/dev/ttyUSB0"%string);
                  (lit "baudrate", Station.Other "9600"%string);
                  (lit "timeout", Station.Other "5"%string)]);
   (lit "influxdb",
    Station.Dict [(lit "url", Station.Other "http://weather.local:8086"%string);
                  (lit "token", Station.Other "(the token)"%string);
                  (lit "org", Station.Other "rotse-test"%string);
                  (lit "bucket", Station.Other "weather"%string)]);
   (lit "logging",
    Station.Dict [(lit "level", Station.Other "INFO"%string);
                  (lit "file",
                   Station.Other "/var/log/weather-station/weather.log"%string);
                  (lit "max_bytes", Station.Other "10485760"%string);
                  (lit "backup_count", Station.Other "5"%string)]);
   (lit "collection",
    Station.Dict [(lit "retry_delay", Station.Other "5"%string);
                  (lit "loop_delay", Station.Other "0.1"%string)])].

(** A file that names another port and nothing else. *)
Definition other_port : @Station.dict string :=
  [(lit "serial",
    Station.Dict [(lit "port", Station.Other "/dev/ttyACM0"%string)])].

(** The reading of the line [T:22.6 H:50.1 P:1011.9 WS:0.00] as the
    token parser returns it. *)
Definition station_reading : gmap str pyfloat :=
  <[lit "windspeed" := Fin false 0 (-2)]>
  (<[lit "pressure" := Fin false 10119 (-1)]>
  (<[lit "humidity" := Fin false 501 (-1)]>
  (<[lit "temperature" := Fin false 226 (-1)]> ∅))).

(** The daemon of [Sample.connected] 700 seconds after its start, with
    no reading received in between. *)
Definition silent : @Daemon.state pyfloat :=
  Daemon.upd_clock (fun _ => 700) Sample.connected.

(** The daemon of [Sample.connected] two seconds after its start, with
    one place left in its queue. *)
Definition busy : @Daemon.state pyfloat :=
  Daemon.upd_clock (fun _ => 2)
    (Sample.with_queue (mkQueue 1000 (replicate 999 (Sample.reading, 1)))
       Sample.connected).

(** The daemon of [Sample.connected] five seconds after its start, with
    the three readings of [Sample.three] in its queue. *)
Definition waiting : @Daemon.state pyfloat :=
  Daemon.upd_clock (fun _ => 5)
    (Sample.with_queue (mkQueue 1000 Sample.three) Sample.connected).

(** The delays of [DEFAULT_CONFIG], in tenths of a second. *)
Definition station_cfg : Station.settings := Station.mkSettings 50 1.

(** The port and the sink connect, the sink refuses every write and the
    port delivers the same line at every read. *)
Definition refusing : Station.world :=
  Station.mkWorld (fun _ => true)
                  (fun _ => Daemon.InfluxConnected)
                  (fun _ => false)
                  (fun _ => Daemon.Line (lit "T:22.6 H:50.1 P:1011.9 WS:0.00")).

(** The station daemon after a [start] at time 0 that succeeded. *)
Definition started : @Station.state pyfloat :=
  Station.mkState true (Some true) true true 0 1 1 0 0 [] [].

End Scenario.
(** * Properties *)

#[local] Set Warnings "-clear-no-such-hyp".

(** ** The bounded queue *)

Section QueueProperties.
Import Daemon.
Context {F : Type} `{PyFloat F}.

Lemma queue_data_effect (weather_data : gmap str F) (timestamp : option Z) (s : state) :
  within_capacity (data_queue s) ->
  exists s',
    queue_data weather_data timestamp s = Ret tt s'
    /\ maxsize (data_queue s') = maxsize (data_queue s)
    /\ items (data_queue s') =
         after_queue_data (data_queue s)
           (weather_data, default (clock s) timestamp)
    /\ clock s' = clock s /\ sink s' = sink s /\ influx_client s' = influx_client s
    /\ write_api s' = write_api s /\ write_calls s' = write_calls s.
Proof.
  intros Hcap. unfold within_capacity, qsize in Hcap.
  destruct s as [r sc ic wa src irc ldt lhb [mx its] ck c1 c2 c3 c4 sk tr].
  cbn in Hcap.
  unfold queue_data, after_queue_data, timestamp_or_now, bindM, now, ret, get, when.
  assert (Hput : forall l : list (@item F),
             Z.of_nat (length l) < mx \/ mx <= 0 ->
             (0 <? mx) && (mx <=? Z.of_nat (length l)) = false).
  { intros l Hl.
    destruct (0 <? mx) eqn:E1; [|done].
    destruct (mx <=? Z.of_nat (length l)) eqn:E2; [|done]. lia. }
  unfold q_get_nowait, q_put_nowait, log, emit, modify, bindM, get, ret,
    get_nowait, put_nowait, full, qsize.
  destruct timestamp as [t|]; cbn.
  all: destruct ((0 <? mx) && (mx <=? Z.of_nat (length its))) eqn:Hfull; cbn.
  all: try (apply andb_true_iff in Hfull as [Hpos%Z.ltb_lt Hle%Z.leb_le];
            destruct its as [|x rest]; [cbn in Hle; lia|];
            cbn [length] in Hcap; cbn; rewrite (Hput rest) by lia; cbn;
            eexists; split; [reflexivity|]; cbn; done).
  all: cbn; rewrite Hfull; cbn; eexists; split; [reflexivity|]; cbn; done.
Qed.

Lemma keep_last_app {A : Type} (n : nat) (a b : list A) :
  keep_last n (keep_last n a ++ b) = keep_last n (a ++ b).
Proof.
  unfold keep_last.
  destruct (decide (length a <= n)%nat) as [Hle|Hgt].
  - replace (length a - n)%nat with 0%nat by lia. reflexivity.
  - rewrite !length_app, length_drop.
    rewrite !skipn_app, length_drop, drop_drop.
    f_equal; f_equal; lia.
Qed.

Lemma after_queue_data_keep_last (n : nat) (q : pyqueue (@item F)) (x : @item F) :
  (0 < n)%nat -> maxsize q = Z.of_nat n -> within_capacity q ->
  after_queue_data q x = keep_last n (items q ++ [x]).
Proof.
  unfold within_capacity, after_queue_data, keep_last, full, qsize.
  destruct q as [mx its]. cbn. intros Hn -> Hcap.
  rewrite length_app. cbn.
  destruct (Z.ltb_spec 0 (Z.of_nat n)) as [E1|E1]; [|lia].
  destruct (Z.leb_spec (Z.of_nat n) (Z.of_nat (length its))) as [E2|E2]; cbn.
  - destruct its as [|y rest]; [cbn in E2; lia|].
    cbn [length] in *. replace (S (length rest) + 1 - n)%nat with 1%nat by lia.
    reflexivity.
  - replace (length its + 1 - n)%nat with 0%nat by lia. reflexivity.
Qed.

Lemma keep_last_length {A : Type} (n : nat) (l : list A) :
  (length (keep_last n l) <= n)%nat.
Proof. unfold keep_last. rewrite length_drop. lia. Qed.

Lemma queue_all_effect (n : nat) (xs : list (@item F)) (s : state) :
  (0 < n)%nat -> maxsize (data_queue s) = Z.of_nat n ->
  within_capacity (data_queue s) ->
  exists s',
    queue_all xs s = Ret tt s'
    /\ maxsize (data_queue s') = Z.of_nat n
    /\ items (data_queue s') = keep_last n (items (data_queue s) ++ xs).
Proof.
  intros Hn. revert s. induction xs as [|[wd ts] xs IH]; intros s Hmax Hcap.
  - exists s. split; [reflexivity|]. split; [done|].
    rewrite app_nil_r. unfold keep_last, within_capacity, qsize in *.
    replace (length (items (data_queue s)) - n)%nat with 0%nat by lia.
    reflexivity.
  - destruct (queue_data_effect wd (Some ts) s Hcap)
      as (s1 & Hrun & Hmax1 & Hitems1 & _).
    rewrite (after_queue_data_keep_last n) in Hitems1 by done.
    destruct (IH s1) as (s2 & Hrun2 & Hmax2 & Hitems2).
    { congruence. }
    { unfold within_capacity, qsize. rewrite Hitems1, Hmax1, Hmax.
      apply Nat2Z.inj_le, keep_last_length. }
    exists s2. split.
    { cbn. unfold bindM. rewrite Hrun. exact Hrun2. }
    split; [done|].
    rewrite Hitems2, Hitems1. cbn. rewrite keep_last_app.
    rewrite <- app_assoc. reflexivity.
Qed.

(** C1. With a queue of capacity N (N at least 1) that holds at most N
    elements: every call of [queue_data] returns, takes out exactly the
    oldest element when the queue is full and none otherwise, and puts
    the new pair last; after any run of calls the queue holds the last N
    of the old and new elements in their order, so never more than N;
    and N+1 calls on the empty queue leave elements 2 to N+1. *)
Theorem queue_never_exceeds_capacity (n : nat) (s : state) (xs : list (@item F)) :
  (0 < n)%nat ->
  maxsize (data_queue s) = Z.of_nat n ->
  within_capacity (data_queue s) ->
  (forall weather_data timestamp, exists s',
      queue_data weather_data timestamp s = Ret tt s'
      /\ items (data_queue s') =
           (if full (data_queue s) then tail (items (data_queue s))
            else items (data_queue s))
           ++ [(weather_data, default (clock s) timestamp)])
  /\ (exists s',
        queue_all xs s = Ret tt s'
        /\ items (data_queue s') = keep_last n (items (data_queue s) ++ xs)
        /\ (qsize (data_queue s') <= n)%nat)
  /\ (items (data_queue s) = [] -> length xs = S n ->
      exists s',
        queue_all xs s = Ret tt s'
        /\ items (data_queue s') = tail xs
        /\ qsize (data_queue s') = n).
Proof.
  intros Hn Hmax Hcap.
  destruct (queue_all_effect n xs s Hn Hmax Hcap) as (s' & Hrun & Hmax' & Hitems).
  split; [|split].
  - intros wd ts.
    destruct (queue_data_effect wd ts s Hcap) as (s1 & Hrun1 & _ & Hitems1 & _).
    exists s1. split; [done|]. exact Hitems1.
  - exists s'. split; [done|]. split; [done|].
    unfold qsize. rewrite Hitems. apply keep_last_length.
  - intros Hempty Hlen. exists s'. split; [done|].
    rewrite Hempty, app_nil_l in Hitems.
    assert (Htail : keep_last n xs = tail xs).
    { unfold keep_last. rewrite Hlen.
      replace (S n - n)%nat with 1%nat by lia. by destruct xs. }
    rewrite Htail in Hitems. split; [done|].
    unfold qsize. rewrite Hitems. destruct xs; cbn in *; lia.
Qed.

End QueueProperties.

(** ** The reconnection loops *)

Section ReconnectProperties.
Import Daemon.
Context {F : Type} `{PyFloat F}.
Variable cfg : config.
Variable w : world.

Local Arguments Nat.ltb : simpl never.

Lemma schedule_app (a b : list (@event F)) :
  schedule (a ++ b) = schedule a ++ schedule b.
Proof. unfold schedule. apply bind_app. Qed.

Lemma serial_attempt_effect (s : @state F) :
  exists s1,
    serial_attempt w s = Ret (serial_open w (serial_calls s)) s1
    /\ trace s1 = trace s ++ [EvSerialTry (serial_open w (serial_calls s))]
    /\ running s1 = running s
    /\ serial_calls s1 = S (serial_calls s)
    /\ data_queue s1 = data_queue s.
Proof.
  unfold serial_attempt, bindM, get, when, emit, modify, ret.
  destruct (serial_is_open s); cbn.
  all: destruct (serial_open w (serial_calls s)); cbn.
  all: eexists; split; [reflexivity|]; cbn; done.
Qed.

Lemma sleep_when_effect (b : bool) (d : Z) (s : @state F) :
  exists s1,
    when b (sleep d) s = Ret tt s1
    /\ trace s1 = trace s ++ (if b then [EvSleep d] else [])
    /\ running s1 = running s
    /\ serial_calls s1 = serial_calls s
    /\ influx_calls s1 = influx_calls s.
Proof.
  destruct b; cbn; eexists; (split; [reflexivity|]); cbn;
    rewrite ?app_nil_r; done.
Qed.

Lemma serial_failure_logged (e : exn) (r : nat) (s : @state F) :
  exists s1 l m,
    match e with
    | SerialException =>
        bindM (modify (upd_serial_retry_count (fun _ => S r)))
          (fun _ => log Warning
                      (MsgSerialAttemptFailed (S r) (max_serial_retries cfg)))
    | _ => log Error MsgSerialUnexpected
    end s = Ret tt s1
    /\ trace s1 = trace s ++ [EvLog l m]
    /\ running s1 = running s
    /\ serial_calls s1 = serial_calls s.
Proof.
  destruct e; cbn; eexists; eexists; eexists; (split; [reflexivity|]); done.
Qed.

Lemma connect_serial_loop_fails (k : nat) :
  (forall i, serial_open w i <> SerialOpened) ->
  forall (r fuel : nat) (s : @state F),
    (r + k = max_serial_retries cfg)%nat -> (k < fuel)%nat ->
    running s = true ->
    exists s' tr,
      connect_serial_loop cfg w fuel r s = Ret (Some false) s'
      /\ trace s' =
           trace s ++ tr ++ [EvLog Error (MsgSerialExhausted (max_serial_retries cfg))]
      /\ schedule tr = attempts_with_delay k (serial_retry_delay cfg)
      /\ serial_calls s' = (serial_calls s + k)%nat.
Proof.
  intros Hfail. induction k as [|k IH]; intros r fuel s Hr Hfuel Hrun.
  - destruct fuel as [|fuel]; [lia|]. cbn.
    unfold bindM, get. cbn.
    replace (r <? max_serial_retries cfg)%nat with false
      by (symmetry; apply Nat.ltb_ge; lia).
    cbn. eexists. exists []. split; [reflexivity|]. cbn.
    split; [done|]. split; [done|]. lia.
  - destruct fuel as [|fuel]; [lia|]. cbn [connect_serial_loop].
    unfold bindM at 1. unfold get at 1.
    replace (r <? max_serial_retries cfg)%nat with true
      by (symmetry; apply Nat.ltb_lt; lia).
    rewrite Hrun. cbn [andb].
    destruct (serial_attempt_effect s) as (s1 & Hatt & Htr1 & Hrun1 & Hcalls1 & _).
    unfold bindM at 1. rewrite Hatt.
    specialize (Hfail (serial_calls s)).
    assert (Hstep :
      exists s3 l m,
        bindM
          (when (S r <? max_serial_retries cfg)%nat (sleep (serial_retry_delay cfg)))
          (fun _ => connect_serial_loop cfg w fuel (S r)) s3
        = match serial_open w (serial_calls s) with
          | SerialOpened =>
              bindM (modify (upd_serial_retry_count (fun _ => 0%nat)))
                (fun _ => bindM (log Info MsgSerialConnected)
                            (fun _ => ret (Some true)))
          | SerialCtorRaises e | SerialFlushRaises e =>
              bindM
                match e with
                | SerialException =>
                    bindM (modify (upd_serial_retry_count (fun _ => S r)))
                      (fun _ => log Warning
                         (MsgSerialAttemptFailed (S r) (max_serial_retries cfg)))
                | _ => log Error MsgSerialUnexpected
                end
                (fun _ =>
                   bindM
                     (when (S r <? max_serial_retries cfg)%nat
                        (sleep (serial_retry_delay cfg)))
                     (fun _ => connect_serial_loop cfg w fuel (S r)))
          end s1
        /\ trace s3 = trace s1 ++ [EvLog l m]
        /\ running s3 = running s1
        /\ serial_calls s3 = serial_calls s1).
    { destruct (serial_open w (serial_calls s)) as [|e|e]; [done| |].
      all: destruct (serial_failure_logged e r s1) as (s2 & l & m & Hlog & Hrest).
      all: exists s2, l, m; split; [|exact Hrest].
      all: unfold bindM at 2; rewrite Hlog; reflexivity. }
    destruct Hstep as (s3 & l & m & <- & Htr3 & Hrun3 & Hcalls3).
    destruct (sleep_when_effect (S r <? max_serial_retries cfg)%nat
                (serial_retry_delay cfg) s3)
      as (s4 & Hsl & Htr4 & Hrun4 & Hcalls4 & _).
    unfold bindM at 1. rewrite Hsl.
    destruct (IH (S r) fuel s4) as (s' & tr & Hloop & Htr & Hsched & Hcalls);
      [lia | lia | congruence |].
    exists s'.
    exists ([EvSerialTry (serial_open w (serial_calls s)); EvLog l m]
            ++ (if (S r <? max_serial_retries cfg)%nat
                then [EvSleep (serial_retry_delay cfg)] else []) ++ tr).
    split; [exact Hloop|]. split; [|split].
    + rewrite Htr, Htr4, Htr3, Htr1. rewrite <- !app_assoc. reflexivity.
    + rewrite !schedule_app, Hsched. cbn.
      destruct k as [|k].
      * replace (S r <? max_serial_retries cfg)%nat with false
          by (symmetry; apply Nat.ltb_ge; lia). reflexivity.
      * replace (S r <? max_serial_retries cfg)%nat with true
          by (symmetry; apply Nat.ltb_lt; lia). reflexivity.
    + lia.
Qed.

Lemma influx_attempt_effect (s : @state F) :
  exists s1,
    influx_attempt w s = Ret (influx_open w (influx_calls s)) s1
    /\ trace s1 = trace s ++ [EvInfluxTry (influx_open w (influx_calls s))]
    /\ running s1 = running s
    /\ influx_calls s1 = S (influx_calls s)
    /\ data_queue s1 = data_queue s.
Proof.
  unfold influx_attempt, bindM, get, emit, modify, ret. cbn.
  destruct (influx_open w (influx_calls s)); cbn.
  all: eexists; split; [reflexivity|]; cbn; done.
Qed.

Lemma connect_influxdb_loop_fails (k : nat) :
  (forall i, influx_open w i <> InfluxConnected) ->
  forall (r fuel : nat) (s : @state F),
    (r + k = max_influx_retries cfg)%nat -> (k < fuel)%nat ->
    running s = true ->
    exists s' tr,
      connect_influxdb_loop cfg w fuel r s = Ret (Some false) s'
      /\ trace s' =
           trace s ++ tr ++ [EvLog Error (MsgInfluxExhausted (max_influx_retries cfg))]
      /\ schedule tr = attempts_with_delay k (influx_retry_delay cfg)
      /\ influx_calls s' = (influx_calls s + k)%nat.
Proof.
  intros Hfail. induction k as [|k IH]; intros r fuel s Hr Hfuel Hrun.
  - destruct fuel as [|fuel]; [lia|]. cbn.
    unfold bindM, get. cbn.
    replace (r <? max_influx_retries cfg)%nat with false
      by (symmetry; apply Nat.ltb_ge; lia).
    cbn. eexists. exists []. split; [reflexivity|]. cbn.
    split; [done|]. split; [done|]. lia.
  - destruct fuel as [|fuel]; [lia|]. cbn [connect_influxdb_loop].
    unfold bindM at 1. unfold get at 1.
    replace (r <? max_influx_retries cfg)%nat with true
      by (symmetry; apply Nat.ltb_lt; lia).
    rewrite Hrun. cbn [andb].
    destruct (influx_attempt_effect s) as (s1 & Hatt & Htr1 & Hrun1 & Hcalls1 & _).
    unfold bindM at 1. rewrite Hatt.
    specialize (Hfail (influx_calls s)).
    set (logged := upd_trace
           (fun t => t ++ [EvLog Warning
              (MsgInfluxAttemptFailed (S r) (max_influx_retries cfg))])
           (upd_influx_retry_count (fun _ => S r) s1)).
    destruct (sleep_when_effect (S r <? max_influx_retries cfg)%nat
                (influx_retry_delay cfg) logged)
      as (s4 & Hsl & Htr4 & Hrun4 & _ & Hcalls4).
    destruct (IH (S r) fuel s4) as (s' & tr & Hloop & Htr & Hsched & Hcalls);
      [lia | lia | rewrite Hrun4; cbn; congruence |].
    exists s'.
    exists ([EvInfluxTry (influx_open w (influx_calls s));
             EvLog Warning (MsgInfluxAttemptFailed (S r) (max_influx_retries cfg))]
            ++ (if (S r <? max_influx_retries cfg)%nat
                then [EvSleep (influx_retry_delay cfg)] else []) ++ tr).
    split; [|split; [|split]].
    + destruct (influx_open w (influx_calls s)); [done| |].
      all: unfold bindM, modify, log, emit; cbn; fold logged.
      all: unfold bindM in Hsl; rewrite Hsl; exact Hloop.
    + rewrite Htr, Htr4. subst logged. cbn. rewrite Htr1.
      rewrite <- !app_assoc. reflexivity.
    + rewrite !schedule_app, Hsched. cbn.
      destruct k as [|k].
      * replace (S r <? max_influx_retries cfg)%nat with false
          by (symmetry; apply Nat.ltb_ge; lia). reflexivity.
      * replace (S r <? max_influx_retries cfg)%nat with true
          by (symmetry; apply Nat.ltb_lt; lia). reflexivity.
    + rewrite Hcalls, Hcalls4. subst logged. cbn. lia.
Qed.

(** C6. While the daemon is running and every connection attempt fails,
    [connect_serial] and [connect_influxdb] each make exactly as many
    attempts as their [max_..._retries] says, pause for their
    [..._retry_delay] between two attempts and nowhere else, log the
    final error and return [False] to the caller: the process is not
    ended. *)
Theorem reconnect_exhausts_after_max_attempts (s : @state F) :
  running s = true ->
  (forall i, serial_open w i <> SerialOpened) ->
  (forall i, influx_open w i <> InfluxConnected) ->
  (exists s' tr,
     connect_serial cfg w s = Ret (Some false) s'
     /\ trace s' =
          trace s ++ tr ++ [EvLog Error (MsgSerialExhausted (max_serial_retries cfg))]
     /\ schedule tr =
          attempts_with_delay (max_serial_retries cfg) (serial_retry_delay cfg)
     /\ serial_calls s' = (serial_calls s + max_serial_retries cfg)%nat)
  /\ (exists s' tr,
     connect_influxdb cfg w s = Ret (Some false) s'
     /\ trace s' =
          trace s ++ tr ++ [EvLog Error (MsgInfluxExhausted (max_influx_retries cfg))]
     /\ schedule tr =
          attempts_with_delay (max_influx_retries cfg) (influx_retry_delay cfg)
     /\ influx_calls s' = (influx_calls s + max_influx_retries cfg)%nat).
Proof.
  intros Hrun Hs Hi. split.
  - apply (connect_serial_loop_fails _ Hs 0%nat); [lia | lia | done].
  - apply (connect_influxdb_loop_fails _ Hi 0%nat); [lia | lia | done].
Qed.

End ReconnectProperties.

(** ** The watchdog *)

Section WatchdogProperties.
Import Daemon.
Context {F : Type} `{PyFloat F}.
Variable cfg : config.
Variable w : world.

Local Arguments Nat.ltb : simpl never.

Lemma count_events_app (p : @event F -> bool) (a b : list (@event F)) :
  count_events p (a ++ b) = (count_events p a + count_events p b)%nat.
Proof. unfold count_events. rewrite List.filter_app, length_app. done. Qed.

(** [connect_serial] always returns, whatever the port does, and its
    events end with exactly one closing entry. *)
Lemma connect_serial_loop_total (k : nat) :
  forall (r fuel : nat) (s : @state F),
    (r + k = max_serial_retries cfg)%nat -> (k < fuel)%nat ->
    exists b s' tr,
      connect_serial_loop cfg w fuel r s = Ret (Some b) s'
      /\ trace s' = trace s ++ tr
      /\ count_events is_reconnect_trigger tr = 0%nat
      /\ count_events is_reconnect_end tr = 1%nat
      /\ last_data_time s' = last_data_time s
      /\ last_heartbeat s' = last_heartbeat s
      /\ data_queue s' = data_queue s
      /\ sink s' = sink s.
Proof.
  induction k as [|k IH]; intros r fuel s Hr Hfuel.
  - destruct fuel as [|fuel]; [lia|]. cbn.
    unfold bindM, get. cbn.
    replace (r <? max_serial_retries cfg)%nat with false
      by (symmetry; apply Nat.ltb_ge; lia).
    cbn. eexists. eexists. eexists. split; [reflexivity|]. cbn. done.
  - destruct fuel as [|fuel]; [lia|]. cbn [connect_serial_loop].
    unfold bindM at 1. unfold get at 1.
    destruct ((r <? max_serial_retries cfg)%nat && running s); cycle 1.
    { cbn. eexists. eexists. eexists. split; [reflexivity|]. cbn. done. }
    unfold serial_attempt, bindM, get, when, emit, log, emit, modify, ret, sleep.
    destruct (serial_is_open s); cbn.
    all: destruct (serial_open w (serial_calls s)) as [|e|e]; cbn.
    all: try (eexists; eexists; eexists; split; [reflexivity|]; cbn;
              rewrite <- ?app_assoc; split; [reflexivity|]; cbn; done).
    all: destruct e; cbn.
    all: destruct (S r <? max_serial_retries cfg)%nat; cbn.
    all: match goal with
         | |- context [connect_serial_loop _ _ ?f ?r1 ?s1] =>
             destruct (IH r1 f s1)
               as (b & s' & tr & -> & Htr & Ht & He & Hd & Hh & Hq & Hs);
               [lia | lia |]
         end.
    all: cbn in Htr, Hd, Hh, Hq, Hs.
    all: eexists; eexists; eexists; split; [reflexivity|].
    all: rewrite Htr, <- ?app_assoc.
    all: split; [reflexivity|].
    all: rewrite ?count_events_app, Ht, He; cbn; done.
Qed.

Lemma connect_serial_total (s : @state F) :
  exists b s' tr,
    connect_serial cfg w s = Ret (Some b) s'
    /\ trace s' = trace s ++ tr
    /\ count_events is_reconnect_trigger tr = 0%nat
    /\ count_events is_reconnect_end tr = 1%nat
    /\ last_data_time s' = last_data_time s
    /\ last_heartbeat s' = last_heartbeat s
    /\ data_queue s' = data_queue s
    /\ sink s' = sink s.
Proof.
  apply (connect_serial_loop_total (max_serial_retries cfg)); lia.
Qed.

(** When every attempt fails in the constructor, [connect_serial] ends
    with the port closed, provided it made an attempt or the port was
    closed before. *)
Lemma connect_serial_loop_closed (k : nat) :
  (forall i, exists e, serial_open w i = SerialCtorRaises e) ->
  forall (r fuel : nat) (s : @state F),
    (r + k = max_serial_retries cfg)%nat -> (k < fuel)%nat ->
    running s = true ->
    serial_is_open s = false \/ (0 < k)%nat ->
    exists s',
      connect_serial_loop cfg w fuel r s = Ret (Some false) s'
      /\ serial_is_open s' = false.
Proof.
  intros Hfail. induction k as [|k IH]; intros r fuel s Hr Hfuel Hrun Hclosed.
  - destruct fuel as [|fuel]; [lia|]. cbn.
    unfold bindM, get. cbn.
    replace (r <? max_serial_retries cfg)%nat with false
      by (symmetry; apply Nat.ltb_ge; lia).
    cbn. eexists. split; [reflexivity|]. cbn.
    destruct Hclosed as [Hc|Hk]; [exact Hc|lia].
  - destruct fuel as [|fuel]; [lia|]. cbn [connect_serial_loop].
    unfold bindM at 1. unfold get at 1.
    replace (r <? max_serial_retries cfg)%nat with true
      by (symmetry; apply Nat.ltb_lt; lia).
    rewrite Hrun. cbn [andb].
    destruct (Hfail (serial_calls s)) as [e He].
    unfold serial_attempt, bindM, get, when, emit, log, emit, modify, ret, sleep.
    destruct (serial_is_open s) eqn:Hopen; cbn; rewrite He; cbn.
    all: destruct e; cbn.
    all: destruct (S r <? max_serial_retries cfg)%nat; cbn.
    all: match goal with
         | |- context [connect_serial_loop _ _ ?f ?r1 ?s1] =>
             destruct (IH r1 f s1) as (s' & -> & Hs');
               [lia | lia | exact Hrun | left | ]
         end.
    all: try (eexists; split; [reflexivity|exact Hs']).
    all: unfold serial_is_open in *; cbn; try done.
Qed.

Lemma watchdog_rest_effect (now_ : Z) (s : @state F) :
  exists tr,
    trace (final (watchdog_rest cfg now_ s)) = trace s ++ tr
    /\ count_events is_reconnect_trigger tr = 0%nat
    /\ count_events is_reconnect_end tr = 0%nat
    /\ count_events is_serial_try tr = 0%nat
    /\ last_data_time (final (watchdog_rest cfg now_ s)) = last_data_time s
    /\ serial_connection (final (watchdog_rest cfg now_ s)) = serial_connection s.
Proof.
  unfold watchdog_rest, bindM, get, when, log, emit, modify, sleep, os_exit, ret.
  cbn.
  destruct (watchdog_timeout cfg <? now_ - last_heartbeat s); cbn.
  1: destruct (restart_on_hang cfg); cbn.
  all: try destruct (0 <? qsize (data_queue s))%nat; cbn.
  all: rewrite <- ?app_assoc; eexists; split; [reflexivity|]; cbn; done.
Qed.

Lemma watchdog_cycle_unfold (s : @state F) :
  watchdog_cycle cfg w s =
  bindM
    (when (data_timeout cfg <? clock s - last_data_time s)
       (bindM (log Warning (MsgNoData (data_timeout cfg))) (fun _ =>
        bindM get (fun s1 =>
          when (serial_is_open s1)
            (bindM (log Info MsgReconnectSerial) (fun _ =>
             bindM (connect_serial cfg w) (fun _ => ret tt)))))))
    (fun _ => watchdog_rest cfg (clock s)) s.
Proof. reflexivity. Qed.

End WatchdogProperties.

(** ** Sending and queueing a reading *)

Section DeliveryProperties.
Import Daemon.
Context {F : Type} `{PyFloat F}.
Variable cfg : config.
Variable w : world.

Local Arguments Nat.ltb : simpl never.
Local Arguments Nat.leb : simpl never.

(** [send_to_influxdb] returns; when it answers [True] the sink has
    taken one point made of the reading and of the timestamp given, or
    of the clock when none is given; otherwise the sink is as before. *)
Lemma send_to_influxdb_effect (weather_data : gmap str F) (timestamp : option Z)
    (s : @state F) :
  exists ok s',
    send_to_influxdb w weather_data timestamp s = Ret ok s'
    /\ data_queue s' = data_queue s
    /\ clock s' = clock s
    /\ write_api s' = write_api s
    /\ influx_client s' = influx_client s
    /\ (ok = true ->
        exists p,
          make_point weather_data (default (clock s) timestamp) = Some p
          /\ sink s' = sink s ++ [p])
    /\ (ok = false -> sink s' = sink s).
Proof.
  unfold send_to_influxdb, timestamp_or_now, bindM, get, now, ret, log, emit, modify.
  destruct timestamp as [t|]; cbn.
  all: match goal with
       | |- context [make_point ?a ?b] => destruct (make_point a b) as [p|] eqn:Hp
       end; cbn.
  all: destruct (write_api s) eqn:Hw; cbn.
  all: try destruct (influx_write w (write_calls s)); cbn.
  all: eexists; eexists; split; [reflexivity|]; cbn.
  all: repeat split; try done.
  all: try intros _; try (exists p; done); eauto.
Qed.

Lemma connect_influxdb_loop_total (k : nat) :
  forall (r fuel : nat) (s : @state F),
    (r + k = max_influx_retries cfg)%nat -> (k < fuel)%nat ->
    exists b s',
      connect_influxdb_loop cfg w fuel r s = Ret (Some b) s'
      /\ data_queue s' = data_queue s
      /\ sink s' = sink s
      /\ serial_connection s' = serial_connection s
      /\ read_calls s' = read_calls s.
Proof.
  induction k as [|k IH]; intros r fuel s Hr Hfuel.
  - destruct fuel as [|fuel]; [lia|]. cbn.
    unfold bindM, get. cbn.
    replace (r <? max_influx_retries cfg)%nat with false
      by (symmetry; apply Nat.ltb_ge; lia).
    cbn. eexists. eexists. split; [reflexivity|]. cbn. done.
  - destruct fuel as [|fuel]; [lia|]. cbn [connect_influxdb_loop].
    unfold bindM at 1. unfold get at 1.
    destruct ((r <? max_influx_retries cfg)%nat && running s); cycle 1.
    { cbn. eexists. eexists. split; [reflexivity|]. cbn. done. }
    unfold influx_attempt, bindM, get, when, emit, log, emit, modify, ret, sleep.
    cbn.
    destruct (influx_open w (influx_calls s)); cbn.
    all: try (eexists; eexists; split; [reflexivity|]; cbn; done).
    all: destruct (S r <? max_influx_retries cfg)%nat; cbn.
    all: match goal with
         | |- context [connect_influxdb_loop _ _ ?f ?r1 ?s1] =>
             destruct (IH r1 f s1) as (b & s' & -> & Hq & Hs & Hc & Hr');
               [lia | lia |]
         end.
    all: cbn in Hq, Hs, Hc, Hr'.
    all: eexists; eexists; split; [reflexivity|]; done.
Qed.

Lemma connect_influxdb_total (s : @state F) :
  exists b s',
    connect_influxdb cfg w s = Ret (Some b) s'
    /\ data_queue s' = data_queue s
    /\ sink s' = sink s
    /\ serial_connection s' = serial_connection s
    /\ read_calls s' = read_calls s.
Proof.
  apply (connect_influxdb_loop_total (max_influx_retries cfg)); lia.
Qed.

(** A line that parses is used up by [handle_line]: either the sink takes
    its point, made with the clock of that moment, and the queue is left
    alone, or the reading is put last in the queue with that clock. *)
Lemma handle_line_delivers (line : str) (consecutive_errors : nat)
    (weather_data : gmap str F) (s : @state F) :
  parse_weather_data line = Ok (Some weather_data) ->
  weather_data <> ∅ ->
  within_capacity (data_queue s) ->
  exists r s',
    handle_line w line consecutive_errors s = Ret (Ok r) s'
    /\ ((exists p,
           make_point weather_data (clock s) = Some p
           /\ sink s' = sink s ++ [p]
           /\ data_queue s' = data_queue s
           /\ influx_client s' = true)
        \/ (sink s' = sink s
            /\ maxsize (data_queue s') = maxsize (data_queue s)
            /\ items (data_queue s') =
                 after_queue_data (data_queue s) (weather_data, clock s))).
Proof.
  intros Hparse Hne Hcap.
  unfold handle_line. rewrite Hparse.
  destruct (decide (weather_data = ∅)) as [|_]; [done|].
  unfold bindM at 1. cbn [log emit modify].
  unfold bindM at 1. unfold now at 1.
  unfold bindM at 1. cbn [modify].
  unfold bindM at 1. cbn [log emit modify].
  unfold bindM at 1. unfold get at 1.
  set (s1 := upd_trace _ (upd_last_data_time _ (upd_trace _ s))).
  change (influx_client s1) with (influx_client s).
  assert (Hs1 : within_capacity (data_queue s1)) by exact Hcap.
  destruct (influx_client s) eqn:Hic.
  - destruct (send_to_influxdb_effect weather_data None s1)
      as (ok & s2 & Hsend & Hq2 & Hck2 & _ & Hic2 & Hok & Hko).
    unfold bindM at 1. rewrite Hsend.
    destruct ok.
    + destruct (Hok eq_refl) as (p & Hp & Hsink).
      eexists. eexists. split; [reflexivity|]. left. exists p.
      rewrite Hic2. done.
    + specialize (Hko eq_refl).
      unfold bindM at 1. cbn [log emit modify].
      set (s3 := upd_trace _ s2).
      destruct (queue_data_effect weather_data None s3)
        as (s4 & Hqd & Hmax4 & Hit4 & _ & Hsink4 & _).
      { unfold within_capacity. subst s3. cbn. rewrite Hq2. exact Hs1. }
      unfold bindM at 1. rewrite Hqd.
      eexists. eexists. split; [reflexivity|]. right.
      subst s3. cbn in *. rewrite Hsink4, Hko, Hmax4, Hit4, Hq2, Hck2. done.
  - unfold bindM at 1. cbn [ret].
    unfold bindM at 1. cbn [log emit modify].
    set (s3 := upd_trace _ s1).
    destruct (queue_data_effect weather_data None s3)
      as (s4 & Hqd & Hmax4 & Hit4 & _ & Hsink4 & _).
    { exact Hcap. }
    unfold bindM at 1. rewrite Hqd.
    eexists. eexists. split; [reflexivity|]. right.
    subst s3 s1. cbn in *. rewrite Hsink4, Hmax4, Hit4. done.
Qed.

Lemma parse_empty_line : @parse_weather_data F _ [] = Ok None.
Proof. reflexivity. Qed.

Lemma parse_result_nonempty (line : str) (weather_data : gmap str F) :
  parse_weather_data line = Ok (Some weather_data) -> weather_data <> ∅.
Proof.
  unfold parse_weather_data.
  destruct (Regex.search pattern line) as [g|]; [|done].
  destruct (float_group g 1); [|done].
  destruct (float_group g 2); [|done].
  destruct (float_group g 3); [|done].
  destruct (float_group g 4); [|done].
  cbn. intros [= <-]. apply insert_non_empty.
Qed.

Lemma run_rest_ok_keeps (n0 n : nat) (s : @state F) :
  sink (final (run_rest cfg n0 (Ok n) s)) = sink s
  /\ data_queue (final (run_rest cfg n0 (Ok n) s)) = data_queue s
  /\ influx_client (final (run_rest cfg n0 (Ok n) s)) = influx_client s.
Proof.
  unfold run_rest, bindM, log, emit, modify, sleep, os_exit, ret. cbn.
  destruct (max_consecutive_errors <=? n)%nat; cbn; [|done].
  destruct (restart_on_hang cfg); cbn; done.
Qed.

(** A turn of the main loop taken on its own, with no other thread
    at the queue in between: when the port is open, a line is read and
    the line parses to a reading, the turn ends with the reading either
    taken by the sink as one new point, the queue untouched, or put last
    in the queue with the sink untouched; the first only with a sink
    client, so without one the reading is queued. *)
Theorem parsed_reading_written_or_queued (consecutive_errors : nat)
    (text : str) (weather_data : gmap str F) (s : @state F) :
  serial_is_open s = true ->
  within_capacity (data_queue s) ->
  serial_read w (read_calls s) = Line text ->
  parse_weather_data (strip text) = Ok (Some weather_data) ->
  let s' := final (run_iteration cfg w consecutive_errors s) in
  (exists t p,
      make_point weather_data t = Some p
      /\ sink s' = sink s ++ [p]
      /\ data_queue s' = data_queue s
      /\ influx_client s' = true)
  \/ (exists t,
      sink s' = sink s
      /\ maxsize (data_queue s') = maxsize (data_queue s)
      /\ items (data_queue s') = after_queue_data (data_queue s) (weather_data, t)
      /\ last (items (data_queue s')) = Some (weather_data, t)).
Proof.
  intros Hopen Hcap Hread Hparse. cbn zeta.
  pose proof (parse_result_nonempty _ _ Hparse) as Hne.
  assert (Hline : strip text <> []).
  { intros E. rewrite E, parse_empty_line in Hparse. discriminate Hparse. }
  set (s0 := upd_last_heartbeat (fun _ => clock s) s).
  assert (Hinflux : exists s1,
             bindM
               (when (negb (influx_client s0))
                  (bindM (log Info MsgInfluxReconnect) (fun _ =>
                   bindM (connect_influxdb cfg w) (fun _ => ret tt))))
               (fun _ => ret tt) s0 = Ret tt s1
             /\ data_queue s1 = data_queue s /\ sink s1 = sink s
             /\ serial_connection s1 = serial_connection s
             /\ read_calls s1 = read_calls s).
  { destruct (influx_client s0); cbn [negb when].
    - exists s0. done.
    - unfold bindM at 1. unfold bindM at 1. cbn [log emit modify].
      set (s0' := upd_trace _ s0).
      destruct (connect_influxdb_total s0') as (b & s1 & Hc & Hrest).
      unfold bindM at 1. rewrite Hc. exists s1. split; [reflexivity|].
      exact Hrest. }
  destruct Hinflux as (s1 & Hinf & Hq1 & Hsk1 & Hsc1 & Hrc1).
  set (s2 := upd_read_calls S s1).
  destruct (handle_line_delivers (strip text) consecutive_errors weather_data s2)
    as (r & s3 & Hhl & Hdel); [done | done | |].
  { unfold within_capacity. subst s2. cbn. rewrite Hq1. exact Hcap. }
  assert (Hrun : run_iteration cfg w consecutive_errors s
                 = run_rest cfg consecutive_errors (Ok r) s3).
  { unfold run_iteration.
    unfold bindM at 1. unfold now at 1.
    unfold bindM at 1. cbn [modify]. fold s0.
    unfold bindM at 1. unfold get at 1.
    change (serial_is_open s0) with (serial_is_open s). rewrite Hopen.
    unfold bindM at 1. cbn [ret negb].
    unfold bindM at 1. unfold get at 1.
    unfold bindM at 1.
    unfold bindM in Hinf at 1.
    destruct (when (negb (influx_client s0)) _ s0) as [[] s1'|] eqn:Hw; [|done].
    cbn in Hinf. injection Hinf as ->.
    unfold bindM at 1. unfold get at 1.
    assert (Hopen1 : serial_is_open s1 = true).
    { unfold serial_is_open in *. rewrite Hsc1. exact Hopen. }
    rewrite Hopen1.
    unfold bindM at 1. unfold read_serial.
    unfold bindM at 1. unfold get at 1.
    rewrite Hrc1, Hread.
    unfold bindM at 1. cbn [modify]. fold s2.
    destruct (decide (strip text = [])) as [|_]; [done|].
    unfold bindM at 1. rewrite Hhl. reflexivity. }
  rewrite Hrun.
  destruct (run_rest_ok_keeps consecutive_errors r s3) as (-> & -> & ->).
  destruct Hdel as [(p & Hp & Hsink & Hq & Hic)|(Hsink & Hmax & Hit)].
  - left. exists (clock s2), p. subst s2. cbn in *.
    rewrite Hsink, Hq, Hsk1, Hq1. done.
  - right. exists (clock s2). subst s2. cbn in *.
    rewrite Hsink, Hmax, Hit, Hsk1, Hq1. split; [done|]. split; [done|].
    split; [done|]. unfold after_queue_data. apply last_snoc.
Qed.

End DeliveryProperties.

(** ** The sender thread and the final drain *)

Section SenderProperties.
Import Daemon.
Context {F : Type} `{PyFloat F}.
Variable cfg : config.
Variable w : world.

Local Arguments Nat.ltb : simpl never.
Local Arguments Nat.leb : simpl never.

Lemma q_get_nowait_cons (x : @item F) (rest : list (@item F)) (s : @state F) :
  items (data_queue s) = x :: rest ->
  q_get_nowait s =
  Ret (Ok x) (upd_data_queue (fun _ => mkQueue (maxsize (data_queue s)) rest) s).
Proof.
  intros Hit. unfold q_get_nowait, bindM, get, get_nowait, modify, ret.
  rewrite Hit. reflexivity.
Qed.

(** The batch loop takes the [n] oldest pairs; each is sent with its own
    timestamp; the ones refused are collected in their order. *)
Lemma sender_batch_effect (n : nat) :
  forall (s : @state F) (sent_count : nat) (failed_items : list (@item F)),
    (n <= qsize (data_queue s))%nat ->
    exists oks pts s1,
      length oks = n
      /\ sender_batch w n sent_count failed_items s =
           Ret ((sent_count + length pts)%nat,
                failed_items ++ select false oks (take n (items (data_queue s)))) s1
      /\ items (data_queue s1) = drop n (items (data_queue s))
      /\ maxsize (data_queue s1) = maxsize (data_queue s)
      /\ sink s1 = sink s ++ pts
      /\ Forall2 point_of (select true oks (take n (items (data_queue s)))) pts.
Proof.
  induction n as [|n IH]; intros s sent failed Hn.
  - exists [], [], s. cbn. rewrite Nat.add_0_r, !app_nil_r, drop_0.
    repeat split; constructor.
  - unfold qsize in Hn.
    destruct (items (data_queue s)) as [|[wd ts] rest] eqn:Hit; [cbn in Hn; lia|].
    cbn [sender_batch]. unfold bindM at 1.
    rewrite (q_get_nowait_cons _ _ _ Hit).
    set (s1 := upd_data_queue _ s).
    destruct (send_to_influxdb_effect w wd (Some ts) s1)
      as (ok & s2 & Hsend & Hq2 & _ & _ & _ & Hok & Hko).
    unfold bindM at 1. rewrite Hsend.
    assert (Hit2 : items (data_queue s2) = rest) by (rewrite Hq2; done).
    assert (Hmax2 : maxsize (data_queue s2) = maxsize (data_queue s))
      by (rewrite Hq2; done).
    destruct ok.
    + destruct (Hok eq_refl) as (p & Hp & Hsink2).
      destruct (IH s2 (S sent) failed)
        as (oks & pts & s3 & Hlen & Hrun & Hit3 & Hmax3 & Hsink3 & Hpts).
      { unfold qsize. rewrite Hit2. cbn in Hn. lia. }
      exists (true :: oks), (p :: pts), s3. cbn.
      rewrite Hit2 in Hrun, Hit3, Hpts.
      split; [by rewrite Hlen|].
      split. { rewrite Hrun. do 2 f_equal. lia. }
      split; [done|]. split; [congruence|].
      split. { rewrite Hsink3, Hsink2. subst s1. cbn. by rewrite <- app_assoc. }
      constructor; [exact Hp | exact Hpts].
    + specialize (Hko eq_refl).
      destruct (IH s2 sent (failed ++ [(wd, ts)]))
        as (oks & pts & s3 & Hlen & Hrun & Hit3 & Hmax3 & Hsink3 & Hpts).
      { unfold qsize. rewrite Hit2. cbn in Hn. lia. }
      exists (false :: oks), pts, s3. cbn.
      rewrite Hit2 in Hrun, Hit3, Hpts.
      split; [by rewrite Hlen|].
      split. { rewrite Hrun. by rewrite <- app_assoc. }
      split; [done|]. split; [congruence|].
      split. { rewrite Hsink3, Hko. done. }
      exact Hpts.
Qed.

(** One [put_nowait] of the sender: the element is added when there is
    room and left out, with a warning, when the queue is full. *)
Lemma sender_requeue_one (x : @item F) (s : @state F) :
  exists s',
    sender_requeue [x] s = Ret tt s'
    /\ maxsize (data_queue s') = maxsize (data_queue s)
    /\ items (data_queue s') = after_put_nowait (data_queue s) x
    /\ sink s' = sink s
    /\ trace s' =
         trace s ++ (if full (data_queue s)
                     then [EvLog Warning MsgRequeueFullDrop] else []).
Proof.
  unfold after_put_nowait.
  cbn. unfold bindM, q_put_nowait, bindM, get, put_nowait, log, emit, modify, ret.
  destruct (full (data_queue s)); cbn.
  all: eexists; split; [reflexivity|]; cbn; rewrite ?app_nil_r; done.
Qed.

Lemma sender_requeue_room (xs : list (@item F)) :
  forall s : @state F,
    Z.of_nat (qsize (data_queue s) + length xs) <= maxsize (data_queue s) ->
    exists s',
      sender_requeue xs s = Ret tt s'
      /\ maxsize (data_queue s') = maxsize (data_queue s)
      /\ items (data_queue s') = items (data_queue s) ++ xs
      /\ sink s' = sink s.
Proof.
  induction xs as [|x xs IH]; intros s Hroom.
  - exists s. cbn. rewrite app_nil_r. done.
  - cbn [sender_requeue].
    unfold bindM at 1. unfold q_put_nowait, bindM at 1, get at 1, put_nowait.
    assert (Hfull : full (data_queue s) = false).
    { unfold full. cbn [length] in Hroom.
      destruct (Z.ltb_spec 0 (maxsize (data_queue s))); [|done].
      destruct (Z.leb_spec (maxsize (data_queue s))
                  (Z.of_nat (qsize (data_queue s)))); [lia|done]. }
    rewrite Hfull. unfold bindM at 1. cbn [modify].
    set (s1 := upd_data_queue _ s).
    unfold bindM at 1. cbn [ret].
    destruct (IH s1) as (s' & Hrun & Hmax & Hit & Hsink).
    { subst s1. unfold qsize in *. cbn. rewrite length_app. cbn in *. lia. }
    exists s'. split; [exact Hrun|]. subst s1. cbn in *.
    rewrite Hit, <- app_assoc. done.
Qed.

Lemma make_point_time (weather_data : gmap str F) (t : Z) (p : @point F) :
  make_point weather_data t = Some p -> time p = t.
Proof.
  unfold make_point. intros Hp.
  destruct (weather_data !! lit "temperature"); [|done].
  destruct (weather_data !! lit "humidity"); [|done].
  destruct (weather_data !! lit "pressure"); [|done].
  destruct (weather_data !! lit "wind_speed"); [|done].
  cbn in Hp. by injection Hp as <-.
Qed.

Lemma cleanup_batch_effect (n : nat) :
  forall s : @state F,
    (n <= qsize (data_queue s))%nat ->
    exists oks pts s1,
      length oks = n
      /\ cleanup_batch w n s = Ret tt s1
      /\ items (data_queue s1) = drop n (items (data_queue s))
      /\ sink s1 = sink s ++ pts
      /\ Forall2 point_of (select true oks (take n (items (data_queue s)))) pts.
Proof.
  induction n as [|n IH]; intros s Hn.
  - exists [], [], s. cbn. rewrite app_nil_r, drop_0. repeat split; constructor.
  - unfold qsize in Hn.
    destruct (items (data_queue s)) as [|[wd ts] rest] eqn:Hit; [cbn in Hn; lia|].
    cbn [cleanup_batch]. unfold bindM at 1.
    rewrite (q_get_nowait_cons _ _ _ Hit).
    set (s1 := upd_data_queue _ s).
    destruct (send_to_influxdb_effect w wd (Some ts) s1)
      as (ok & s2 & Hsend & Hq2 & _ & _ & _ & Hok & Hko).
    unfold bindM at 1. rewrite Hsend.
    assert (Hit2 : items (data_queue s2) = rest) by (rewrite Hq2; done).
    destruct (IH s2) as (oks & pts & s3 & Hlen & Hrun & Hit3 & Hsink3 & Hpts).
    { unfold qsize. rewrite Hit2. cbn in Hn. lia. }
    rewrite Hit2 in Hit3, Hpts.
    destruct ok.
    + destruct (Hok eq_refl) as (p & Hp & Hsink2).
      exists (true :: oks), (p :: pts), s3. cbn.
      split; [by rewrite Hlen|]. split; [done|]. split; [done|].
      split. { rewrite Hsink3, Hsink2. subst s1. cbn. by rewrite <- app_assoc. }
      constructor; [exact Hp | exact Hpts].
    + specialize (Hko eq_refl).
      exists (false :: oks), pts, s3. cbn.
      split; [by rewrite Hlen|]. split; [done|]. split; [done|].
      split. { rewrite Hsink3, Hko. done. }
      exact Hpts.
Qed.

Lemma point_of_time (xs : list (@item F)) (pts : list (@point F)) :
  Forall2 point_of xs pts -> Forall2 (fun x p => time p = snd x) xs pts.
Proof.
  induction 1 as [|x p xs pts Hp _ IH]; constructor; [|exact IH].
  exact (make_point_time _ _ _ Hp).
Qed.

End SenderProperties.

(** ** The regular-expression matcher *)

Section RegexProperties.
Import Regex RegexSpec.

Lemma star_sound (step : str -> groups -> list (str * groups)) (a : re) :
  (forall s g s' g', (s', g') ∈ step s g ->
     exists u, s = u ++ s' /\ matches a u g g') ->
  forall n s g s' g', (s', g') ∈ star step n s g ->
    exists u, s = u ++ s' /\ matches (Star a) u g g'.
Proof.
  intros Hstep. induction n as [|n IH]; intros s g s' g' Hin.
  - cbn in Hin. apply list_elem_of_singleton in Hin as [= -> ->].
    exists []. split; [done|]. constructor.
  - cbn in Hin. apply elem_of_app in Hin as [Hin|Hin].
    + apply list_elem_of_bind in Hin as ([s1 g1] & Hin & Hin1).
      destruct (decide (length s1 < length s)%nat) as [Hlt|]; [|by apply elem_of_nil in Hin].
      destruct (Hstep _ _ _ _ Hin1) as (u & -> & Hu).
      destruct (IH _ _ _ _ Hin) as (v & -> & Hv).
      exists (u ++ v). split; [by rewrite app_assoc|].
      apply M_star_cons with g1; [|done|done].
      intros ->. cbn in Hlt. lia.
    + apply list_elem_of_singleton in Hin as [= -> ->].
      exists []. split; [done|]. constructor.
Qed.

Lemma run_sound (r : re) :
  forall s g s' g', (s', g') ∈ run r s g ->
    exists u, s = u ++ s' /\ matches r u g g'.
Proof.
  induction r as [| c | p | a IHa b IHb | a IHa | a IHa | a IHa | i a IHa];
    intros s g s' g' Hin; cbn in Hin.
  - apply list_elem_of_singleton in Hin as [= -> ->].
    exists []. split; [done|]. constructor.
  - destruct s as [|c' s1]; [by apply elem_of_nil in Hin|].
    destruct (Ascii.eqb_spec c' c) as [->|]; [|by apply elem_of_nil in Hin].
    apply list_elem_of_singleton in Hin as [= -> ->].
    exists [c]. split; [done|]. constructor.
  - destruct s as [|c' s1]; [by apply elem_of_nil in Hin|].
    destruct (p c') eqn:Hp; [|by apply elem_of_nil in Hin].
    apply list_elem_of_singleton in Hin as [= -> ->].
    exists [c']. split; [done|]. by constructor.
  - apply list_elem_of_bind in Hin as ([s1 g1] & Hin & Hin1).
    destruct (IHa _ _ _ _ Hin1) as (u & -> & Hu).
    destruct (IHb _ _ _ _ Hin) as (v & -> & Hv).
    exists (u ++ v). split; [by rewrite app_assoc|]. by econstructor.
  - apply elem_of_app in Hin as [Hin|Hin].
    + destruct (IHa _ _ _ _ Hin) as (u & -> & Hu).
      exists u. split; [done|]. by constructor.
    + apply list_elem_of_singleton in Hin as [= -> ->].
      exists []. split; [done|]. apply M_opt_none.
  - by apply (star_sound (run a) a IHa) in Hin.
  - apply list_elem_of_bind in Hin as ([s1 g1] & Hin & Hin1).
    destruct (IHa _ _ _ _ Hin1) as (u & -> & Hu).
    apply (star_sound (run a) a IHa) in Hin as (v & -> & Hv).
    exists (u ++ v). split; [by rewrite app_assoc|]. by econstructor.
  - apply list_elem_of_fmap in Hin as ([s1 g1] & [= -> ->] & Hin).
    destruct (IHa _ _ _ _ Hin) as (u & -> & Hu).
    exists u. split; [done|].
    replace (take (length (u ++ s1) - length s1) (u ++ s1)) with u.
    + by constructor.
    + rewrite length_app, Nat.add_sub. by rewrite take_app_length.
Qed.

Lemma star_mono (step : str -> groups -> list (str * groups)) (x : str * groups) :
  forall n s g, x ∈ star step n s g -> x ∈ star step (S n) s g.
Proof.
  induction n as [|n IH]; intros s g Hin.
  - cbn in Hin. cbn. apply elem_of_app. by right.
  - cbn [star] in Hin. apply elem_of_app in Hin as [Hin|Hin].
    + apply list_elem_of_bind in Hin as ([s1 g1] & Hin & Hin1).
      change (star step (S (S n)) s g) with
        ((step s g ≫= fun '(s', g') =>
            if decide (length s' < length s)%nat then star step (S n) s' g'
            else []) ++ [(s, g)]).
      apply elem_of_app. left. apply list_elem_of_bind.
      exists (s1, g1). split; [|done].
      destruct (decide (length s1 < length s)%nat); [by apply IH|done].
    + change (star step (S (S n)) s g) with
        ((step s g ≫= fun '(s', g') =>
            if decide (length s' < length s)%nat then star step (S n) s' g'
            else []) ++ [(s, g)]).
      apply elem_of_app. by right.
Qed.

Lemma star_mono_le (step : str -> groups -> list (str * groups)) (x : str * groups) :
  forall n m s g, (n <= m)%nat -> x ∈ star step n s g -> x ∈ star step m s g.
Proof.
  intros n m s g Hle. induction Hle as [|m _ IH]; [done|].
  intros Hin. by apply star_mono, IH.
Qed.

Lemma run_complete (r : re) (u : str) (g g' : groups) :
  matches r u g g' -> forall s', (s', g') ∈ run r (u ++ s') g.
Proof.
  induction 1 as [g | c g | p c g Hp | a b u v g g1 g2 _ IHa _ IHb
                 | a u g g1 _ IHa | a g | a g
                 | a u v g g1 g2 Hne _ IHa _ IHs
                 | a u v g g1 g2 _ IHa _ IHs | i a u g g1 _ IHa];
    intros s'; cbn [run].
  - apply list_elem_of_singleton. done.
  - cbn. rewrite Ascii.eqb_refl. by apply list_elem_of_singleton.
  - cbn. rewrite Hp. by apply list_elem_of_singleton.
  - apply list_elem_of_bind. exists (v ++ s', g1). split.
    + apply IHb.
    + rewrite <- app_assoc. apply IHa.
  - apply elem_of_app. left. apply IHa.
  - apply elem_of_app. right. by apply list_elem_of_singleton.
  - destruct (length ([] ++ s')); cbn; [by apply list_elem_of_singleton|].
    apply elem_of_app. right. by apply list_elem_of_singleton.
  - destruct (length ((u ++ v) ++ s')) as [|n] eqn:Hlen.
    { destruct u; [done|]. cbn in Hlen. lia. }
    cbn [star]. apply elem_of_app. left. apply list_elem_of_bind.
    exists (v ++ s', g1). split.
    + rewrite decide_True.
      * specialize (IHs s'). cbn [run] in IHs.
        apply (star_mono_le _ _ (length (v ++ s'))); [|done].
        rewrite <- app_assoc, length_app in Hlen.
        destruct u; [done|]. cbn in Hlen. lia.
      * rewrite <- app_assoc, (length_app u). destruct u; [done|]. cbn. lia.
    + rewrite <- app_assoc. apply IHa.
  - apply list_elem_of_bind. exists (v ++ s', g1). split.
    + apply (IHs s').
    + rewrite <- app_assoc. apply IHa.
  - apply list_elem_of_fmap. exists (s', g1). split; [|apply IHa].
    f_equal. f_equal. rewrite length_app, Nat.add_sub. by rewrite take_app_length.
Qed.

Lemma match_at_some (r : re) (s : str) (g : groups) :
  match_at r s = Some g -> exists u s', s = u ++ s' /\ matches r u ∅ g.
Proof.
  unfold match_at. destruct (run r s ∅) as [|[s' g'] l] eqn:Hrun; [done|].
  intros [= ->]. destruct (run_sound r s ∅ s' g) as (u & -> & Hu).
  { rewrite Hrun. apply elem_of_cons. by left. }
  by exists u, s'.
Qed.

Lemma match_at_none (r : re) (u s' : str) (g : groups) :
  match_at r (u ++ s') = None -> ~ matches r u ∅ g.
Proof.
  unfold match_at. intros Hnone Hm.
  pose proof (run_complete r u ∅ g Hm s') as Hin.
  destruct (run r (u ++ s') ∅) as [|[]]; [by apply elem_of_nil in Hin|done].
Qed.

Lemma search_some (r : re) (s : str) (g : groups) :
  search r s = Some g ->
  exists pre u post, s = pre ++ u ++ post /\ matches r u ∅ g.
Proof.
  induction s as [|c s IH]; cbn.
  - destruct (match_at r []) as [g'|] eqn:Hm; [|done].
    intros [= ->]. apply match_at_some in Hm as (u & s' & Hs & Hu).
    by exists [], u, s'.
  - destruct (match_at r (c :: s)) as [g'|] eqn:Hm.
    + intros [= ->]. apply match_at_some in Hm as (u & s' & Hs & Hu).
      by exists [], u, s'.
    + intros Hs. destruct (IH Hs) as (pre & u & post & -> & Hu).
      by exists (c :: pre), u, post.
Qed.

Lemma search_none (r : re) (pre u post : str) (g : groups) :
  search r (pre ++ u ++ post) = None -> ~ matches r u ∅ g.
Proof.
  induction pre as [|c pre IH]; cbn [app].
  - destruct u as [|c u]; cbn [search app].
    + destruct post as [|c post]; cbn [search].
      * destruct (match_at r []) eqn:Hm; [done|]. intros _.
        by apply (match_at_none r [] []).
      * destruct (match_at r (c :: post)) eqn:Hm; [done|]. intros _.
        by apply (match_at_none r [] (c :: post)).
    + destruct (match_at r (c :: u ++ post)) eqn:Hm; [done|]. intros _.
      by apply (match_at_none r (c :: u) post).
  - cbn [search]. destruct (match_at r (c :: pre ++ u ++ post)); [done|].
    exact IH.
Qed.

Lemma search_is_some (r : re) (s : str) :
  is_Some (search r s) <->
  exists pre u post g, s = pre ++ u ++ post /\ matches r u ∅ g.
Proof.
  split.
  - intros [g Hg]. destruct (search_some r s g Hg) as (pre & u & post & Hs & Hu).
    by exists pre, u, post, g.
  - intros (pre & u & post & g & -> & Hu).
    destruct (search r (pre ++ u ++ post)) eqn:Hs; [done|].
    by apply search_none with (g := g) in Hs.
Qed.

Lemma matches_star_cls (p : ascii -> bool) (u : str) (g g' : groups) :
  matches (Star (Cls p)) u g g' <-> g' = g /\ Forall (fun c => p c = true) u.
Proof.
  split.
  - intros Hm. remember (Star (Cls p)) as r eqn:Hr.
    induction Hm as [ | | | | | | a g
                     | a u v g g1 g2 Hne Ha _ Hs IHs | | ]; try done.
    + injection Hr as ->. inversion Ha; subst.
      destruct (IHs eq_refl) as [-> Hv]. split; [done|].
      constructor; done.
  - intros [-> Hall]. induction Hall as [|c u Hc _ IH].
    + constructor.
    + apply (M_star_cons (Cls p) [c] u g g g); [done| |done]. by constructor.
Qed.

Lemma matches_plus_cls (p : ascii -> bool) (u : str) (g g' : groups) :
  matches (Plus (Cls p)) u g g'
  <-> g' = g /\ u <> [] /\ Forall (fun c => p c = true) u.
Proof.
  split.
  - intros Hm. inversion Hm as [ | | | | | | | | a u1 v g0 g1 g2 Ha Hs | ]; subst.
    inversion Ha; subst. apply matches_star_cls in Hs as [-> Hv].
    split; [done|]. split; [done|]. by constructor.
  - intros (-> & Hne & Hall). destruct Hall as [|c u Hc Hu]; [done|].
    apply (M_plus (Cls p) [c] u g g g); [by constructor|].
    by apply matches_star_cls.
Qed.

Lemma matches_number (u : str) (g g' : groups) :
  matches Daemon.number u g g' <-> g' = g /\ unsigned_decimal u.
Proof.
  unfold Daemon.number. split.
  - intros Hm.
    inversion Hm as [ | | | a b u1 v1 g0 g1 g2 Hip Hrest | | | | | | ]; subst.
    inversion Hrest as [ | | | a b u2 v2 g0 g3 g4 Hdot Hfp | | | | | | ]; subst.
    apply matches_plus_cls in Hip as (-> & Hne & Hip).
    apply matches_star_cls in Hfp as (-> & Hfp).
    inversion Hdot as [ | | | | a u3 g0 g5 Hc | | | | | ]; subst.
    + inversion Hc; subst. split; [done|].
      exists u1, (lit "."), v2. repeat split; auto.
    + split; [done|]. exists u1, [], v2. repeat split; auto.
  - intros (-> & ip & dot & fp & -> & Hne & Hip & Hdot & Hfp).
    apply M_cat with g; [by apply matches_plus_cls|].
    apply M_cat with g; [|by apply matches_star_cls].
    destruct Hdot as [-> | ->].
    + apply M_opt_none.
    + apply M_opt_some. apply M_chr.
Qed.

Lemma matches_cat (a b : re) (u : str) (g g' : groups) :
  matches (Cat a b) u g g'
  <-> exists u1 u2 g1, u = u1 ++ u2 /\ matches a u1 g g1 /\ matches b u2 g1 g'.
Proof.
  split.
  - intros Hm. inversion Hm; subst. eauto 10.
  - intros (u1 & u2 & g1 & -> & Ha & Hb). by econstructor.
Qed.

Lemma matches_chr (c : ascii) (u : str) (g g' : groups) :
  matches (Chr c) u g g' <-> u = [c] /\ g' = g.
Proof.
  split.
  - intros Hm. by inversion Hm.
  - intros [-> ->]. constructor.
Qed.

Lemma matches_eps (u : str) (g g' : groups) :
  matches Eps u g g' <-> u = [] /\ g' = g.
Proof.
  split.
  - intros Hm. by inversion Hm.
  - intros [-> ->]. constructor.
Qed.

Lemma matches_group_number (i : nat) (u : str) (g g' : groups) :
  matches (Grp i Daemon.number) u g g'
  <-> unsigned_decimal u /\ g' = <[i := u]> g.
Proof.
  split.
  - intros Hm. inversion Hm as [ | | | | | | | | | i0 a u0 g0 g1 Hn]; subst.
    apply matches_number in Hn as [-> Hn]. done.
  - intros [Hn ->]. constructor. by apply matches_number.
Qed.

Lemma matches_spaces (u : str) (g g' : groups) :
  matches (Plus (Cls isspace)) u g g' <-> whitespace u /\ g' = g.
Proof.
  rewrite matches_plus_cls. unfold whitespace, all_spaces. tauto.
Qed.

Lemma matches_pattern (u : str) (g : groups) :
  matches Daemon.pattern u ∅ g
  <-> exists n1 n2 n3 n4, four_pairs u n1 n2 n3 n4 /\ g = groups_of n1 n2 n3 n4.
Proof.
  unfold Daemon.pattern, seq. cbn [foldr]. split.
  - intros Hm.
    apply matches_cat in Hm as (? & ? & ? & -> & [-> ->]%matches_chr & Hm).
    apply matches_cat in Hm as (? & ? & ? & -> & [-> ->]%matches_chr & Hm).
    apply matches_cat in Hm as (n1 & ? & ? & -> & [Hn1 ->]%matches_group_number & Hm).
    apply matches_cat in Hm as (w1 & ? & ? & -> & [Hw1 ->]%matches_spaces & Hm).
    apply matches_cat in Hm as (? & ? & ? & -> & [-> ->]%matches_chr & Hm).
    apply matches_cat in Hm as (? & ? & ? & -> & [-> ->]%matches_chr & Hm).
    apply matches_cat in Hm as (n2 & ? & ? & -> & [Hn2 ->]%matches_group_number & Hm).
    apply matches_cat in Hm as (w2 & ? & ? & -> & [Hw2 ->]%matches_spaces & Hm).
    apply matches_cat in Hm as (? & ? & ? & -> & [-> ->]%matches_chr & Hm).
    apply matches_cat in Hm as (? & ? & ? & -> & [-> ->]%matches_chr & Hm).
    apply matches_cat in Hm as (n3 & ? & ? & -> & [Hn3 ->]%matches_group_number & Hm).
    apply matches_cat in Hm as (w3 & ? & ? & -> & [Hw3 ->]%matches_spaces & Hm).
    apply matches_cat in Hm as (? & ? & ? & -> & [-> ->]%matches_chr & Hm).
    apply matches_cat in Hm as (? & ? & ? & -> & [-> ->]%matches_chr & Hm).
    apply matches_cat in Hm as (? & ? & ? & -> & [-> ->]%matches_chr & Hm).
    apply matches_cat in Hm as (n4 & ? & ? & -> & [Hn4 ->]%matches_group_number & Hm).
    apply matches_eps in Hm as [-> ->].
    exists n1, n2, n3, n4. split; [|reflexivity].
    exists w1, w2, w3. rewrite app_nil_r. cbn. done.
  - intros (n1 & n2 & n3 & n4 & (w1 & w2 & w3 & -> & H1 & H2 & H3 & H4 & Hw1 & Hw2 & Hw3) & ->).
    unfold groups_of.
    eapply (M_cat _ _ [_]); [apply M_chr|].
    eapply (M_cat _ _ [_]); [apply M_chr|].
    apply M_cat with (<[1%nat := n1]> ∅); [by apply matches_group_number|].
    apply M_cat with (<[1%nat := n1]> ∅); [by apply matches_spaces|].
    eapply (M_cat _ _ [_]); [apply M_chr|].
    eapply (M_cat _ _ [_]); [apply M_chr|].
    apply M_cat with (<[2%nat := n2]> (<[1%nat := n1]> ∅));
      [by apply matches_group_number|].
    apply M_cat with (<[2%nat := n2]> (<[1%nat := n1]> ∅));
      [by apply matches_spaces|].
    eapply (M_cat _ _ [_]); [apply M_chr|].
    eapply (M_cat _ _ [_]); [apply M_chr|].
    apply M_cat with (<[3%nat := n3]> (<[2%nat := n2]> (<[1%nat := n1]> ∅)));
      [by apply matches_group_number|].
    apply M_cat with (<[3%nat := n3]> (<[2%nat := n2]> (<[1%nat := n1]> ∅)));
      [by apply matches_spaces|].
    eapply (M_cat _ _ [_]); [apply M_chr|].
    eapply (M_cat _ _ [_]); [apply M_chr|].
    eapply (M_cat _ _ [_]); [apply M_chr|].
    apply matches_cat.
    exists n4, [], (<[4%nat := n4]> (<[3%nat := n3]> (<[2%nat := n2]> (<[1%nat := n1]> ∅)))).
    split; [by rewrite app_nil_r|].
    split; [by apply matches_group_number|constructor].
Qed.

End RegexProperties.

(** ** The parser of [weather-daemon.py] *)

Section RegexParserProperties.
Import Regex RegexSpec.
Context {F : Type} `{PyFloat F}.

Hypothesis float_reads_decimals :
  forall n : str, unsigned_decimal n -> exists v : F, float n = Ok v.

Lemma parse_of_search_none (line : str) :
  search Daemon.pattern line = None ->
  Daemon.parse_weather_data line = Ok None.
Proof. unfold Daemon.parse_weather_data. by intros ->. Qed.

Lemma parse_of_search_some (line : str) (g : groups) :
  search Daemon.pattern line = Some g ->
  exists pre u post n1 n2 n3 n4 t h p ws,
    line = pre ++ u ++ post /\ four_pairs u n1 n2 n3 n4
    /\ float n1 = Ok t /\ float n2 = Ok h /\ float n3 = Ok p /\ float n4 = Ok ws
    /\ Daemon.parse_weather_data line =
         Ok (Some (<[lit "wind_speed" := ws]>
                  (<[lit "pressure" := p]>
                  (<[lit "humidity" := h]>
                  (<[lit "temperature" := t]> ∅))))).
Proof.
  intros Hs. unfold Daemon.parse_weather_data. rewrite Hs.
  apply search_some in Hs as (pre & u & post & -> & Hu).
  apply matches_pattern in Hu as (n1 & n2 & n3 & n4 & Hfour & ->).
  pose proof Hfour as (w1 & w2 & w3 & _ & H1 & H2 & H3 & H4 & _).
  destruct (float_reads_decimals n1 H1) as (t & Ht).
  destruct (float_reads_decimals n2 H2) as (h & Hh).
  destruct (float_reads_decimals n3 H3) as (p & Hp).
  destruct (float_reads_decimals n4 H4) as (ws & Hws).
  exists pre, u, post, n1, n2, n3, n4, t, h, p, ws.
  unfold Daemon.float_group, groups_of.
  rewrite lookup_insert_ne, lookup_insert_ne, lookup_insert_ne by done.
  rewrite lookup_insert_eq, Ht. cbn [bind].
  rewrite lookup_insert_ne, lookup_insert_ne by done.
  rewrite lookup_insert_eq, Hh. cbn [bind].
  rewrite lookup_insert_ne by done.
  rewrite lookup_insert_eq, Hp. cbn [bind].
  rewrite lookup_insert_eq, Hws. cbn [bind].
  done.
Qed.

Lemma four_pairs_keys (u n1 n2 n3 n4 pre post key : str) :
  four_pairs u n1 n2 n3 n4 ->
  key ∈ [lit "T:"; lit "H:"; lit "P:"; lit "WS:"] ->
  occurs_in key (pre ++ u ++ post).
Proof.
  intros (w1 & w2 & w3 & -> & _) Hkey. unfold occurs_in.
  repeat (apply elem_of_cons in Hkey as [->|Hkey]); [| | | |by apply elem_of_nil in Hkey].
  - exists pre. eexists. rewrite <- !app_assoc. reflexivity.
  - exists (pre ++ lit "T:" ++ n1 ++ w1). eexists. rewrite <- !app_assoc. reflexivity.
  - exists (pre ++ lit "T:" ++ n1 ++ w1 ++ lit "H:" ++ n2 ++ w2). eexists.
    rewrite <- !app_assoc. reflexivity.
  - exists (pre ++ lit "T:" ++ n1 ++ w1 ++ lit "H:" ++ n2 ++ w2 ++ lit "P:" ++ n3 ++ w3).
    eexists. rewrite <- !app_assoc. reflexivity.
Qed.

Lemma regex_parse_total (line : str) :
  exists r, Daemon.parse_weather_data line = Ok r.
Proof.
  destruct (search Daemon.pattern line) as [g|] eqn:Hs.
  - destruct (parse_of_search_some line g Hs)
      as (pre & u & post & n1 & n2 & n3 & n4 & t & h & p & ws & _ & _ & _ & _ & _ & _ & Hp).
    eauto.
  - rewrite (parse_of_search_none line Hs). eauto.
Qed.

Lemma regex_parse_reading_iff (line : str) :
  (exists weather_data, Daemon.parse_weather_data line = Ok (Some weather_data))
  <-> has_four_pairs line.
Proof.
  split.
  - intros (wd & Hwd).
    destruct (search Daemon.pattern line) as [g|] eqn:Hs.
    + destruct (parse_of_search_some line g Hs)
        as (pre & u & post & n1 & n2 & n3 & n4 & _ & _ & _ & _ & Hl & Hfour & _).
      by exists pre, u, post, n1, n2, n3, n4.
    + rewrite (parse_of_search_none line Hs) in Hwd. done.
  - intros (pre & u & post & n1 & n2 & n3 & n4 & -> & Hfour).
    assert (Hsome : is_Some (search Daemon.pattern (pre ++ u ++ post))).
    { apply search_is_some. exists pre, u, post, (groups_of n1 n2 n3 n4).
      split; [done|]. apply matches_pattern. by exists n1, n2, n3, n4. }
    destruct Hsome as [g Hs].
    destruct (parse_of_search_some _ g Hs)
      as (_ & _ & _ & _ & _ & _ & _ & t & h & p & ws & _ & _ & _ & _ & _ & _ & Hp).
    eauto.
Qed.

(** C9, as the code has it.  Given that [float] reads every unsigned
    decimal numeral, the parser of [weather-daemon.py] returns on every
    line, and it returns a reading exactly when the line has, somewhere
    in it, [T:] number, [H:] number, [P:] number and [WS:] number one
    after the other with one or more whitespace characters, and nothing
    else, between two of them, each number being one or more digits, at
    most one dot and any number of digits.  The reading has exactly the
    fields temperature, humidity, pressure and wind_speed, holding what
    [float] reads from the four numbers of such a place.  A line without
    one of the four keys gives no reading, and neither does the line
    with the negative temperature. *)
Theorem regex_parser_reads_adjacent_pairs (line : str) :
  (exists r, Daemon.parse_weather_data line = Ok r)
  /\ ((exists weather_data, Daemon.parse_weather_data line = Ok (Some weather_data))
      <-> has_four_pairs line)
  /\ (forall weather_data,
        Daemon.parse_weather_data line = Ok (Some weather_data) ->
        dom weather_data =
          {[lit "temperature"; lit "humidity"; lit "pressure"; lit "wind_speed"]}
        /\ exists pre u post n1 n2 n3 n4,
             line = pre ++ u ++ post /\ four_pairs u n1 n2 n3 n4
             /\ Ok <$> weather_data !! lit "temperature" = Some (float n1)
             /\ Ok <$> weather_data !! lit "humidity" = Some (float n2)
             /\ Ok <$> weather_data !! lit "pressure" = Some (float n3)
             /\ Ok <$> weather_data !! lit "wind_speed" = Some (float n4))
  /\ (forall key,
        key ∈ [lit "T:"; lit "H:"; lit "P:"; lit "WS:"] ->
        ~ occurs_in key line ->
        Daemon.parse_weather_data line = Ok None)
  /\ Daemon.parse_weather_data (lit "T:-5.0 H:50.0 P:1000.0 WS:0.0") = Ok None.
Proof.
  split; [apply regex_parse_total|]. split; [|split; [|split]].
  - apply regex_parse_reading_iff.
  - intros wd Hwd.
    destruct (search Daemon.pattern line) as [g|] eqn:Hs.
    + destruct (parse_of_search_some line g Hs)
        as (pre & u & post & n1 & n2 & n3 & n4 & t & h & p & ws
            & Hl & Hfour & Ht & Hh & Hp & Hws & Hparse).
      rewrite Hparse in Hwd. injection Hwd as <-. split.
      * rewrite !dom_insert_L, dom_empty_L. set_solver.
      * exists pre, u, post, n1, n2, n3, n4.
        split; [done|]. split; [done|].
        rewrite Ht, Hh, Hp, Hws.
        rewrite lookup_insert_ne, lookup_insert_ne, lookup_insert_ne by done.
        rewrite lookup_insert_eq.
        rewrite lookup_insert_ne, lookup_insert_ne by done.
        rewrite lookup_insert_eq.
        rewrite lookup_insert_ne by done.
        rewrite !lookup_insert_eq. done.
    + rewrite (parse_of_search_none line Hs) in Hwd. done.
  - intros key Hkey Hno.
    destruct (search Daemon.pattern line) as [g|] eqn:Hs.
    + destruct (parse_of_search_some line g Hs)
        as (pre & u & post & n1 & n2 & n3 & n4 & _ & _ & _ & _ & -> & Hfour & _).
      destruct Hno. by eapply four_pairs_keys.
    + by apply parse_of_search_none.
  - apply parse_of_search_none. vm_compute. reflexivity.
Qed.

End RegexParserProperties.

(** ** The token parser *)

Section TokenParserProperties.
Context {F : Type} `{PyFloat F}.

Lemma foldl_put_field_lookup (l : list (str * F)) (d : gmap str F) (f : str) :
  foldl put_field d l !! f = from_option Some (d !! f) (last_value f l).
Proof.
  unfold last_value.
  induction l as [|[k x] l IH] using rev_ind; [done|].
  rewrite foldl_app, filter_app. cbn [foldl]. unfold put_field at 1. cbn [fst snd].
  rewrite filter_cons, filter_nil. cbn [fst].
  destruct (decide (k = f)) as [->|Hne].
  - rewrite lookup_insert_eq, last_snoc. done.
  - rewrite lookup_insert_ne, app_nil_r by done. exact IH.
Qed.

Lemma foldl_put_field_nonempty (l : list (str * F)) (d : gmap str F) :
  l <> [] -> foldl put_field d l <> ∅.
Proof.
  destruct l as [|kv l _] using rev_ind; [done|]. intros _.
  rewrite foldl_app. cbn. apply insert_non_empty.
Qed.

(** The loop over the tokens, when [float] raises nothing but
    [ValueError]: the fields of the tokens that convert are stored, in
    their order. *)
Lemma parse_pairs_converted (toks : list str) (d : gmap str F) :
  (forall s e, float s = Raise e -> e = ValueError) ->
  Collector.parse_pairs d toks = Ok (foldl put_field d (omap token_field toks)).
Proof.
  intros Hval. revert d. induction toks as [|tok toks IH]; intros d; [done|].
  cbn [Collector.parse_pairs omap list_omap]. unfold Collector.parse_pair, token_field.
  destruct (contains ":" tok); cbn [bind]; [|apply IH].
  destruct (split1 ":" tok) as [key value]. cbn [fst snd].
  destruct (float (strip value)) as [x|e] eqn:Hf.
  - cbn [bind foldl]. apply IH.
  - rewrite (Hval _ _ Hf). cbn [bind]. apply IH.
Qed.

(** Without that assumption: when no token converts, the loop leaves
    the dictionary as it is or ends in an exception. *)
Lemma parse_pairs_none_converted (toks : list str) (d : gmap str F) :
  omap token_field toks = [] ->
  Collector.parse_pairs d toks = Ok d
  \/ exists e, Collector.parse_pairs d toks = Raise e.
Proof.
  induction toks as [|tok toks IH]; [by left|].
  cbn [Collector.parse_pairs omap list_omap]. unfold Collector.parse_pair.
  unfold token_field at 1.
  destruct (contains ":" tok); cbn [bind]; [|exact IH].
  destruct (split1 ":" tok) as [key value]. cbn [fst snd].
  destruct (float (strip value)) as [x|e] eqn:Hf; [done|].
  intros Hnone. destruct e; cbn [bind]; eauto.
Qed.

Lemma collector_parse_total (line : str) :
  exists r, Collector.parse_weather_data line = Ok r.
Proof.
  unfold Collector.parse_weather_data, try_except.
  destruct (Collector.parse_body line); eauto.
Qed.

Lemma collector_parse_none_converted (line : str) :
  converted line = [] -> Collector.parse_weather_data line = Ok None.
Proof.
  unfold converted, tokens. intros Hnone.
  unfold Collector.parse_weather_data, Collector.parse_body.
  destruct (decide (strip line = [])); [done|].
  destruct (parse_pairs_none_converted _ ∅ Hnone) as [-> | [e ->]]; [|done].
  cbn. unfold Collector.nonempty_or_none. by rewrite decide_True.
Qed.

Lemma foldl_put_field_dom (l : list (str * F)) (d : gmap str F) :
  dom (foldl put_field d l) = dom d ∪ list_to_set l.*1.
Proof.
  induction l as [|[k x] l IH] using rev_ind.
  - cbn. set_solver.
  - rewrite foldl_app, fmap_app, list_to_set_app_L.
    change (foldl put_field (foldl put_field d l) [(k, x)])
      with (<[k := x]> (foldl put_field d l)).
    rewrite dom_insert_L, IH. cbn [fmap list_fmap fst list_to_set].
    set_solver.
Qed.

Lemma converted_line_nonempty (line : str) :
  converted line <> [] -> strip line <> [].
Proof.
  unfold converted, tokens. intros Hc E. rewrite E in Hc. by apply Hc.
Qed.

(** C2, as the code has it, for the parser of [weather_daemon.py],
    [weather_collector.py] and [rotse_weatherd/main.py].  A token is a
    piece of the stripped line between two single space characters, as
    the code cuts it; a tab does not end a token.  When [float]
    raises nothing but [ValueError] and at least one token of the line
    converts, the parser returns a reading that holds exactly the fields
    of the tokens that convert, the last token winning when a name comes
    twice; a token that does not convert is left out and the rest of
    the line is still read.  The names come from the table T to
    temperature, H to humidity, P to pressure, WS to windspeed, any
    other key in lower case.  The line with T:abc and H:50.1 gives
    humidity alone. *)
Theorem token_parser_keeps_converted_fields (line : str) :
  (forall s e, float s = Raise e -> e = ValueError) ->
  converted line <> [] ->
  (exists d : gmap str F,
      Collector.parse_weather_data line = Ok (Some d)
      /\ (forall f, d !! f = last_value f (converted line))
      /\ dom d = list_to_set (converted line).*1)
  /\ (Collector.field_mapping_get (lit "T") = lit "temperature"
      /\ Collector.field_mapping_get (lit "H") = lit "humidity"
      /\ Collector.field_mapping_get (lit "P") = lit "pressure"
      /\ Collector.field_mapping_get (lit "WS") = lit "windspeed"
      /\ forall key,
           key ∉ [lit "T"; lit "H"; lit "P"; lit "WS"] ->
           Collector.field_mapping_get key = lower key)
  /\ (forall v : F,
        float (lit "abc") = Raise ValueError ->
        float (lit "50.1") = Ok v ->
        Collector.parse_weather_data (lit "T:abc H:50.1")
        = Ok (Some {[lit "humidity" := v]})).
Proof.
  intros Hval Hconv. split; [|split].
  - exists (foldl put_field ∅ (converted line)).
    split; [|split].
    + unfold Collector.parse_weather_data, Collector.parse_body.
      destruct (decide (strip line = [])) as [E|_].
      { by apply converted_line_nonempty in Hconv. }
      rewrite (parse_pairs_converted _ _ Hval). cbn.
      unfold Collector.nonempty_or_none. fold (tokens line). fold (converted line).
      rewrite decide_False by (by apply foldl_put_field_nonempty). done.
    + intros f. rewrite foldl_put_field_lookup, lookup_empty.
      by destruct (last_value f (converted line)).
    + rewrite foldl_put_field_dom, dom_empty_L. set_solver.
  - repeat split; try reflexivity.
    intros key Hkey. unfold Collector.field_mapping_get.
    repeat (destruct (decide _) as [->|?]; [set_solver|]). done.
  - intros v Habc Hnum.
    unfold Collector.parse_weather_data, Collector.parse_body.
    change (strip (lit "T:abc H:50.1")) with (lit "T:abc H:50.1").
    rewrite decide_False by done.
    change (split " " (lit "T:abc H:50.1")) with [lit "T:abc"; lit "H:50.1"].
    cbn [Collector.parse_pairs]. unfold Collector.parse_pair.
    change (contains ":" (lit "T:abc")) with true.
    change (contains ":" (lit "H:50.1")) with true.
    change (split1 ":" (lit "T:abc")) with (lit "T", lit "abc").
    change (split1 ":" (lit "H:50.1")) with (lit "H", lit "50.1").
    cbn iota.
    change (strip (lit "abc")) with (lit "abc").
    change (strip (lit "50.1")) with (lit "50.1").
    rewrite Habc, Hnum. cbn [bind try_except].
    change (strip (lit "H")) with (lit "H").
    change (Collector.field_mapping_get (lit "H")) with (lit "humidity").
    unfold Collector.nonempty_or_none.
    rewrite decide_False by apply insert_non_empty. done.
Qed.

End TokenParserProperties.

(** ** Both parsers always return *)

Section ParserTotality.
Context {F : Type} `{PyFloat F}.

(** C3. Both parsers return on every line and never raise: in
    [weather_daemon.py] whatever is raised under [try] is turned into
    "no reading"; in [weather-daemon.py] nothing is raised, given that
    [float] reads every unsigned decimal numeral.  A line none of whose
    tokens converts, and a line without the four pairs, give "no
    reading"; so do the line "garbage" and the empty line. *)
Theorem parsers_always_return (line : str) :
  (forall n : str, unsigned_decimal n -> exists v : F, float n = Ok v) ->
  (exists r, Collector.parse_weather_data line = Ok r)
  /\ (exists r, Daemon.parse_weather_data line = Ok r)
  /\ (converted line = [] -> Collector.parse_weather_data line = Ok None)
  /\ (~ has_four_pairs line -> Daemon.parse_weather_data line = Ok None)
  /\ @Collector.parse_weather_data F _ (lit "garbage") = Ok None
  /\ @Collector.parse_weather_data F _ [] = Ok None
  /\ @Daemon.parse_weather_data F _ (lit "garbage") = Ok None
  /\ @Daemon.parse_weather_data F _ [] = Ok None.
Proof.
  intros Hfloat.
  split; [apply collector_parse_total|].
  split; [by apply regex_parse_total|].
  split; [apply collector_parse_none_converted|].
  split.
  { intros Hno.
    destruct (regex_parse_total Hfloat line) as [[wd|] Hr]; [|done].
    destruct Hno. apply (regex_parse_reading_iff Hfloat). eauto. }
  split; [by apply collector_parse_none_converted|].
  split; [reflexivity|].
  split; [by apply parse_of_search_none|reflexivity].
Qed.

End ParserTotality.

(** ** The model of [float] *)

Section FloatModelProperties.
Import FloatModel.

Lemma digit_facts (c : ascii) :
  isdigit c = true ->
  isspace c = false /\ Ascii.eqb c "_" = false /\ Ascii.eqb c "-" = false
  /\ Ascii.eqb c "+" = false /\ Ascii.eqb c "." = false
  /\ lower_char c = c /\ c <> "i"%char /\ c <> "n"%char.
Proof.
  destruct c as [[] [] [] [] [] [] [] []]; vm_compute; intros E;
    try discriminate E; repeat split; discriminate.
Qed.

Lemma digitpart_digits (ds rest : str) :
  all_digits ds ->
  match rest with
  | [] => True
  | c :: _ => isdigit c = false /\ Ascii.eqb c "_" = false
  end ->
  digitpart (ds ++ rest) = (ds, rest).
Proof.
  intros Hds Hrest. induction Hds as [|c ds Hc Hds IH].
  - destruct rest as [|c r]; [done|]. destruct Hrest as [Hd _].
    cbn. by rewrite Hd.
  - cbn [app digitpart]. rewrite Hc.
    assert (Hgo : forall l, l = ds ++ rest ->
              match l with
              | u :: (c2 :: _) as r2 =>
                  if Ascii.eqb u "_" && isdigit c2
                  then let '(ds0, t) := digitpart r2 in (c :: ds0, t)
                  else let '(ds0, t) := digitpart l in (c :: ds0, t)
              | _ => let '(ds0, t) := digitpart l in (c :: ds0, t)
              end = (c :: ds, rest)).
    { intros l ->. rewrite IH.
      destruct (ds ++ rest) as [|u [|c2 r2]] eqn:E; [done|done|].
      assert (Hu : Ascii.eqb u "_" = false).
      { destruct ds as [|d ds'].
        - cbn in E. subst rest. by destruct Hrest.
        - injection E as -> _. apply Forall_cons in Hds as [Hd _].
          by apply digit_facts in Hd as (_ & ? & _). }
      by rewrite Hu. }
    by apply Hgo.
Qed.

Lemma lstrip_no_space (s : str) :
  Forall (fun c => isspace c = false) s -> lstrip s = s.
Proof. intros [|c s' Hc _]; [done|]. cbn. by rewrite Hc. Qed.

Lemma strip_no_space (s : str) :
  Forall (fun c => isspace c = false) s -> strip s = s.
Proof.
  intros Hs. unfold strip, rstrip. rewrite (lstrip_no_space s Hs).
  rewrite lstrip_no_space by (by apply Forall_rev).
  apply rev_involutive.
Qed.

Lemma unsigned_decimal_no_space (n : str) :
  unsigned_decimal n -> Forall (fun c => isspace c = false) n.
Proof.
  intros (ip & dot & fp & -> & _ & Hip & Hdot & Hfp).
  apply Forall_app. split; [|apply Forall_app; split].
  - eapply Forall_impl; [exact Hip|]. intros c Hc. by apply digit_facts in Hc as [? _].
  - destruct Hdot as [-> | ->]; [constructor|]. by repeat constructor.
  - eapply Forall_impl; [exact Hfp|]. intros c Hc. by apply digit_facts in Hc as [? _].
Qed.

(** The model reads every unsigned decimal numeral. *)
Lemma float_of_str_reads_decimals (n : str) :
  unsigned_decimal n -> exists v, float_of_str n = Ok v.
Proof.
  intros Hn. unfold float_of_str.
  rewrite (strip_no_space n (unsigned_decimal_no_space n Hn)).
  destruct Hn as (ip & dot & fp & -> & Hne & Hip & Hdot & Hfp).
  destruct ip as [|c ip]; [done|].
  pose proof Hip as [Hc Hip']%Forall_cons.
  pose proof (digit_facts c Hc) as (_ & _ & Hminus & Hplus & _ & Hlow & Hi & Hn).
  cbn [app sign]. rewrite Hminus, Hplus.
  assert (Hword : forall word : str, word = lit "inf" \/ word = lit "infinity"
                    \/ word = lit "nan" ->
                  lower (c :: ip ++ dot ++ fp) <> word).
  { intros word Hw E. cbn in E. rewrite Hlow in E.
    destruct Hw as [-> | [-> | ->]]; injection E as E _; done. }
  rewrite !decide_False by (apply Hword; auto).
  destruct Hdot as [-> | ->].
  - change (c :: ip ++ [] ++ fp) with ((c :: ip) ++ fp).
    rewrite <- (app_nil_r ((c :: ip) ++ fp)).
    rewrite digitpart_digits; [|by apply Forall_app|done].
    cbn. eauto.
  - change (c :: ip ++ lit "." ++ fp) with ((c :: ip) ++ "."%char :: fp).
    rewrite digitpart_digits; [|done|by vm_compute].
    rewrite Ascii.eqb_refl.
    pose proof (digitpart_digits fp [] Hfp I) as Hfpart.
    rewrite app_nil_r in Hfpart. rewrite Hfpart.
    cbn. eauto.
Qed.

(** The model raises nothing but [ValueError]. *)
Lemma float_of_str_raises_value_error (s : str) (e : exn) :
  float_of_str s = Raise e -> e = ValueError.
Proof.
  unfold float_of_str.
  destruct (sign (strip s)) as [neg s1].
  repeat (destruct (decide _); [done|]).
  destruct (digitpart s1) as [ip r1].
  destruct (match r1 with
            | c :: r => if Ascii.eqb c "." then digitpart r else ([], r1)
            | [] => ([], [])
            end) as [fp r2].
  destruct (ip ++ fp); [by intros [= <-]|].
  destruct (exponent r2); [done|by intros [= <-]].
Qed.

End FloatModelProperties.

(** ** The statements on sample data *)

Section Samples.
Import FloatModel Daemon Sample.

(** Three readings queued into an empty queue of two places. *)
Lemma queue_never_exceeds_capacity_witness :
  exists s',
    queue_all three (with_queue (Queue 2) connected) = Ret tt s'
    /\ items (data_queue s') = [(reading, 2); (reading, 3)]
    /\ qsize (data_queue s') = 2%nat.
Proof.
  destruct (queue_never_exceeds_capacity 2 (with_queue (Queue 2) connected) three)
    as (_ & _ & Hlast); [lia | reflexivity | cbv; discriminate |].
  exact (Hlast eq_refl eq_refl).
Defined.

(** The line with T:abc and H:50.1, read with the model of [float]. *)
Lemma token_parser_keeps_converted_fields_witness :
  @Collector.parse_weather_data pyfloat _ (lit "T:abc H:50.1")
  = Ok (Some {[lit "humidity" := Fin false 501 (-1)]}).
Proof.
  destruct (token_parser_keeps_converted_fields (F := pyfloat) (lit "T:abc H:50.1"))
    as (_ & _ & Hexample).
  - exact float_of_str_raises_value_error.
  - vm_compute. discriminate.
  - apply Hexample; reflexivity.
Defined.

(** Both parsers on that line. *)
Lemma parsers_always_return_witness :
  (exists r, @Collector.parse_weather_data pyfloat _ (lit "T:abc H:50.1") = Ok r)
  /\ (exists r, @Daemon.parse_weather_data pyfloat _ (lit "T:abc H:50.1") = Ok r).
Proof.
  destruct (parsers_always_return (F := pyfloat) (lit "T:abc H:50.1")
              float_of_str_reads_decimals) as (Hc & Hd & _).
  split; assumption.
Defined.

(** A turn of the main loop with a line waiting and a sink that
    refuses the write. *)
Lemma parsed_reading_written_or_queued_witness :
  let s' := final (run_iteration cfg down 0 connected) in
  (exists t p,
      make_point reading t = Some p
      /\ sink s' = sink connected ++ [p]
      /\ data_queue s' = data_queue connected
      /\ influx_client s' = true)
  \/ (exists t,
      sink s' = sink connected
      /\ maxsize (data_queue s') = maxsize (data_queue connected)
      /\ items (data_queue s') =
           after_queue_data (data_queue connected) (reading, t)
      /\ last (items (data_queue s')) = Some (reading, t)).
Proof.
  apply (parsed_reading_written_or_queued cfg down 0%nat
           (lit "T:22.6 H:50.1 P:1011.9 WS:0.00") reading connected).
  - reflexivity.
  - cbv. discriminate.
  - reflexivity.
  - unfold Daemon.parse_weather_data.
    replace (Regex.search pattern (strip (lit "T:22.6 H:50.1 P:1011.9 WS:0.00")))
      with (Some (RegexSpec.groups_of (lit "22.6") (lit "50.1")
                    (lit "1011.9") (lit "0.00")))
      by (vm_compute; reflexivity).
    reflexivity.
Defined.

(** Three attempts on a port that cannot be opened, five seconds
    apart. *)
Lemma reconnect_exhausts_after_max_attempts_witness :
  exists s' tr,
    connect_serial cfg down (init (F := pyfloat) 0) = Ret (Some false) s'
    /\ trace s' = tr ++ [EvLog Error (MsgSerialExhausted 3)]
    /\ schedule tr = [Attempt; Delay 5; Attempt; Delay 5; Attempt].
Proof.
  destruct (reconnect_exhausts_after_max_attempts cfg down (init (F := pyfloat) 0))
    as ((s' & tr & Hrun & Htr & Hs & _) & _).
  - reflexivity.
  - intros i. discriminate.
  - intros i. discriminate.
  - exists s', tr. split; [exact Hrun|]. split; [exact Htr|exact Hs].
Defined.

(** The line of the source comment, [T:22.6 H:50.1 P:1011.9 WS:0.00]. *)
Lemma regex_parser_reads_adjacent_pairs_witness :
  (exists weather_data,
      @Daemon.parse_weather_data pyfloat _ (lit "T:22.6 H:50.1 P:1011.9 WS:0.00")
      = Ok (Some weather_data))
  <-> has_four_pairs (lit "T:22.6 H:50.1 P:1011.9 WS:0.00").
Proof.
  destruct (regex_parser_reads_adjacent_pairs (F := pyfloat)
              float_of_str_reads_decimals
              (lit "T:22.6 H:50.1 P:1011.9 WS:0.00")) as (_ & Hiff & _).
  exact Hiff.
Defined.

(** C2, where the code differs: in [weather_daemon.py] the key WS
    gives the field windspeed, and no field wind-speed; the parser
    of [weather-daemon.py] gives no reading at all for the line with
    T:abc and H:50.1; and the parser of [weather_daemon.py] cuts the
    line at single spaces only, so that the line with T:22.6 and
    H:50.1 separated by a tab is one token, whose value is no number,
    and gives no reading. *)
Lemma token_parser_names_wind_field_windspeed :
  (exists d : gmap str pyfloat,
      Collector.parse_weather_data (lit "WS:0.00") = Ok (Some d)
      /\ d !! lit "windspeed" = Some (Fin false 0 (-2))
      /\ d !! lit "wind-speed" = None)
  /\ @Daemon.parse_weather_data pyfloat _ (lit "T:abc H:50.1") = Ok None
  /\ @Collector.parse_weather_data pyfloat _
       (lit "T:22.6" ++ "009"%char :: lit "H:50.1") = Ok None.
Proof.
  split; [|split].
  - exists {[lit "windspeed" := Fin false 0 (-2)]}.
    split; [|split; [apply lookup_singleton_eq|by apply lookup_singleton_ne]].
    unfold Collector.parse_weather_data, Collector.parse_body.
    change (strip (lit "WS:0.00")) with (lit "WS:0.00").
    rewrite decide_False by done.
    change (split " " (lit "WS:0.00")) with [lit "WS:0.00"].
    cbn [Collector.parse_pairs]. unfold Collector.parse_pair.
    change (contains ":" (lit "WS:0.00")) with true.
    change (split1 ":" (lit "WS:0.00")) with (lit "WS", lit "0.00").
    cbn iota.
    change (strip (lit "0.00")) with (lit "0.00").
    change (strip (lit "WS")) with (lit "WS").
    change (float (lit "0.00")) with (Ok (Fin false 0 (-2))).
    change (Collector.field_mapping_get (lit "WS")) with (lit "windspeed").
    cbn [bind try_except].
    unfold Collector.nonempty_or_none.
    rewrite decide_False by apply insert_non_empty. reflexivity.
  - apply parse_of_search_none. vm_compute. reflexivity.
  - apply collector_parse_none_converted. vm_compute. reflexivity.
Qed.

(** C5, where the code differs: when the queue is full at the moment
    the sender puts a refused pair back, the queue stays as it is,
    oldest pair included, and the pair put back is the one lost. *)
Lemma requeue_on_full_queue_loses_the_failed_pair :
  let s := with_queue full_queue connected in
  let x := (reading, 7) in
  full (data_queue s) = true
  /\ exists s',
      sender_requeue [x] s = Ret tt s'
      /\ items (data_queue s') = items (data_queue s)
      /\ (x ∉ items (data_queue s'))
      /\ items (data_queue s') <> after_queue_data (data_queue s) x
      /\ trace s' = trace s ++ [EvLog Warning MsgRequeueFullDrop].
Proof.
  cbn zeta.
  assert (Hfull : full (data_queue (with_queue full_queue connected)) = true).
  { unfold full, qsize, with_queue, full_queue. cbn [data_queue upd_data_queue items maxsize].
    rewrite length_replicate. reflexivity. }
  split; [exact Hfull|].
  destruct (sender_requeue_one (reading, 7) (with_queue full_queue connected))
    as (s' & Hrun & _ & Hit & _ & Htr).
  unfold after_put_nowait in Hit. rewrite Hfull in Hit, Htr.
  exists s'. split; [exact Hrun|]. split; [exact Hit|].
  assert (Hnotin : (reading, 7) ∉ items (data_queue (with_queue full_queue connected))).
  { unfold with_queue, full_queue. cbn [data_queue upd_data_queue items].
    intros [E _]%elem_of_replicate. discriminate E. }
  split; [by rewrite Hit|]. split; [|exact Htr].
  rewrite Hit. unfold after_queue_data. rewrite Hfull.
  intros E. apply Hnotin. rewrite E. apply elem_of_app. right.
  by apply list_elem_of_singleton.
Qed.

(** C8: two sample runs, with [restart_on_hang] set.  First, a decode
    error in every second turn and nothing to read in the turns between:
    after the first two turns the count is still 1, and in the
    nineteenth turn, at the tenth error, the process is ended, though no
    two errors came one after the other.  Second, a read that raises an
    unexpected exception in every turn: the handler of the outer [try]
    counts each of them, the check of the count is never reached, and
    after twelve turns the count is 12 and the process still runs. *)
Lemma errors_add_up_across_quiet_turns :
  (exists s', run_iterations cfg noisy 1 0 connected = Ret 1%nat s')
  /\ (exists s', run_iterations cfg noisy 2 0 connected = Ret 1%nat s')
  /\ (exists s', run_iterations cfg noisy 18 0 connected = Ret 9%nat s')
  /\ (exists s', run_iterations cfg noisy 19 0 connected = Exit 1 s')
  /\ (exists s', run_iterations cfg broken 12 0 connected = Ret 12%nat s').
Proof.
  repeat split; vm_compute; eexists; reflexivity.
Qed.

(** C9, where the code differs: these lines have the four keys in
    their order, each followed by an unsigned decimal number, and the
    parser gives no reading, the pairs being not separated, or not
    next to each other. *)
Lemma regex_parser_needs_adjacent_separated_pairs :
  (keys_in_order (lit "T:1.0H:2.0P:3.0WS:4.0")
   /\ @Daemon.parse_weather_data pyfloat _ (lit "T:1.0H:2.0P:3.0WS:4.0") = Ok None)
  /\ (keys_in_order (lit "T:22.6 X:1 H:50.1 P:1011.9 WS:0.00")
      /\ @Daemon.parse_weather_data pyfloat _ (lit "T:22.6 X:1 H:50.1 P:1011.9 WS:0.00")
         = Ok None).
Proof.
  assert (Hdec : forall a b : str,
             a <> [] -> all_digits a -> all_digits b ->
             unsigned_decimal (a ++ lit "." ++ b)).
  { intros a b Ha Hda Hdb. exists a, (lit "."), b. repeat split; auto. }
  split; split; try (vm_compute; reflexivity).
  - exists [], (lit "1.0"), [], (lit "2.0"), [], (lit "3.0"), [], (lit "4.0"), [].
    split; [reflexivity|].
    repeat split.
    + apply (Hdec (lit "1") (lit "0")); [done|repeat constructor..].
    + apply (Hdec (lit "2") (lit "0")); [done|repeat constructor..].
    + apply (Hdec (lit "3") (lit "0")); [done|repeat constructor..].
    + apply (Hdec (lit "4") (lit "0")); [done|repeat constructor..].
  - exists [], (lit "22.6"), (lit " X:1 "), (lit "50.1"), (lit " "),
      (lit "1011.9"), (lit " "), (lit "0.00"), [].
    split; [reflexivity|].
    repeat split.
    + apply (Hdec (lit "22") (lit "6")); [done|repeat constructor..].
    + apply (Hdec (lit "50") (lit "1")); [done|repeat constructor..].
    + apply (Hdec (lit "1011") (lit "9")); [done|repeat constructor..].
    + apply (Hdec (lit "0") (lit "00")); [done|repeat constructor..].
Qed.

End Samples.

(** ** The sender and the main loop in turn *)

Section Interleaving.
Import Daemon.
Context {F : Type}.
Variable w : world.

Lemma send_refused (weather_data : gmap str F) (timestamp : option Z) (s : @state F) :
  influx_write w (write_calls s) = false ->
  exists s',
    send_to_influxdb w weather_data timestamp s = Ret false s'
    /\ data_queue s' = data_queue s.
Proof.
  intros Hw.
  unfold send_to_influxdb, timestamp_or_now, bindM, get, now, ret, log, emit, modify.
  destruct timestamp as [t|]; cbn.
  all: match goal with
       | |- context [make_point ?a ?b] => destruct (make_point a b) as [p|]
       end; cbn.
  all: destruct (write_api s); cbn; rewrite ?Hw; cbn.
  all: eexists; split; [reflexivity|]; done.
Qed.

(** When the sink refuses every write, the batch loop returns the pairs
    it took, all of them, as the ones to put back. *)
Lemma sender_batch_all_refused (n : nat) :
  (forall k, influx_write w k = false) ->
  forall (s : @state F) (sent_count : nat) (failed_items : list (@item F)),
    (n <= qsize (data_queue s))%nat ->
    exists s1,
      sender_batch w n sent_count failed_items s =
        Ret (sent_count, failed_items ++ take n (items (data_queue s))) s1
      /\ items (data_queue s1) = drop n (items (data_queue s))
      /\ maxsize (data_queue s1) = maxsize (data_queue s).
Proof.
  intros Hw. induction n as [|n IH]; intros s sent failed Hn.
  - exists s. cbn. rewrite app_nil_r, drop_0. done.
  - unfold qsize in Hn.
    destruct (items (data_queue s)) as [|[wd ts] rest] eqn:Hit; [cbn in Hn; lia|].
    cbn [sender_batch]. unfold bindM at 1.
    rewrite (q_get_nowait_cons _ _ _ Hit).
    set (s1 := upd_data_queue _ s).
    destruct (send_refused wd (Some ts) s1 (Hw _)) as (s2 & Hsend & Hq2).
    unfold bindM at 1. rewrite Hsend.
    destruct (IH s2 sent (failed ++ [(wd, ts)])) as (s3 & Hrun & Hit3 & Hmax3).
    { unfold qsize. rewrite Hq2. subst s1. cbn in *. lia. }
    exists s3. rewrite Hq2 in Hrun, Hit3, Hmax3. subst s1. cbn in *.
    rewrite Hrun, <- app_assoc. done.
Qed.

(** On a full queue the sender puts nothing back. *)
Lemma sender_requeue_full (xs : list (@item F)) (s : @state F) :
  full (data_queue s) = true ->
  exists s', sender_requeue xs s = Ret tt s' /\ data_queue s' = data_queue s.
Proof.
  intros Hfull. revert s Hfull. induction xs as [|x xs IH]; intros s Hfull.
  - by exists s.
  - cbn [sender_requeue].
    unfold bindM at 1. unfold q_put_nowait, bindM at 1, get at 1, put_nowait.
    rewrite Hfull. cbn [ret].
    unfold bindM at 1. cbn [log emit modify].
    set (s1 := upd_trace _ s).
    destruct (IH s1 Hfull) as (s' & Hrun & Hq).
    exists s'. split; [exact Hrun|]. exact Hq.
Qed.

End Interleaving.

Section InterleavingSample.
Import FloatModel Daemon Sample.

(** The queue is full; the sender takes ten pairs and the sink refuses
    them; meanwhile the main loop queues ten new readings, which fills
    the queue again; the sender then puts its ten pairs back and all
    ten are lost, while the queue keeps what it holds. *)
Lemma sender_turn_interleaved_with_main_loop :
  let old := (reading, 0) in
  let new := (reading, 9) in
  exists s1 s2 s3,
    sender_batch down 10 0 [] (with_queue full_queue connected)
      = Ret (0%nat, replicate 10 old) s1
    /\ queue_all (replicate 10 new) s1 = Ret tt s2
    /\ items (data_queue s2) = replicate 990 old ++ replicate 10 new
    /\ sender_requeue (replicate 10 old) s2 = Ret tt s3
    /\ data_queue s3 = data_queue s2.
Proof.
  cbn zeta.
  destruct (sender_batch_all_refused down 10 (fun _ => eq_refl)
              (with_queue full_queue connected) 0%nat [])
    as (s1 & Hrun1 & Hit1 & Hmax1).
  { unfold qsize, with_queue, full_queue.
    cbn [data_queue upd_data_queue items]. rewrite length_replicate. lia. }
  unfold with_queue, full_queue in Hrun1, Hit1, Hmax1.
  cbn [data_queue upd_data_queue items maxsize app] in Hrun1, Hit1, Hmax1.
  rewrite take_replicate in Hrun1. rewrite drop_replicate in Hit1.
  change (10 `min` 1000)%nat with 10%nat in Hrun1.
  change (1000 - 10)%nat with 990%nat in Hit1.
  destruct (queue_all_effect 1000 (replicate 10 (reading, 9)) s1)
    as (s2 & Hrun2 & Hmax2 & Hit2); [lia | done | |].
  { unfold within_capacity, qsize. rewrite Hit1, Hmax1, length_replicate. lia. }
  assert (Hit2' : items (data_queue s2)
                  = replicate 990 (reading, 0) ++ replicate 10 (reading, 9)).
  { rewrite Hit2, Hit1. unfold keep_last.
    rewrite length_app, !length_replicate. reflexivity. }
  destruct (sender_requeue_full (replicate 10 (reading, 0)) s2)
    as (s3 & Hrun3 & Hq3).
  { unfold full, qsize. rewrite Hmax2, Hit2', length_app, !length_replicate.
    reflexivity. }
  exists s1, s2, s3.
  split; [exact Hrun1|]. split; [exact Hrun2|]. split; [exact Hit2'|].
  split; [exact Hrun3|exact Hq3].
Qed.

End InterleavingSample.

(** * Further properties *)

(** ** What the regular-expression parser reads *)

Section RegexFirstMatch.
Import Regex RegexSpec.

Lemma head_bind_first {A B : Type} (l : list A) (f : A -> list B) (x : A) (y : B) :
  head l = Some x -> head (f x) = Some y -> head (l ≫= f) = Some y.
Proof.
  destruct l as [|x' l]; [done|]. intros [= ->] Hy.
  rewrite bind_cons. destruct (f x) as [|y' l']; [done|]. exact Hy.
Qed.

Lemma run_class_cons (p : ascii -> bool) (c : ascii) (s : str) (g : groups) :
  run (Cls p) (c :: s) g = if p c then [(s, g)] else [].
Proof. reflexivity. Qed.

Lemma head_star_class (p : ascii -> bool) (ds rest : str) (g : groups) :
  Forall (fun c => p c = true) ds ->
  match rest with [] => True | c :: _ => p c = false end ->
  forall fuel, (length ds <= fuel)%nat ->
    head (star (run (Cls p)) fuel (ds ++ rest) g) = Some (rest, g).
Proof.
  intros Hds Hrest. induction Hds as [|c ds Hc _ IH]; intros fuel Hfuel.
  - destruct fuel as [|fuel]; [done|]. cbn [app star].
    destruct rest as [|c r]; [done|]. by rewrite run_class_cons, Hrest.
  - destruct fuel as [|fuel]; [cbn in Hfuel; lia|].
    cbn [app star]. rewrite run_class_cons, Hc. rewrite bind_cons.
    rewrite decide_True by (cbn; lia).
    specialize (IH fuel ltac:(cbn in Hfuel; lia)).
    destruct (star (run (Cls p)) fuel (ds ++ rest) g) as [|x l]; [done|].
    exact IH.
Qed.

Lemma head_run_star_class (p : ascii -> bool) (ds rest : str) (g : groups) :
  Forall (fun c => p c = true) ds ->
  match rest with [] => True | c :: _ => p c = false end ->
  head (run (Star (Cls p)) (ds ++ rest) g) = Some (rest, g).
Proof.
  intros Hds Hrest. cbn [run]. apply head_star_class; [done|done|].
  rewrite length_app. lia.
Qed.

Lemma head_run_plus_class (p : ascii -> bool) (ds rest : str) (g : groups) :
  ds <> [] ->
  Forall (fun c => p c = true) ds ->
  match rest with [] => True | c :: _ => p c = false end ->
  head (run (Plus (Cls p)) (ds ++ rest) g) = Some (rest, g).
Proof.
  intros Hne Hds Hrest. destruct Hds as [|c ds Hc Hds]; [done|].
  cbn [app]. change (run (Plus (Cls p)) (c :: ds ++ rest) g)
    with (run (Cls p) (c :: ds ++ rest) g ≫= fun '(s', g') =>
            star (run (Cls p)) (length s') s' g').
  rewrite run_class_cons, Hc. rewrite bind_cons. cbn [mbind list_bind].
  rewrite app_nil_r. apply head_star_class; [done|done|].
  rewrite length_app. lia.
Qed.

Lemma head_run_cat (a b : re) (s s1 : str) (g g1 : groups) (x : str * groups) :
  head (run a s g) = Some (s1, g1) ->
  head (run b s1 g1) = Some x ->
  head (run (Cat a b) s g) = Some x.
Proof. intros Ha Hb. cbn [run]. by eapply head_bind_first. Qed.

Lemma head_run_chr (c : ascii) (s : str) (g : groups) :
  head (run (Chr c) (c :: s) g) = Some (s, g).
Proof. cbn. by rewrite Ascii.eqb_refl. Qed.

Lemma head_run_group (i : nat) (a : re) (u rest : str) (g g1 : groups) :
  head (run a (u ++ rest) g) = Some (rest, g1) ->
  head (run (Grp i a) (u ++ rest) g) = Some (rest, <[i := u]> g1).
Proof.
  intros Ha. cbn [run].
  destruct (run a (u ++ rest) g) as [|[s' g'] l]; [done|].
  injection Ha as -> ->. cbn.
  rewrite length_app, Nat.add_sub, take_app_length. done.
Qed.

Lemma head_run_number (n rest : str) (g : groups) :
  unsigned_decimal n -> ends_number rest ->
  head (run Daemon.number (n ++ rest) g) = Some (rest, g).
Proof.
  intros (ip & dot & fp & -> & Hne & Hip & Hdot & Hfp) Hrest.
  unfold Daemon.number.
  assert (Hrest_digit : match rest with [] => True | c :: _ => isdigit c = false end).
  { destruct rest; [done|]. by destruct Hrest. }
  destruct Hdot as [-> | ->].
  - cbn [app].
    eapply head_run_cat.
    { apply head_run_plus_class; [by destruct ip|by apply Forall_app|done]. }
    eapply head_run_cat.
    { cbn [run]. destruct rest as [|c r]; [reflexivity|].
      destruct Hrest as [_ Hc]. cbn.
      destruct (Ascii.eqb_spec c "."); [done|reflexivity]. }
    change rest with ([] ++ rest) at 1.
    by apply head_run_star_class.
  - rewrite <- !app_assoc. change (lit "." ++ fp ++ rest) with ("."%char :: fp ++ rest).
    eapply head_run_cat.
    { apply head_run_plus_class; [done|done|by vm_compute]. }
    eapply head_run_cat.
    { cbn [run]. rewrite Ascii.eqb_refl. reflexivity. }
    by apply head_run_star_class.
Qed.

Lemma space_facts (c : ascii) :
  isspace c = true ->
  isdigit c = false /\ c <> "."%char /\ c <> ":"%char.
Proof.
  destruct c as [[] [] [] [] [] [] [] []]; vm_compute; intros E;
    try discriminate E; repeat split; discriminate.
Qed.

Lemma whitespace_ends_number (w rest : str) :
  whitespace w -> ends_number (w ++ rest).
Proof.
  intros [Hne Hw]. destruct Hw as [|c w Hc _]; [done|].
  cbn. by apply space_facts in Hc as (? & ? & _).
Qed.

Lemma head_run_spaces (w rest : str) (g : groups) :
  whitespace w ->
  match rest with [] => True | c :: _ => isspace c = false end ->
  head (run (Plus (Cls isspace)) (w ++ rest) g) = Some (rest, g).
Proof. intros [Hne Hw] Hrest. by apply head_run_plus_class. Qed.

(** On a text that starts with the four pairs, the first match found
    takes each number whole. *)
Lemma head_run_pattern (u n1 n2 n3 n4 post : str) :
  four_pairs u n1 n2 n3 n4 -> ends_number post ->
  head (run Daemon.pattern (u ++ post) ∅) = Some (post, groups_of n1 n2 n3 n4).
Proof.
  intros (w1 & w2 & w3 & -> & H1 & H2 & H3 & H4 & Hw1 & Hw2 & Hw3) Hpost.
  unfold Daemon.pattern, seq, groups_of. cbn [foldr].
  rewrite <- !app_assoc.
  change (lit "T:" ++ n1 ++ w1 ++ lit "H:" ++ n2 ++ w2 ++ lit "P:" ++ n3
            ++ w3 ++ lit "WS:" ++ n4 ++ post)
    with ("T"%char :: ":"%char :: n1 ++ w1 ++ "H"%char :: ":"%char :: n2 ++ w2
            ++ "P"%char :: ":"%char :: n3 ++ w3
            ++ "W"%char :: "S"%char :: ":"%char :: n4 ++ post).
  eapply head_run_cat; [apply head_run_chr|].
  eapply head_run_cat; [apply head_run_chr|].
  eapply head_run_cat.
  { apply head_run_group, head_run_number; [done|by apply whitespace_ends_number]. }
  eapply head_run_cat; [by apply head_run_spaces|].
  eapply head_run_cat; [apply head_run_chr|].
  eapply head_run_cat; [apply head_run_chr|].
  eapply head_run_cat.
  { apply head_run_group, head_run_number; [done|by apply whitespace_ends_number]. }
  eapply head_run_cat; [by apply head_run_spaces|].
  eapply head_run_cat; [apply head_run_chr|].
  eapply head_run_cat; [apply head_run_chr|].
  eapply head_run_cat.
  { apply head_run_group, head_run_number; [done|by apply whitespace_ends_number]. }
  eapply head_run_cat; [by apply head_run_spaces|].
  eapply head_run_cat; [apply head_run_chr|].
  eapply head_run_cat; [apply head_run_chr|].
  eapply head_run_cat; [apply head_run_chr|].
  eapply head_run_cat.
  { apply head_run_group, head_run_number; [done|done]. }
  reflexivity.
Qed.

Lemma search_leading_pairs (u n1 n2 n3 n4 post : str) :
  four_pairs u n1 n2 n3 n4 -> ends_number post ->
  search Daemon.pattern (u ++ post) = Some (groups_of n1 n2 n3 n4).
Proof.
  intros Hu Hpost.
  assert (Hm : match_at Daemon.pattern (u ++ post) = Some (groups_of n1 n2 n3 n4)).
  { unfold match_at. pose proof (head_run_pattern u n1 n2 n3 n4 post Hu Hpost) as Hh.
    destruct (run Daemon.pattern (u ++ post) ∅) as [|[s' g'] l]; [done|].
    by injection Hh as _ ->. }
  destruct (u ++ post); cbn [search]; by rewrite Hm.
Qed.

End RegexFirstMatch.

Section RegexParserValues.
Import Regex RegexSpec.
Context {F : Type} `{PyFloat F}.

(** X1.  The parser of [weather-daemon.py] on a line that starts with the
    four pairs, the fourth number ending where the rest of the line
    begins: the reading holds what [float] makes of the four numbers,
    each taken whole. *)
Theorem regex_parser_reads_whole_numbers (u n1 n2 n3 n4 post : str) (t h p ws : F) :
  four_pairs u n1 n2 n3 n4 -> ends_number post ->
  float n1 = Ok t -> float n2 = Ok h -> float n3 = Ok p -> float n4 = Ok ws ->
  Daemon.parse_weather_data (u ++ post)
  = Ok (Some (<[lit "wind_speed" := ws]>
             (<[lit "pressure" := p]>
             (<[lit "humidity" := h]>
             (<[lit "temperature" := t]> ∅))))).
Proof.
  intros Hu Hpost Ht Hh Hp Hws.
  unfold Daemon.parse_weather_data.
  rewrite (search_leading_pairs u n1 n2 n3 n4 post Hu Hpost).
  unfold Daemon.float_group, groups_of.
  rewrite lookup_insert_ne, lookup_insert_ne, lookup_insert_ne by done.
  rewrite lookup_insert_eq, Ht. cbn [bind].
  rewrite lookup_insert_ne, lookup_insert_ne by done.
  rewrite lookup_insert_eq, Hh. cbn [bind].
  rewrite lookup_insert_ne by done.
  rewrite lookup_insert_eq, Hp. cbn [bind].
  rewrite lookup_insert_eq, Hws. cbn [bind].
  reflexivity.
Qed.

End RegexParserValues.

(** ** The two parsers on the line the station sends *)

Section ParsersAgree.
Import Regex RegexSpec.
Context {F : Type} `{PyFloat F}.

Lemma split_no_sep (sep : ascii) (a : str) :
  Forall (fun c => c <> sep) a -> split sep a = [a].
Proof.
  induction 1 as [|c a Hc _ IH]; [done|].
  cbn. destruct (Ascii.eqb_spec c sep); [done|]. by rewrite IH.
Qed.

Lemma split_app_sep (sep : ascii) (a b : str) :
  Forall (fun c => c <> sep) a ->
  split sep (a ++ sep :: b) = a :: split sep b.
Proof.
  induction 1 as [|c a Hc _ IH].
  - cbn. by rewrite Ascii.eqb_refl.
  - cbn. destruct (Ascii.eqb_spec c sep); [done|]. by rewrite IH.
Qed.

Lemma lstrip_head (c : ascii) (s : str) :
  isspace c = false -> lstrip (c :: s) = c :: s.
Proof. intros Hc. cbn. by rewrite Hc. Qed.

(** [strip] leaves a text alone whose first and last characters are not
    whitespace. *)
Lemma strip_ends (c d : ascii) (s : str) :
  isspace c = false -> isspace d = false ->
  strip (c :: s ++ [d]) = c :: s ++ [d].
Proof.
  intros Hc Hd. unfold strip, rstrip. rewrite (lstrip_head c _ Hc).
  change (c :: s ++ [d]) with ((c :: s) ++ [d]).
  rewrite rev_app_distr. cbn [rev app]. rewrite (lstrip_head d _ Hd).
  cbn [rev]. rewrite rev_app_distr, rev_involutive. reflexivity.
Qed.

Lemma decimal_chars (n : str) :
  unsigned_decimal n ->
  Forall (fun c => isspace c = false /\ c <> " "%char /\ c <> ":"%char) n.
Proof.
  intros (ip & dot & fp & -> & _ & Hip & Hdot & Hfp).
  assert (Hd : forall l, all_digits l ->
            Forall (fun c => isspace c = false /\ c <> " "%char /\ c <> ":"%char) l).
  { intros l Hl. eapply Forall_impl; [exact Hl|]. intros c Hc. cbn beta.
    destruct c as [[] [] [] [] [] [] [] []]; vm_compute in Hc;
      try discriminate Hc; repeat split; discriminate. }
  apply Forall_app. split; [by apply Hd|]. apply Forall_app. split; [|by apply Hd].
  destruct Hdot as [-> | ->]; [constructor|]. repeat constructor; discriminate.
Qed.

Lemma decimal_last (n : str) :
  unsigned_decimal n -> exists m d, n = m ++ [d] /\ isspace d = false.
Proof.
  intros Hn. pose proof (decimal_chars n Hn) as Hall.
  destruct Hn as (ip & dot & fp & Hn & Hne & _).
  destruct n as [|c n] using rev_ind.
  - destruct ip; [done|discriminate Hn].
  - exists n, c. split; [done|].
    apply Forall_app in Hall as [_ Hc]. by apply Forall_singleton in Hc as [? _].
Qed.

Lemma split1_at_colon (k n : str) :
  Forall (fun c => c <> ":"%char) k ->
  contains ":" (k ++ ":"%char :: n) = true
  /\ split1 ":" (k ++ ":"%char :: n) = (k, n).
Proof.
  induction 1 as [|c k Hc _ [IH1 IH2]]; [done|].
  cbn. destruct (Ascii.eqb_spec c ":"); [done|].
  unfold contains in IH1. rewrite IH1, IH2, orb_true_r. done.
Qed.

(** One token [key:number] whose number [float] reads. *)
Lemma parse_pair_token (k n : str) (d : gmap str F) (x : F) :
  Forall (fun c => c <> ":"%char) k ->
  strip k = k -> strip n = n -> float n = Ok x ->
  Collector.parse_pair d (k ++ ":"%char :: n)
  = Ok (<[Collector.field_mapping_get k := x]> d).
Proof.
  intros Hk Hsk Hsn Hx. unfold Collector.parse_pair.
  destruct (split1_at_colon k n Hk) as [-> ->].
  by rewrite Hsk, Hsn, Hx.
Qed.

Lemma tokens_clean_line (n1 n2 n3 n4 : str) :
  unsigned_decimal n1 -> unsigned_decimal n2 ->
  unsigned_decimal n3 -> unsigned_decimal n4 ->
  strip (clean_line n1 n2 n3 n4) = clean_line n1 n2 n3 n4
  /\ split " " (clean_line n1 n2 n3 n4)
     = [lit "T:" ++ n1; lit "H:" ++ n2; lit "P:" ++ n3; lit "WS:" ++ n4].
Proof.
  intros H1 H2 H3 H4.
  assert (Hsp : forall n, unsigned_decimal n -> Forall (fun c => c <> " "%char) n).
  { intros n Hn. eapply Forall_impl; [exact (decimal_chars n Hn)|]. by intros c (_ & ? & _). }
  split.
  - destruct (decimal_last n4 H4) as (m & d & -> & Hd). unfold clean_line.
    change (lit "T:" ++ n1 ++ lit " H:" ++ n2 ++ lit " P:" ++ n3 ++ lit " WS:" ++ m ++ [d])
      with ("T"%char :: (":"%char :: n1 ++ lit " H:" ++ n2 ++ lit " P:" ++ n3
                          ++ lit " WS:" ++ m ++ [d])).
    replace (":"%char :: n1 ++ lit " H:" ++ n2 ++ lit " P:" ++ n3 ++ lit " WS:" ++ m ++ [d])
      with ((":"%char :: n1 ++ lit " H:" ++ n2 ++ lit " P:" ++ n3 ++ lit " WS:" ++ m) ++ [d])
      by (cbn; repeat (rewrite <- app_assoc; cbn); reflexivity).
    by apply strip_ends.
  - unfold clean_line.
    change (lit "T:" ++ n1 ++ lit " H:" ++ n2 ++ lit " P:" ++ n3 ++ lit " WS:" ++ n4)
      with (lit "T:" ++ n1 ++ " "%char :: lit "H:" ++ n2 ++ " "%char :: lit "P:" ++ n3
              ++ " "%char :: lit "WS:" ++ n4).
    rewrite (app_assoc (lit "T:") n1).
    rewrite split_app_sep by (apply Forall_app; split; [by repeat constructor|by apply Hsp]).
    rewrite (app_assoc (lit "H:") n2).
    rewrite split_app_sep by (apply Forall_app; split; [by repeat constructor|by apply Hsp]).
    rewrite (app_assoc (lit "P:") n3).
    rewrite split_app_sep by (apply Forall_app; split; [by repeat constructor|by apply Hsp]).
    rewrite split_no_sep by (apply Forall_app; split; [by repeat constructor|by apply Hsp]).
    reflexivity.
Qed.

(** X2.  On the line the station sends, both parsers return the same four
    numbers: temperature, humidity and pressure under the same names,
    and the wind speed as windspeed in [weather_daemon.py] and as
    wind_speed in [weather-daemon.py]. *)
Theorem parsers_agree_on_clean_line (n1 n2 n3 n4 : str) (t h p ws : F) :
  unsigned_decimal n1 -> unsigned_decimal n2 ->
  unsigned_decimal n3 -> unsigned_decimal n4 ->
  float n1 = Ok t -> float n2 = Ok h -> float n3 = Ok p -> float n4 = Ok ws ->
  Collector.parse_weather_data (clean_line n1 n2 n3 n4)
  = Ok (Some (<[lit "windspeed" := ws]>
             (<[lit "pressure" := p]>
             (<[lit "humidity" := h]>
             (<[lit "temperature" := t]> ∅)))))
  /\ Daemon.parse_weather_data (clean_line n1 n2 n3 n4)
     = Ok (Some (<[lit "wind_speed" := ws]>
                (<[lit "pressure" := p]>
                (<[lit "humidity" := h]>
                (<[lit "temperature" := t]> ∅))))).
Proof.
  intros H1 H2 H3 H4 Ht Hh Hp Hws.
  assert (Hstrip : forall n, unsigned_decimal n -> strip n = n).
  { intros n Hn. apply strip_no_space.
    eapply Forall_impl; [exact (decimal_chars n Hn)|]. by intros c (? & _). }
  split.
  - destruct (tokens_clean_line n1 n2 n3 n4 H1 H2 H3 H4) as [Hs Htok].
    unfold Collector.parse_weather_data, Collector.parse_body.
    rewrite Hs, Htok.
    rewrite decide_False by done.
    cbn [Collector.parse_pairs].
    change (lit "T:" ++ n1) with (lit "T" ++ ":"%char :: n1).
    change (lit "H:" ++ n2) with (lit "H" ++ ":"%char :: n2).
    change (lit "P:" ++ n3) with (lit "P" ++ ":"%char :: n3).
    change (lit "WS:" ++ n4) with (lit "WS" ++ ":"%char :: n4).
    rewrite (parse_pair_token (lit "T") n1 _ t); [|by repeat constructor|done|by apply Hstrip|done].
    cbn [bind].
    rewrite (parse_pair_token (lit "H") n2 _ h); [|by repeat constructor|done|by apply Hstrip|done].
    cbn [bind].
    rewrite (parse_pair_token (lit "P") n3 _ p); [|by repeat constructor|done|by apply Hstrip|done].
    cbn [bind].
    rewrite (parse_pair_token (lit "WS") n4 _ ws); [|by repeat constructor|done|by apply Hstrip|done].
    cbn [bind try_except].
    unfold Collector.nonempty_or_none.
    rewrite decide_False by apply insert_non_empty. reflexivity.
  - assert (Hfour : four_pairs (clean_line n1 n2 n3 n4) n1 n2 n3 n4).
    { exists (lit " "), (lit " "), (lit " "). split; [reflexivity|].
      repeat split; try done; by repeat constructor. }
    unfold Daemon.parse_weather_data.
    rewrite <- (app_nil_r (clean_line n1 n2 n3 n4)).
    rewrite (search_leading_pairs _ n1 n2 n3 n4 [] Hfour I).
    unfold Daemon.float_group, groups_of.
    rewrite lookup_insert_ne, lookup_insert_ne, lookup_insert_ne by done.
    rewrite lookup_insert_eq, Ht. cbn [bind].
    rewrite lookup_insert_ne, lookup_insert_ne by done.
    rewrite lookup_insert_eq, Hh. cbn [bind].
    rewrite lookup_insert_ne by done.
    rewrite lookup_insert_eq, Hp. cbn [bind].
    rewrite lookup_insert_eq, Hws. cbn [bind].
    reflexivity.
Qed.

End ParsersAgree.

(** ** A small logic of the daemon's computations *)

Section Computations.
Import Daemon.
Context {F : Type}.

Lemma keeps_bind {A B : Type} (R : @state F -> @state F -> Prop) `{!PreOrder R}
    (m : @M F A) (k : A -> @M F B) :
  keeps R m -> (forall a, keeps R (k a)) -> keeps R (bindM m k).
Proof.
  intros Hm Hk s. unfold bindM. specialize (Hm s).
  destruct (m s) as [a s1|c s1]; cbn in *; [|exact Hm].
  etransitivity; [exact Hm|apply Hk].
Qed.

Lemma keeps_ret {A : Type} (R : @state F -> @state F -> Prop) `{!PreOrder R} (a : A) :
  keeps R (ret a).
Proof. intros s. cbn. reflexivity. Qed.

Lemma keeps_get (R : @state F -> @state F -> Prop) `{!PreOrder R} : keeps R get.
Proof. intros s. cbn. reflexivity. Qed.

Lemma keeps_now (R : @state F -> @state F -> Prop) `{!PreOrder R} : keeps R now.
Proof. intros s. cbn. reflexivity. Qed.

Lemma keeps_modify (R : @state F -> @state F -> Prop) (f : @state F -> @state F) :
  (forall s, R s (f s)) -> keeps R (modify f).
Proof. intros Hf s. apply Hf. Qed.

Lemma keeps_when (R : @state F -> @state F -> Prop) `{!PreOrder R}
    (b : bool) (m : @M F unit) :
  keeps R m -> keeps R (when b m).
Proof. destruct b; [done|]. intros _. by apply keeps_ret. Qed.

Lemma keeps_os_exit {A : Type} (R : @state F -> @state F -> Prop) (code : Z) :
  (forall s, R s (upd_trace (fun t => t ++ [EvExit code]) s)) ->
  keeps R (@os_exit F A code).
Proof. intros Hf s. apply Hf. Qed.

Lemma keeps_emit (R : @state F -> @state F -> Prop) (e : @event F) :
  (forall f s, R s (upd_trace f s)) -> keeps R (emit e).
Proof. intros Ht s. apply Ht. Qed.

Lemma keeps_log (R : @state F -> @state F -> Prop) (l : level) (m : message) :
  (forall f s, R s (upd_trace f s)) -> keeps R (log l m).
Proof. apply keeps_emit. Qed.

Lemma keeps_sleep (R : @state F -> @state F -> Prop) `{!PreOrder R} (d : Z) :
  (forall f s, R s (upd_trace f s)) -> (forall f s, R s (upd_clock f s)) ->
  keeps R (sleep d).
Proof.
  intros Ht Hc. unfold sleep.
  refine (keeps_bind _ _ _ _ _); [by apply keeps_modify|intros _; by apply keeps_emit].
Qed.

Lemma exits_bind {A B : Type} (P : Prop) (m : @M F A) (k : A -> @M F B) :
  exits_only_if P m -> (forall a, exits_only_if P (k a)) ->
  exits_only_if P (bindM m k).
Proof.
  intros Hm Hk s c. unfold bindM. specialize (Hm s c).
  destruct (m s) as [a s1|c1 s1]; cbn in *; [apply Hk|exact Hm].
Qed.

Lemma exits_ret {A : Type} (P : Prop) (a : A) : exits_only_if P (@ret F A a).
Proof. by intros s c. Qed.

Lemma exits_get (P : Prop) : exits_only_if P (@get F).
Proof. by intros s c. Qed.

Lemma exits_now (P : Prop) : exits_only_if P (@now F).
Proof. by intros s c. Qed.

Lemma exits_modify (P : Prop) (f : @state F -> @state F) : exits_only_if P (modify f).
Proof. by intros s c. Qed.

Lemma exits_emit (P : Prop) (e : @event F) : exits_only_if P (emit e).
Proof. by intros s c. Qed.

Lemma exits_log (P : Prop) (l : level) (m : message) : exits_only_if P (@log F l m).
Proof. by intros s c. Qed.

Lemma exits_sleep (P : Prop) (d : Z) : exits_only_if P (@sleep F d).
Proof. by intros s c. Qed.

Lemma exits_when (P : Prop) (b : bool) (m : @M F unit) :
  exits_only_if P m -> exits_only_if P (when b m).
Proof. destruct b; [done|]. intros _. apply exits_ret. Qed.

Lemma exits_os_exit {A : Type} (P : Prop) :
  P -> exits_only_if P (@os_exit F A 1).
Proof. intros HP s c [= <-]. done. Qed.

Lemma exits_weaken {A : Type} (P Q : Prop) (m : @M F A) :
  (P -> Q) -> exits_only_if P m -> exits_only_if Q m.
Proof. intros HPQ Hm s c Hc. destruct (Hm s c Hc). auto. Qed.

End Computations.

(** The two predicates are proved along the structure of a computation:
    one step for each construct of the monad. *)
Ltac exits_step :=
  match goal with
  | |- exits_only_if _ (if ?b then _ else _) => destruct b eqn:?
  | |- exits_only_if _ (match ?x with _ => _ end) => destruct x eqn:?
  | |- exits_only_if _ (Daemon.bindM _ _) => apply exits_bind; [|intros ?]
  | |- exits_only_if _ (Daemon.ret _) => apply exits_ret
  | |- exits_only_if _ Daemon.get => apply exits_get
  | |- exits_only_if _ Daemon.now => apply exits_now
  | |- exits_only_if _ (Daemon.modify _) => apply exits_modify
  | |- exits_only_if _ (Daemon.emit _) => apply exits_emit
  | |- exits_only_if _ (Daemon.log _ _) => apply exits_log
  | |- exits_only_if _ (Daemon.sleep _) => apply exits_sleep
  | |- exits_only_if _ (Daemon.when _ _) => apply exits_when
  end.

Ltac exits := repeat exits_step.

Ltac keeps_step :=
  match goal with
  | |- keeps _ (if ?b then _ else _) => destruct b eqn:?
  | |- keeps _ (match ?x with _ => _ end) => destruct x eqn:?
  | |- keeps _ (Daemon.bindM _ _) => refine (keeps_bind _ _ _ _ _); [|intros ?]
  | |- keeps _ (Daemon.ret _) => exact (keeps_ret _ _)
  | |- keeps _ Daemon.get => exact (keeps_get _)
  | |- keeps _ Daemon.now => exact (keeps_now _)
  | |- keeps _ (Daemon.modify _) =>
      apply keeps_modify; solve [auto | intros; reflexivity]
  | |- keeps _ (Daemon.when _ _) => refine (keeps_when _ _ _ _)
  | |- keeps _ (Daemon.emit _) =>
      refine (keeps_emit _ _ _); solve [auto | intros; reflexivity]
  | |- keeps _ (Daemon.log _ _) =>
      refine (keeps_log _ _ _ _); solve [auto | intros; reflexivity]
  | |- keeps _ (Daemon.sleep _) =>
      refine (keeps_sleep _ _ _ _); solve [auto | intros; reflexivity]
  | |- keeps _ (Daemon.os_exit _) =>
      apply keeps_os_exit; solve [auto | intros; reflexivity]
  end.

Ltac keeps_all := repeat keeps_step.

(** ** How the process can end *)

Section ProcessEnd.
Import Daemon.
Context {F : Type} `{PyFloat F}.
Variable cfg : config.
Variable w : world.

Lemma exits_serial_attempt (P : Prop) : exits_only_if (F := F) P (serial_attempt w).
Proof. unfold serial_attempt. exits. Qed.

Lemma exits_connect_serial_loop (P : Prop) (fuel : nat) :
  forall r, exits_only_if (F := F) P (connect_serial_loop cfg w fuel r).
Proof.
  induction fuel as [|fuel IH]; intros r; cbn [connect_serial_loop]; [apply exits_ret|].
  exits; try apply exits_serial_attempt; apply IH.
Qed.

Lemma exits_connect_serial (P : Prop) : exits_only_if (F := F) P (connect_serial cfg w).
Proof. apply exits_connect_serial_loop. Qed.

Lemma exits_influx_attempt (P : Prop) : exits_only_if (F := F) P (influx_attempt w).
Proof. unfold influx_attempt. exits. Qed.

Lemma exits_connect_influxdb_loop (P : Prop) (fuel : nat) :
  forall r, exits_only_if (F := F) P (connect_influxdb_loop cfg w fuel r).
Proof.
  induction fuel as [|fuel IH]; intros r; cbn [connect_influxdb_loop]; [apply exits_ret|].
  exits; try apply exits_influx_attempt; apply IH.
Qed.

Lemma exits_connect_influxdb (P : Prop) : exits_only_if (F := F) P (connect_influxdb cfg w).
Proof. apply exits_connect_influxdb_loop. Qed.

Lemma exits_send_to_influxdb (P : Prop) (weather_data : gmap str F) (timestamp : option Z) :
  exits_only_if P (send_to_influxdb w weather_data timestamp).
Proof. unfold send_to_influxdb, timestamp_or_now. exits. Qed.

Lemma exits_q_get_nowait (P : Prop) : exits_only_if P (@q_get_nowait F).
Proof. unfold q_get_nowait. exits. Qed.

Lemma exits_q_put_nowait (P : Prop) (x : @item F) : exits_only_if P (q_put_nowait x).
Proof. unfold q_put_nowait. exits. Qed.

Lemma exits_queue_data (P : Prop) (weather_data : gmap str F) (timestamp : option Z) :
  exits_only_if P (queue_data weather_data timestamp).
Proof.
  unfold queue_data, timestamp_or_now.
  exits; first [apply exits_q_get_nowait | apply exits_q_put_nowait].
Qed.

Lemma exits_sender_batch (P : Prop) (n : nat) :
  forall (sent_count : nat) (failed_items : list (@item F)),
    exits_only_if P (sender_batch w n sent_count failed_items).
Proof.
  induction n as [|n IH]; intros sent_count failed_items; cbn [sender_batch];
    [apply exits_ret|].
  exits; first [apply exits_q_get_nowait | apply exits_send_to_influxdb | apply IH].
Qed.

Lemma exits_sender_requeue (P : Prop) (failed_items : list (@item F)) :
  exits_only_if P (sender_requeue failed_items).
Proof.
  induction failed_items as [|x rest IH]; cbn [sender_requeue]; [apply exits_ret|].
  exits; first [apply exits_q_put_nowait | apply IH].
Qed.

Lemma exits_data_sender_cycle (P : Prop) : exits_only_if (F := F) P (data_sender_cycle cfg w).
Proof.
  unfold data_sender_cycle.
  exits; first [apply exits_sender_batch | apply exits_sender_requeue].
Qed.

Lemma exits_cleanup_batch (P : Prop) (n : nat) : exits_only_if (F := F) P (cleanup_batch w n).
Proof.
  induction n as [|n IH]; cbn [cleanup_batch]; [apply exits_ret|].
  exits; first [apply exits_q_get_nowait | apply exits_send_to_influxdb | apply IH].
Qed.

Lemma exits_cleanup_drain (P : Prop) : exits_only_if (F := F) P (cleanup_drain w).
Proof. unfold cleanup_drain. exits. apply exits_cleanup_batch. Qed.

Lemma exits_watchdog_rest (now_ : Z) :
  exits_only_if (F := F) (restart_on_hang cfg = true) (watchdog_rest cfg now_).
Proof.
  unfold watchdog_rest. exits. by apply exits_os_exit.
Qed.

Lemma exits_watchdog_cycle :
  exits_only_if (F := F) (restart_on_hang cfg = true) (watchdog_cycle cfg w).
Proof.
  unfold watchdog_cycle. exits;
    first [apply exits_connect_serial | apply exits_watchdog_rest].
Qed.

Lemma exits_handle_line (P : Prop) (line : str) (consecutive_errors : nat) :
  exits_only_if P (handle_line w line consecutive_errors).
Proof.
  unfold handle_line.
  exits; first [apply exits_send_to_influxdb | apply exits_queue_data].
Qed.

Lemma exits_read_serial (P : Prop) (consecutive_errors : nat) :
  exits_only_if P (read_serial cfg w consecutive_errors).
Proof.
  unfold read_serial.
  exits; first [apply exits_handle_line | apply exits_connect_serial].
Qed.

Lemma exits_run_rest (consecutive_errors : nat) (r : result nat) :
  exits_only_if (F := F) (restart_on_hang cfg = true) (run_rest cfg consecutive_errors r).
Proof.
  unfold run_rest. exits. by apply exits_os_exit.
Qed.

Lemma exits_run_iteration (consecutive_errors : nat) :
  exits_only_if (restart_on_hang cfg = true) (run_iteration cfg w consecutive_errors).
Proof.
  unfold run_iteration.
  exits; first [apply exits_connect_serial | apply exits_connect_influxdb
               | apply exits_read_serial | apply exits_run_rest].
Qed.

Lemma exits_run_iterations (n : nat) :
  forall consecutive_errors,
    exits_only_if (restart_on_hang cfg = true) (run_iterations cfg w n consecutive_errors).
Proof.
  induction n as [|n IH]; intros consecutive_errors; cbn [run_iterations];
    [apply exits_ret|].
  apply exits_bind; [apply exits_run_iteration|intros ?; apply IH].
Qed.

End ProcessEnd.

(** ** What a computation leaves alone *)

Section QueueFrames.
Import Daemon.
Context {F : Type}.
Variable R : @state F -> @state F -> Prop.
Context `{!PreOrder R}.
Hypothesis R_data_queue : forall f s, R s (upd_data_queue f s).

Lemma keeps_q_get_nowait : keeps R (@q_get_nowait F).
Proof. unfold q_get_nowait. keeps_all. Qed.

Lemma keeps_q_put_nowait (x : @item F) : keeps R (q_put_nowait x).
Proof. unfold q_put_nowait. keeps_all. Qed.

End QueueFrames.

Section Frames.
Import Daemon.
Context {F : Type} `{PyFloat F}.
Variable cfg : config.
Variable w : world.
Variable R : @state F -> @state F -> Prop.
Context `{!PreOrder R}.

Hypothesis R_trace : forall f s, R s (upd_trace f s).
Hypothesis R_clock : forall f s, R s (upd_clock f s).

Section Serial.
Hypothesis R_serial_connection : forall f s, R s (upd_serial_connection f s).
Hypothesis R_serial_calls : forall f s, R s (upd_serial_calls f s).
Hypothesis R_serial_retry_count : forall f s, R s (upd_serial_retry_count f s).

Lemma keeps_serial_attempt : keeps R (serial_attempt w).
Proof. unfold serial_attempt. keeps_all; auto. Qed.

Lemma keeps_connect_serial_loop (fuel : nat) :
  forall r, keeps R (connect_serial_loop cfg w fuel r).
Proof.
  induction fuel as [|fuel IH]; intros r; cbn [connect_serial_loop];
    [exact (keeps_ret _ _)|].
  keeps_all; auto using keeps_serial_attempt.
Qed.

Lemma keeps_connect_serial : keeps R (connect_serial cfg w).
Proof. apply keeps_connect_serial_loop. Qed.

Lemma keeps_watchdog_rest (now_ : Z) : keeps R (watchdog_rest cfg now_).
Proof. unfold watchdog_rest. keeps_all; auto. Qed.

Lemma keeps_watchdog_cycle : keeps R (watchdog_cycle cfg w).
Proof.
  unfold watchdog_cycle. keeps_all; auto using keeps_connect_serial, keeps_watchdog_rest.
Qed.

End Serial.

Section Influx.
Hypothesis R_influx_client : forall f s, R s (upd_influx_client f s).
Hypothesis R_write_api : forall f s, R s (upd_write_api f s).
Hypothesis R_influx_calls : forall f s, R s (upd_influx_calls f s).
Hypothesis R_influx_retry_count : forall f s, R s (upd_influx_retry_count f s).

Lemma keeps_influx_attempt : keeps R (influx_attempt w).
Proof. unfold influx_attempt. keeps_all; auto. Qed.

Lemma keeps_connect_influxdb_loop (fuel : nat) :
  forall r, keeps R (connect_influxdb_loop cfg w fuel r).
Proof.
  induction fuel as [|fuel IH]; intros r; cbn [connect_influxdb_loop];
    [exact (keeps_ret _ _)|].
  keeps_all; auto using keeps_influx_attempt.
Qed.

Lemma keeps_connect_influxdb : keeps R (connect_influxdb cfg w).
Proof. apply keeps_connect_influxdb_loop. Qed.

End Influx.

Section Queue.
Hypothesis R_write_calls : forall f s, R s (upd_write_calls f s).
Hypothesis R_sink : forall f s, R s (upd_sink f s).
Hypothesis R_get : keeps R (@q_get_nowait F).
Hypothesis R_put : forall x, keeps R (@q_put_nowait F x).

Lemma keeps_send_to_influxdb (weather_data : gmap str F) (timestamp : option Z) :
  keeps R (send_to_influxdb w weather_data timestamp).
Proof. unfold send_to_influxdb, timestamp_or_now. keeps_all; auto. Qed.

Lemma keeps_queue_data (weather_data : gmap str F) (timestamp : option Z) :
  keeps R (queue_data weather_data timestamp).
Proof. unfold queue_data, timestamp_or_now. keeps_all; auto. Qed.

Lemma keeps_sender_batch (n : nat) :
  forall (sent_count : nat) (failed_items : list (@item F)),
    keeps R (sender_batch w n sent_count failed_items).
Proof.
  induction n as [|n IH]; intros sent_count failed_items; cbn [sender_batch];
    [exact (keeps_ret _ _)|].
  keeps_all; auto using keeps_send_to_influxdb.
Qed.

Lemma keeps_sender_requeue (failed_items : list (@item F)) :
  keeps R (sender_requeue failed_items).
Proof.
  induction failed_items as [|x rest IH]; cbn [sender_requeue];
    [exact (keeps_ret _ _)|].
  keeps_all; auto.
Qed.

Lemma keeps_data_sender_cycle : keeps R (data_sender_cycle cfg w).
Proof.
  unfold data_sender_cycle.
  keeps_all; auto using keeps_sender_batch, keeps_sender_requeue.
Qed.

Lemma keeps_cleanup_batch (n : nat) : keeps R (cleanup_batch w n).
Proof.
  induction n as [|n IH]; cbn [cleanup_batch]; [exact (keeps_ret _ _)|].
  keeps_all; auto using keeps_send_to_influxdb.
Qed.

Lemma keeps_cleanup_drain : keeps R (cleanup_drain w).
Proof. unfold cleanup_drain. keeps_all; auto using keeps_cleanup_batch. Qed.

Section MainLoop.
Hypothesis R_serial_connection : forall f s, R s (upd_serial_connection f s).
Hypothesis R_serial_calls : forall f s, R s (upd_serial_calls f s).
Hypothesis R_serial_retry_count : forall f s, R s (upd_serial_retry_count f s).
Hypothesis R_influx_client : forall f s, R s (upd_influx_client f s).
Hypothesis R_write_api : forall f s, R s (upd_write_api f s).
Hypothesis R_influx_calls : forall f s, R s (upd_influx_calls f s).
Hypothesis R_influx_retry_count : forall f s, R s (upd_influx_retry_count f s).
Hypothesis R_read_calls : forall f s, R s (upd_read_calls f s).

Lemma keeps_run_rest (consecutive_errors : nat) (r : result nat) :
  keeps R (run_rest cfg consecutive_errors r).
Proof. unfold run_rest. keeps_all; auto. Qed.

Section Readings.
Hypothesis R_last_data_time : forall f s, R s (upd_last_data_time f s).

Lemma keeps_handle_line (line : str) (consecutive_errors : nat) :
  keeps R (handle_line w line consecutive_errors).
Proof.
  unfold handle_line.
  keeps_all; auto using keeps_send_to_influxdb, keeps_queue_data.
Qed.

Lemma keeps_read_serial (consecutive_errors : nat) :
  keeps R (read_serial cfg w consecutive_errors).
Proof.
  unfold read_serial.
  keeps_all; auto using keeps_handle_line, keeps_connect_serial.
Qed.

Hypothesis R_last_heartbeat : forall f s, R s (upd_last_heartbeat f s).

Lemma keeps_run_iteration (consecutive_errors : nat) :
  keeps R (run_iteration cfg w consecutive_errors).
Proof.
  unfold run_iteration.
  keeps_all;
    auto using keeps_connect_serial, keeps_connect_influxdb, keeps_read_serial,
      keeps_run_rest.
Qed.

End Readings.
End MainLoop.
End Queue.
End Frames.

(** ** The bound of the queue in every reachable state *)

Section QueueBound.
Import Daemon.
Context {F : Type} `{PyFloat F}.
Variable cfg : config.
Variable w : world.

Lemma keeps_bound_preorder : PreOrder (@keeps_bound F).
Proof.
  split.
  - intros s Hs. done.
  - intros s1 s2 s3 H12 H23 H1.
    destruct (H12 H1) as [H2 E2]. destruct (H23 H2) as [H3 E3].
    split; [done|]. by rewrite E3.
Qed.

#[local] Existing Instance keeps_bound_preorder.

Lemma keeps_bound_get : keeps keeps_bound (@q_get_nowait F).
Proof.
  intros s [Hpos Hcap]. unfold q_get_nowait, bindM, get, get_nowait.
  destruct (items (data_queue s)) as [|x rest] eqn:E; cbn.
  - done.
  - split; [|done]. split; [done|].
    unfold within_capacity, qsize in *. cbn. rewrite E in Hcap. cbn in Hcap. lia.
Qed.

Lemma keeps_bound_put (x : @item F) : keeps keeps_bound (q_put_nowait x).
Proof.
  intros s [Hpos Hcap]. unfold q_put_nowait, bindM, get, put_nowait.
  destruct (full (data_queue s)) eqn:E; cbn.
  - done.
  - split; [|done]. split; [done|].
    unfold within_capacity, qsize, full in *. cbn. rewrite length_app. cbn.
    apply andb_false_iff in E as [E|E].
    + apply Z.ltb_ge in E. lia.
    + apply Z.leb_gt in E. unfold qsize in E. lia.
Qed.

Lemma turn_keeps_bound (s s' : @state F) :
  turn cfg w s s' -> keeps_bound s s'.
Proof.
  destruct 1.
  - apply (keeps_run_iteration cfg w keeps_bound); try done;
      auto using keeps_bound_get, keeps_bound_put.
  - apply (keeps_data_sender_cycle cfg w keeps_bound); try done;
      auto using keeps_bound_get, keeps_bound_put.
  - apply (keeps_watchdog_cycle cfg w keeps_bound); done.
  - apply (keeps_cleanup_drain w keeps_bound); try done;
      auto using keeps_bound_get, keeps_bound_put.
Qed.

(** X4.  Whatever the order in which the turns of the main loop, the sender
    thread and the watchdog are taken, and whatever the port and the sink
    do, the queue never holds more than the 1000 readings [__init__]
    gives it room for. *)
Theorem queue_bounded_in_every_reachable_state (t : Z) (s : @state F) :
  reachable cfg w t s ->
  maxsize (data_queue s) = 1000 /\ (qsize (data_queue s) <= 1000)%nat.
Proof.
  intros Hr.
  assert (Hb : forall s1 s2 : @state F,
             rtc (turn cfg w) s1 s2 ->
             bounded_queue s1 /\ maxsize (data_queue s1) = 1000 ->
             bounded_queue s2 /\ maxsize (data_queue s2) = 1000).
  { induction 1 as [|s1 s2 s3 H12 _ IH]; [done|].
    intros [Hb1 Hm1]. apply IH.
    destruct (turn_keeps_bound _ _ H12 Hb1) as [Hb2 Hm2].
    split; [done|]. by rewrite Hm2. }
  destruct (Hb _ _ Hr) as [[_ Hcap] Hmax].
  { split; [|done]. split; [done|]. unfold within_capacity. cbn. lia. }
  split; [done|]. unfold within_capacity in Hcap. lia.
Qed.

End QueueBound.

(** ** The watchdog and the heartbeat *)

Section Heartbeat.
Import Daemon.
Context {F : Type} `{PyFloat F}.
Variable cfg : config.
Variable w : world.

Local Arguments Nat.ltb : simpl never.
Local Arguments Nat.leb : simpl never.

Lemma same_preorder {X : Type} (field : @state F -> X) : PreOrder (same field).
Proof.
  split.
  - by intros s.
  - intros s1 s2 s3 H12 H23. unfold same in *. by rewrite H23.
Qed.

#[local] Existing Instance same_preorder.

Lemma watchdog_rest_outcome (now_ : Z) (s : @state F) :
  exit_code (watchdog_rest cfg now_ s)
  = (if (watchdog_timeout cfg <? now_ - last_heartbeat s) && restart_on_hang cfg
     then Some 1 else None)
  /\ (exit_code (watchdog_rest cfg now_ s) = None ->
      last (trace (final (watchdog_rest cfg now_ s)))
      = Some (EvSleep (health_check_interval cfg))
      /\ clock (final (watchdog_rest cfg now_ s))
         = clock s + health_check_interval cfg).
Proof.
  unfold watchdog_rest, bindM, get, when, log, emit, modify, sleep, os_exit, ret.
  cbn.
  destruct (watchdog_timeout cfg <? now_ - last_heartbeat s); cbn.
  1: destruct (restart_on_hang cfg); cbn.
  all: try destruct (0 <? qsize (data_queue s))%nat; cbn.
  all: split; [reflexivity|]; try discriminate.
  all: intros _; by rewrite last_snoc.
Qed.

(** The first half of a turn of the watchdog: the check of the data
    timer, with the reconnection. *)
Lemma watchdog_reconnect_returns (s : @state F) :
  exists s1,
    when (data_timeout cfg <? clock s - last_data_time s)
      (bindM (log Warning (MsgNoData (data_timeout cfg))) (fun _ =>
       bindM get (fun s1 =>
         when (serial_is_open s1)
           (bindM (log Info MsgReconnectSerial) (fun _ =>
            bindM (connect_serial cfg w) (fun _ => ret tt)))))) s
    = Ret tt s1
    /\ last_heartbeat s1 = last_heartbeat s.
Proof.
  match goal with
  | |- exists s1, ?m s = _ /\ _ =>
      assert (He : exits_only_if False m)
        by (exits; apply exits_connect_serial);
      assert (Hk : keeps (same last_heartbeat) m)
        by (keeps_all;
            apply (keeps_connect_serial cfg w (same last_heartbeat)); done);
      specialize (He s); specialize (Hk s);
      destruct (m s) as [[] s1|c s1]
  end.
  - exists s1. done.
  - by destruct (He c eq_refl).
Qed.

Lemma watchdog_cycle_split (s : @state F) :
  exists s1,
    watchdog_cycle cfg w s = watchdog_rest cfg (clock s) s1
    /\ last_heartbeat s1 = last_heartbeat s.
Proof.
  rewrite watchdog_cycle_unfold. unfold bindM at 1.
  destruct (watchdog_reconnect_returns s) as (s1 & -> & Hhb).
  by exists s1.
Qed.

Lemma watchdog_cycle_exit_code (s : @state F) :
  exit_code (watchdog_cycle cfg w s)
  = (if (watchdog_timeout cfg <? clock s - last_heartbeat s) && restart_on_hang cfg
     then Some 1 else None).
Proof.
  destruct (watchdog_cycle_split s) as (s1 & -> & Hhb).
  destruct (watchdog_rest_outcome (clock s) s1) as [-> _]. by rewrite Hhb.
Qed.

(** X5.  A turn of the watchdog ends the process exactly when the heartbeat
    is older than [watchdog_timeout] at the start of the turn and
    [restart_on_hang] is set, with [os._exit(1)]; a turn that does not end
    the process ends with the pause of [health_check_interval]. *)
Theorem watchdog_ends_process_iff_heartbeat_stale (s : @state F) :
  let hung := watchdog_timeout cfg <? clock s - last_heartbeat s in
  exit_code (watchdog_cycle cfg w s)
  = (if hung && restart_on_hang cfg then Some 1 else None)
  /\ (hung && restart_on_hang cfg = true ->
      last (trace (final (watchdog_cycle cfg w s))) = Some (EvExit 1))
  /\ (hung && restart_on_hang cfg = false ->
      last (trace (final (watchdog_cycle cfg w s)))
      = Some (EvSleep (health_check_interval cfg))).
Proof.
  cbn zeta. split; [apply watchdog_cycle_exit_code|].
  destruct (watchdog_cycle_split s) as (s1 & -> & Hhb).
  rewrite <- Hhb.
  unfold watchdog_rest, bindM, get, when, log, emit, modify, sleep, os_exit, ret.
  cbn.
  destruct (watchdog_timeout cfg <? clock s - last_heartbeat s1); cbn.
  1: destruct (restart_on_hang cfg); cbn.
  all: try destruct (0 <? qsize (data_queue s1))%nat; cbn.
  all: split; intros; try discriminate; by rewrite last_snoc.
Qed.

(** X6.  The main loop stamps the heartbeat with the clock at the start of
    its turn and nothing else in the turn moves it; so a watchdog turn
    taken right after a turn of the main loop ends the process exactly
    when that turn took longer than [watchdog_timeout] and
    [restart_on_hang] is set. *)
Theorem heartbeat_is_start_of_last_turn (consecutive_errors : nat) (s : @state F) :
  let s' := final (run_iteration cfg w consecutive_errors s) in
  last_heartbeat s' = clock s
  /\ exit_code (watchdog_cycle cfg w s')
     = (if (watchdog_timeout cfg <? clock s' - clock s) && restart_on_hang cfg
        then Some 1 else None).
Proof.
  cbn zeta.
  assert (Hhb : last_heartbeat (final (run_iteration cfg w consecutive_errors s))
                = clock s).
  { unfold run_iteration. unfold bindM at 1. unfold now at 1.
    unfold bindM at 1. cbn [modify].
    set (s0 := upd_last_heartbeat (fun _ => clock s) s).
    change (clock s) with (last_heartbeat s0).
    match goal with
    | |- last_heartbeat (final (?m s0)) = _ =>
        assert (Hk : keeps (same last_heartbeat) m)
    end; [|exact (Hk s0)].
    keeps_all.
    - apply (keeps_connect_serial cfg w (same last_heartbeat)); done.
    - apply (keeps_connect_influxdb cfg w (same last_heartbeat)); done.
    - apply (keeps_read_serial cfg w (same last_heartbeat)); try done.
      + exact (keeps_q_get_nowait _ (fun _ _ => eq_refl)).
      + exact (keeps_q_put_nowait _ (fun _ _ => eq_refl)).
    - apply (keeps_run_rest cfg (same last_heartbeat)); done. }
  split; [exact Hhb|]. rewrite watchdog_cycle_exit_code. by rewrite Hhb.
Qed.

End Heartbeat.

(** ** The connection routines when an attempt succeeds, and when the
    daemon is stopping *)

Section ConnectSuccess.
Import Daemon.
Context {F : Type} `{PyFloat F}.
Variable cfg : config.
Variable w : world.

Local Arguments Nat.ltb : simpl never.

(** A failed attempt of [connect_serial] and what follows it up to the
    next test of the loop. *)
Lemma connect_serial_loop_failed_step (r fuel : nat) (s : @state F) :
  (r < max_serial_retries cfg)%nat -> running s = true ->
  serial_open w (serial_calls s) <> SerialOpened ->
  exists s4 l m,
    connect_serial_loop cfg w (S fuel) r s = connect_serial_loop cfg w fuel (S r) s4
    /\ trace s4 =
         trace s ++ [EvSerialTry (serial_open w (serial_calls s)); EvLog l m]
         ++ (if (S r <? max_serial_retries cfg)%nat
             then [EvSleep (serial_retry_delay cfg)] else [])
    /\ running s4 = true
    /\ serial_calls s4 = S (serial_calls s).
Proof.
  intros Hr Hrun Hfail. cbn [connect_serial_loop].
  unfold bindM at 1. unfold get at 1.
  replace (r <? max_serial_retries cfg)%nat with true
    by (symmetry; apply Nat.ltb_lt; lia).
  rewrite Hrun. cbn [andb].
  unfold serial_attempt, bindM, get, when, emit, log, emit, modify, ret, sleep.
  destruct (serial_is_open s); cbn.
  all: destruct (serial_open w (serial_calls s)) as [|e|e]; [done| |]; cbn.
  all: destruct e; cbn.
  all: destruct (S r <? max_serial_retries cfg)%nat; cbn.
  all: eexists; eexists; eexists; split; [reflexivity|]; cbn.
  all: rewrite <- ?app_assoc; cbn; done.
Qed.

Lemma connect_serial_loop_succeeds (j : nat) :
  forall (r fuel : nat) (s : @state F),
    (r + j < max_serial_retries cfg)%nat -> (j < fuel)%nat ->
    running s = true ->
    (forall i, (i < j)%nat -> serial_open w (serial_calls s + i) <> SerialOpened) ->
    serial_open w (serial_calls s + j) = SerialOpened ->
    exists s' tr,
      connect_serial_loop cfg w fuel r s = Ret (Some true) s'
      /\ trace s' = trace s ++ tr ++ [EvLog Info MsgSerialConnected]
      /\ schedule tr = attempts_with_delay (S j) (serial_retry_delay cfg)
      /\ serial_calls s' = (serial_calls s + S j)%nat
      /\ serial_is_open s' = true
      /\ serial_retry_count s' = 0%nat.
Proof.
  induction j as [|j IH]; intros r fuel s Hr Hfuel Hrun Hfail Hopen.
  - destruct fuel as [|fuel]; [lia|]. cbn [connect_serial_loop].
    unfold bindM at 1. unfold get at 1.
    replace (r <? max_serial_retries cfg)%nat with true
      by (symmetry; apply Nat.ltb_lt; lia).
    rewrite Hrun. cbn [andb].
    rewrite Nat.add_0_r in Hopen.
    unfold serial_attempt, bindM, get, when, emit, log, emit, modify, ret.
    destruct (serial_is_open s); cbn.
    all: rewrite Hopen; cbn.
    all: eexists; exists [EvSerialTry SerialOpened]; split; [reflexivity|]; cbn.
    all: rewrite <- ?app_assoc; cbn.
    all: repeat split; lia.
  - destruct fuel as [|fuel]; [lia|].
    destruct (connect_serial_loop_failed_step r fuel s)
      as (s4 & l & m & -> & Htr4 & Hrun4 & Hcalls4); [lia|done| |].
    { specialize (Hfail 0%nat). rewrite Nat.add_0_r in Hfail. apply Hfail. lia. }
    destruct (IH (S r) fuel s4) as (s' & tr & Hloop & Htr & Hsched & Hcalls & Ho & Hc);
      [lia|lia|done| | |].
    { intros i Hi. rewrite Hcalls4.
      replace (S (serial_calls s) + i)%nat with (serial_calls s + S i)%nat by lia.
      apply Hfail. lia. }
    { rewrite Hcalls4, <- Hopen. f_equal. lia. }
    exists s'.
    exists ([EvSerialTry (serial_open w (serial_calls s)); EvLog l m]
            ++ [EvSleep (serial_retry_delay cfg)] ++ tr).
    split; [exact Hloop|].
    replace (S r <? max_serial_retries cfg)%nat with true in Htr4
      by (symmetry; apply Nat.ltb_lt; lia).
    split; [|split; [|split; [|done]]].
    + rewrite Htr, Htr4. rewrite <- !app_assoc. reflexivity.
    + rewrite !schedule_app, Hsched. reflexivity.
    + lia.
Qed.

Lemma connect_influxdb_loop_failed_step (r fuel : nat) (s : @state F) :
  (r < max_influx_retries cfg)%nat -> running s = true ->
  influx_open w (influx_calls s) <> InfluxConnected ->
  exists s4 l m,
    connect_influxdb_loop cfg w (S fuel) r s
    = connect_influxdb_loop cfg w fuel (S r) s4
    /\ trace s4 =
         trace s ++ [EvInfluxTry (influx_open w (influx_calls s)); EvLog l m]
         ++ (if (S r <? max_influx_retries cfg)%nat
             then [EvSleep (influx_retry_delay cfg)] else [])
    /\ running s4 = true
    /\ influx_calls s4 = S (influx_calls s).
Proof.
  intros Hr Hrun Hfail. cbn [connect_influxdb_loop].
  unfold bindM at 1. unfold get at 1.
  replace (r <? max_influx_retries cfg)%nat with true
    by (symmetry; apply Nat.ltb_lt; lia).
  rewrite Hrun. cbn [andb].
  unfold influx_attempt, bindM, get, when, emit, log, emit, modify, ret, sleep.
  cbn.
  destruct (influx_open w (influx_calls s)); [done| |]; cbn.
  all: destruct (S r <? max_influx_retries cfg)%nat; cbn.
  all: eexists; eexists; eexists; split; [reflexivity|]; cbn.
  all: rewrite <- ?app_assoc; cbn; done.
Qed.

Lemma connect_influxdb_loop_succeeds (j : nat) :
  forall (r fuel : nat) (s : @state F),
    (r + j < max_influx_retries cfg)%nat -> (j < fuel)%nat ->
    running s = true ->
    (forall i, (i < j)%nat -> influx_open w (influx_calls s + i) <> InfluxConnected) ->
    influx_open w (influx_calls s + j) = InfluxConnected ->
    exists s' tr,
      connect_influxdb_loop cfg w fuel r s = Ret (Some true) s'
      /\ trace s' = trace s ++ tr ++ [EvLog Info MsgInfluxConnected]
      /\ schedule tr = attempts_with_delay (S j) (influx_retry_delay cfg)
      /\ influx_calls s' = (influx_calls s + S j)%nat
      /\ influx_client s' = true /\ write_api s' = true
      /\ influx_retry_count s' = 0%nat.
Proof.
  induction j as [|j IH]; intros r fuel s Hr Hfuel Hrun Hfail Hopen.
  - destruct fuel as [|fuel]; [lia|]. cbn [connect_influxdb_loop].
    unfold bindM at 1. unfold get at 1.
    replace (r <? max_influx_retries cfg)%nat with true
      by (symmetry; apply Nat.ltb_lt; lia).
    rewrite Hrun. cbn [andb].
    rewrite Nat.add_0_r in Hopen.
    unfold influx_attempt, bindM, get, when, emit, log, emit, modify, ret.
    cbn. rewrite Hopen; cbn.
    eexists; exists [EvInfluxTry InfluxConnected]; split; [reflexivity|]; cbn.
    rewrite <- ?app_assoc; cbn.
    repeat split; lia.
  - destruct fuel as [|fuel]; [lia|].
    destruct (connect_influxdb_loop_failed_step r fuel s)
      as (s4 & l & m & -> & Htr4 & Hrun4 & Hcalls4); [lia|done| |].
    { specialize (Hfail 0%nat). rewrite Nat.add_0_r in Hfail. apply Hfail. lia. }
    destruct (IH (S r) fuel s4)
      as (s' & tr & Hloop & Htr & Hsched & Hcalls & Hrest);
      [lia|lia|done| | |].
    { intros i Hi. rewrite Hcalls4.
      replace (S (influx_calls s) + i)%nat with (influx_calls s + S i)%nat by lia.
      apply Hfail. lia. }
    { rewrite Hcalls4, <- Hopen. f_equal. lia. }
    exists s'.
    exists ([EvInfluxTry (influx_open w (influx_calls s)); EvLog l m]
            ++ [EvSleep (influx_retry_delay cfg)] ++ tr).
    split; [exact Hloop|].
    replace (S r <? max_influx_retries cfg)%nat with true in Htr4
      by (symmetry; apply Nat.ltb_lt; lia).
    split; [|split; [|split; [|done]]].
    + rewrite Htr, Htr4. rewrite <- !app_assoc. reflexivity.
    + rewrite !schedule_app, Hsched. reflexivity.
    + lia.
Qed.

(** X7.  When the first [j] attempts fail and the next one succeeds, with
    [j] below the maximum, [connect_serial] and [connect_influxdb] return
    [True] after exactly [j + 1] attempts, with a pause after each failed
    one, the retry count back at zero, and the port open, respectively
    the client and its write API in place. *)
Theorem connect_returns_at_first_success (j : nat) (s : @state F) :
  running s = true ->
  ((j < max_serial_retries cfg)%nat ->
   (forall i, (i < j)%nat -> serial_open w (serial_calls s + i) <> SerialOpened) ->
   serial_open w (serial_calls s + j) = SerialOpened ->
   exists s' tr,
     connect_serial cfg w s = Ret (Some true) s'
     /\ trace s' = trace s ++ tr ++ [EvLog Info MsgSerialConnected]
     /\ schedule tr = attempts_with_delay (S j) (serial_retry_delay cfg)
     /\ serial_calls s' = (serial_calls s + S j)%nat
     /\ serial_is_open s' = true
     /\ serial_retry_count s' = 0%nat)
  /\ ((j < max_influx_retries cfg)%nat ->
      (forall i, (i < j)%nat ->
                 influx_open w (influx_calls s + i) <> InfluxConnected) ->
      influx_open w (influx_calls s + j) = InfluxConnected ->
      exists s' tr,
        connect_influxdb cfg w s = Ret (Some true) s'
        /\ trace s' = trace s ++ tr ++ [EvLog Info MsgInfluxConnected]
        /\ schedule tr = attempts_with_delay (S j) (influx_retry_delay cfg)
        /\ influx_calls s' = (influx_calls s + S j)%nat
        /\ influx_client s' = true /\ write_api s' = true
        /\ influx_retry_count s' = 0%nat).
Proof.
  intros Hrun. split.
  - intros Hj Hfail Hopen.
    apply (connect_serial_loop_succeeds j 0%nat); try done; lia.
  - intros Hj Hfail Hopen.
    apply (connect_influxdb_loop_succeeds j 0%nat); try done; lia.
Qed.

(** X8.  With [self.running] false, as after a signal, or with a maximum of
    zero, the two routines make no attempt and no pause: they log the
    final error and return [False], leaving the connections as they were. *)
Theorem connect_makes_no_attempt_when_stopped (s : @state F) :
  (running s = false \/ max_serial_retries cfg = 0%nat ->
   connect_serial cfg w s
   = Ret (Some false)
       (upd_trace
          (fun t => t ++ [EvLog Error (MsgSerialExhausted (max_serial_retries cfg))])
          s))
  /\ (running s = false \/ max_influx_retries cfg = 0%nat ->
      connect_influxdb cfg w s
      = Ret (Some false)
          (upd_trace
             (fun t => t ++ [EvLog Error (MsgInfluxExhausted (max_influx_retries cfg))])
             s)).
Proof.
  split; intros Hstop.
  - unfold connect_serial. cbn [connect_serial_loop].
    unfold bindM at 1. unfold get at 1.
    replace ((0 <? max_serial_retries cfg)%nat && running s) with false; [done|].
    symmetry. apply andb_false_iff. destruct Hstop as [->| ->]; [by right|by left].
  - unfold connect_influxdb. cbn [connect_influxdb_loop].
    unfold bindM at 1. unfold get at 1.
    replace ((0 <? max_influx_retries cfg)%nat && running s) with false; [done|].
    symmetry. apply andb_false_iff. destruct Hstop as [->| ->]; [by right|by left].
Qed.

End ConnectSuccess.

(** ** The parts of a turn of the main loop *)

Section TurnParts.
Import Daemon.
Context {F : Type} `{PyFloat F}.
Variable cfg : config.
Variable w : world.
Variable R : @state F -> @state F -> Prop.
Context `{!PreOrder R}.

Hypothesis R_trace : forall f s, R s (upd_trace f s).
Hypothesis R_clock : forall f s, R s (upd_clock f s).
Hypothesis R_last_heartbeat : forall f s, R s (upd_last_heartbeat f s).
Hypothesis R_serial_connection : forall f s, R s (upd_serial_connection f s).
Hypothesis R_serial_calls : forall f s, R s (upd_serial_calls f s).
Hypothesis R_serial_retry_count : forall f s, R s (upd_serial_retry_count f s).
Hypothesis R_influx_client : forall f s, R s (upd_influx_client f s).
Hypothesis R_write_api : forall f s, R s (upd_write_api f s).
Hypothesis R_influx_calls : forall f s, R s (upd_influx_calls f s).
Hypothesis R_influx_retry_count : forall f s, R s (upd_influx_retry_count f s).

(** A computation that never ends the process returns, in a state
    related to the one it started in by what it keeps. *)
Lemma returns_related {A : Type} (m : @M F A) (s : @state F) :
  exits_only_if False m -> keeps R m ->
  exists a s1, m s = Ret a s1 /\ R s s1.
Proof.
  intros He Hk. specialize (He s). specialize (Hk s).
  destruct (m s) as [a s1|c s1]; [by exists a, s1|].
  by destruct (He c eq_refl).
Qed.

(** A turn of the main loop is made of a first part, the heartbeat and
    the two checks of the connections, that touches nothing but the
    heartbeat, the connections and their counters, and then of one of
    three things: nothing more (the port could not be opened), the read
    with its handlers and the end of the turn, or the end of the turn
    alone. *)
Lemma run_iteration_cases (consecutive_errors : nat) (s : @state F) :
  exists s1,
    R s s1
    /\ (run_iteration cfg w consecutive_errors s = Ret consecutive_errors s1
        \/ (serial_is_open s1 = true
            /\ run_iteration cfg w consecutive_errors s
               = bindM (read_serial cfg w consecutive_errors)
                   (run_rest cfg consecutive_errors) s1)
        \/ (serial_is_open s1 = false
            /\ run_iteration cfg w consecutive_errors s
               = run_rest cfg consecutive_errors (Ok consecutive_errors) s1)).
Proof.
  pose (cases := fun (o : @outcome F nat) (s1 : @state F) =>
    o = Ret consecutive_errors s1
    \/ (serial_is_open s1 = true
        /\ o = bindM (read_serial cfg w consecutive_errors)
                (run_rest cfg consecutive_errors) s1)
    \/ (serial_is_open s1 = false
        /\ o = run_rest cfg consecutive_errors (Ok consecutive_errors) s1)).
  change (exists s1,
             R s s1 /\ cases (run_iteration cfg w consecutive_errors s) s1).
  unfold run_iteration. unfold bindM at 1. unfold now at 1.
  unfold bindM at 1. cbn [modify].
  set (s0 := upd_last_heartbeat (fun _ => clock s) s).
  assert (H0 : R s s0) by apply R_last_heartbeat.
  unfold bindM at 1. unfold get at 1.
  unfold bindM at 1.
  match goal with
  | |- context [match ?m s0 with Ret _ _ => _ | Exit _ _ => _ end] =>
      destruct (returns_related m s0) as (connected & sa & -> & Ha)
  end.
  { exits. apply exits_connect_serial. }
  { keeps_all. by apply (keeps_connect_serial cfg w R). }
  destruct connected; cbn [negb].
  - unfold bindM at 1. unfold get at 1. unfold bindM at 1.
    match goal with
    | |- context [match ?m sa with Ret _ _ => _ | Exit _ _ => _ end] =>
        destruct (returns_related m sa) as ([] & s1 & -> & H1)
    end.
    { exits. apply exits_connect_influxdb. }
    { keeps_all. by apply (keeps_connect_influxdb cfg w R). }
    exists s1. split; [by do 2 (etransitivity; [eassumption|])|].
    unfold bindM at 1. unfold get at 1. unfold cases.
    destruct (serial_is_open s1); right; [left|right]; split; reflexivity.
  - match goal with
    | |- context [bindM (sleep ?d) ?k sa] =>
        destruct (returns_related (bindM (sleep d) k) sa) as (a & s1 & E & H1)
    end.
    { exits. }
    { keeps_all. }
    exists s1. split; [by do 2 (etransitivity; [eassumption|])|].
    unfold cases. left. rewrite E. f_equal.
    unfold bindM, sleep, bindM, modify, emit, modify, ret in E. cbn in E.
    by injection E as <- _.
Qed.

End TurnParts.

(** ** Readings in a turn of the main loop *)

Section ReadingsInTurn.
Import Daemon.
Context {F : Type} `{PyFloat F}.
Variable cfg : config.
Variable w : world.

Local Arguments Nat.ltb : simpl never.
Local Arguments Nat.leb : simpl never.

#[local] Existing Instance same_preorder.

Lemma parse_four_fields (line : str) (weather_data : gmap str F) :
  parse_weather_data line = Ok (Some weather_data) ->
  exists t h p ws,
    weather_data = <[lit "wind_speed" := ws]> (<[lit "pressure" := p]>
                   (<[lit "humidity" := h]> (<[lit "temperature" := t]> ∅))).
Proof.
  unfold parse_weather_data.
  destruct (Regex.search pattern line) as [g|]; [|done].
  destruct (float_group g 1) as [t|]; [|done].
  destruct (float_group g 2) as [h|]; [|done].
  destruct (float_group g 3) as [p|]; [|done].
  destruct (float_group g 4) as [ws|]; [|done].
  cbn. intros [= <-]. by exists t, h, p, ws.
Qed.

Lemma four_fields_lookup (t h p ws : F) :
  let d := <[lit "wind_speed" := ws]> (<[lit "pressure" := p]>
           (<[lit "humidity" := h]> (<[lit "temperature" := t]> (∅ : gmap str F)))) in
  d !! lit "temperature" = Some t /\ d !! lit "humidity" = Some h
  /\ d !! lit "pressure" = Some p /\ d !! lit "wind_speed" = Some ws.
Proof.
  cbn zeta. repeat split.
Qed.

Lemma parsed_makes_point (line : str) (weather_data : gmap str F) (timestamp : Z) :
  parse_weather_data line = Ok (Some weather_data) ->
  exists pt,
    make_point weather_data timestamp = Some pt
    /\ time pt = timestamp
    /\ weather_data !! lit "temperature" = Some (temp pt)
    /\ weather_data !! lit "humidity" = Some (humid pt)
    /\ weather_data !! lit "pressure" = Some (press pt)
    /\ weather_data !! lit "wind_speed" = Some (wind_speed pt).
Proof.
  intros Hparse. destruct (parse_four_fields _ _ Hparse) as (t & h & p & ws & ->).
  destruct (four_fields_lookup t h p ws) as (Ht & Hh & Hp & Hws).
  exists (mkPoint t h p ws timestamp). unfold make_point.
  rewrite Ht, Hh, Hp, Hws. done.
Qed.

(** X9.  A reading the parser returns has the four fields [send_to_influxdb]
    subscripts, so for it the routine fails only when there is no write
    API or the sink refuses: with a write API it makes one write, of a
    point that carries the four numbers and the timestamp given, or the
    clock when none is given, and returns what the sink answers. *)
Theorem parsed_reading_always_makes_a_point (line : str)
    (weather_data : gmap str F) (timestamp : option Z) (s : @state F) :
  parse_weather_data line = Ok (Some weather_data) ->
  write_api s = true ->
  let ok := influx_write w (write_calls s) in
  exists pt s',
    send_to_influxdb w weather_data timestamp s = Ret ok s'
    /\ time pt = default (clock s) timestamp
    /\ weather_data !! lit "temperature" = Some (temp pt)
    /\ weather_data !! lit "humidity" = Some (humid pt)
    /\ weather_data !! lit "pressure" = Some (press pt)
    /\ weather_data !! lit "wind_speed" = Some (wind_speed pt)
    /\ trace s' =
         trace s ++ [EvWrite ok pt;
                     if ok then EvLog Debug MsgDataSent
                     else EvLog Error MsgSendFailed]
    /\ sink s' = (if ok then sink s ++ [pt] else sink s)
    /\ write_calls s' = S (write_calls s).
Proof.
  intros Hparse Hwa. cbn zeta.
  destruct (parsed_makes_point line weather_data (default (clock s) timestamp) Hparse)
    as (pt & Hpt & Htime & Hfields).
  exists pt.
  unfold send_to_influxdb, timestamp_or_now, bindM, get, now, ret, log, emit, modify.
  destruct timestamp as [t|]; cbn in *.
  all: rewrite Hpt, Hwa; cbn.
  all: destruct (influx_write w (write_calls s)); cbn.
  all: eexists; split; [reflexivity|]; cbn.
  all: rewrite <- ?app_assoc.
  all: destruct Hfields as (? & ? & ? & ?); repeat split; assumption || reflexivity.
Qed.

(** The use of a line that parses, with a client whose sink accepts. *)
Lemma handle_line_sends (line : str) (consecutive_errors : nat)
    (weather_data : gmap str F) (s : @state F) :
  parse_weather_data line = Ok (Some weather_data) ->
  influx_client s = true -> write_api s = true ->
  influx_write w (write_calls s) = true ->
  exists pt s',
    handle_line w line consecutive_errors s = Ret (Ok 0%nat) s'
    /\ make_point weather_data (clock s) = Some pt
    /\ sink s' = sink s ++ [pt]
    /\ data_queue s' = data_queue s
    /\ last_data_time s' = clock s
    /\ clock s' = clock s
    /\ last_heartbeat s' = last_heartbeat s.
Proof.
  intros Hparse Hic Hwa Hok.
  destruct (parsed_makes_point line weather_data (clock s) Hparse)
    as (pt & Hpt & _).
  pose proof (parse_result_nonempty _ _ Hparse) as Hne.
  exists pt. unfold handle_line. rewrite Hparse.
  destruct (decide (weather_data = ∅)) as [|_]; [done|].
  unfold send_to_influxdb, timestamp_or_now, bindM, get, now, ret, log, emit, modify.
  cbn. rewrite Hic. cbn. rewrite Hpt, Hwa. cbn. rewrite Hok. cbn.
  eexists. split; [reflexivity|]. done.
Qed.

(** X10.  In a turn with the port open, a client whose sink accepts, and a
    line that parses, the reading is sent at once: the turn returns with
    the count of errors at zero, whatever it was, the sink has one more
    point, stamped with the clock of the turn, the data timer is set to
    that clock and the queue is left alone. *)
Theorem accepted_reading_resets_error_count (consecutive_errors : nat)
    (text : str) (weather_data : gmap str F) (s : @state F) :
  serial_is_open s = true ->
  influx_client s = true -> write_api s = true ->
  serial_read w (read_calls s) = Line text ->
  parse_weather_data (strip text) = Ok (Some weather_data) ->
  influx_write w (write_calls s) = true ->
  exists pt s',
    run_iteration cfg w consecutive_errors s = Ret 0%nat s'
    /\ make_point weather_data (clock s) = Some pt
    /\ sink s' = sink s ++ [pt]
    /\ data_queue s' = data_queue s
    /\ last_data_time s' = clock s
    /\ last_heartbeat s' = clock s
    /\ clock s' = clock s + read_interval cfg.
Proof.
  intros Hopen Hic Hwa Hread Hparse Hok.
  assert (Hline : strip text <> []).
  { intros E. rewrite E, parse_empty_line in Hparse. discriminate Hparse. }
  set (s0 := upd_last_heartbeat (fun _ => clock s) s).
  set (s2 := upd_read_calls S s0).
  destruct (handle_line_sends (strip text) consecutive_errors weather_data s2)
    as (pt & s3 & Hhl & Hpt & Hsink & Hq & Hldt & Hck & Hhb); try done.
  exists pt.
  unfold run_iteration.
  unfold bindM at 1. unfold now at 1.
  unfold bindM at 1. cbn [modify]. fold s0.
  unfold bindM at 1. unfold get at 1.
  change (serial_is_open s0) with (serial_is_open s). rewrite Hopen.
  unfold bindM at 1. cbn [ret negb].
  unfold bindM at 1. unfold get at 1.
  change (influx_client s0) with (influx_client s). rewrite Hic. cbn [negb when].
  unfold bindM at 1. cbn [ret].
  unfold bindM at 1. unfold get at 1.
  change (serial_is_open s0) with (serial_is_open s). rewrite Hopen.
  unfold bindM at 1. unfold read_serial.
  unfold bindM at 1. unfold get at 1.
  change (read_calls s0) with (read_calls s). rewrite Hread.
  unfold bindM at 1. cbn [modify]. fold s2.
  destruct (decide (strip text = [])) as [|_]; [done|].
  unfold bindM at 1. rewrite Hhl. cbn [ret].
  unfold run_rest, max_consecutive_errors, bindM, ret, sleep, modify, emit, modify.
  cbn. eexists. split; [reflexivity|]. cbn.
  rewrite Hsink, Hq, Hldt, Hck, Hhb. clear Hhl. subst s2 s0. cbn in *.
  repeat split; assumption || reflexivity.
Qed.

(** What a reconnection of the port never touches. *)
Lemma connect_serial_frame (s : @state F) :
  let s' := final (connect_serial cfg w s) in
  read_calls s' = read_calls s /\ write_calls s' = write_calls s
  /\ influx_calls s' = influx_calls s /\ data_queue s' = data_queue s
  /\ sink s' = sink s /\ last_data_time s' = last_data_time s
  /\ influx_client s' = influx_client s /\ write_api s' = write_api s.
Proof.
  cbn zeta.
  pose proof (keeps_connect_serial cfg w
    (same (fun s : @state F =>
             (read_calls s, write_calls s, influx_calls s, data_queue s, sink s,
              last_data_time s, influx_client s, write_api s)))) as Hk.
  specialize (Hk (fun _ _ => eq_refl) (fun _ _ => eq_refl) (fun _ _ => eq_refl)
                 (fun _ _ => eq_refl) (fun _ _ => eq_refl) s).
  unfold same in Hk. by injection Hk as -> -> -> -> -> -> -> ->.
Qed.

(** X11.  A turn that finds the port closed and cannot open it does nothing
    else: it reads no line, writes nothing, does not try the sink
    connection, leaves the queue, the data timer and the count of errors
    as they are, and ends with the pause of [serial_retry_delay] instead
    of the pause of [read_interval]. *)
Theorem failed_reconnect_skips_the_read (consecutive_errors : nat) (s : @state F) :
  serial_is_open s = false ->
  running s = true ->
  (forall i, serial_open w i <> SerialOpened) ->
  exists s',
    run_iteration cfg w consecutive_errors s = Ret consecutive_errors s'
    /\ serial_calls s' = (serial_calls s + max_serial_retries cfg)%nat
    /\ read_calls s' = read_calls s /\ write_calls s' = write_calls s
    /\ influx_calls s' = influx_calls s /\ data_queue s' = data_queue s
    /\ sink s' = sink s /\ last_data_time s' = last_data_time s
    /\ last (trace s') = Some (EvSleep (serial_retry_delay cfg)).
Proof.
  intros Hclosed Hrun Hfail.
  unfold run_iteration.
  unfold bindM at 1. unfold now at 1.
  unfold bindM at 1. cbn [modify].
  set (s0 := upd_last_heartbeat (fun _ => clock s) s).
  unfold bindM at 1. unfold get at 1.
  change (serial_is_open s0) with (serial_is_open s). rewrite Hclosed.
  unfold bindM at 1. unfold bindM at 1. cbn [log emit modify].
  set (s1 := upd_trace _ s0).
  destruct (connect_serial_loop_fails cfg w (max_serial_retries cfg) Hfail 0%nat
              (S (max_serial_retries cfg)) s1)
    as (s2 & tr & Hconn & _ & _ & Hcalls); [lia|lia|done|].
  change (connect_serial cfg w s1 = Ret (Some false) s2) in Hconn.
  pose proof (connect_serial_frame s1) as Hframe. cbn zeta in Hframe.
  unfold bindM at 1. rewrite Hconn in *. cbn [final] in Hframe.
  destruct Hframe as (Hr & Hw & Hi & Hq & Hs & Hl & _).
  cbn [ret negb].
  unfold bindM, sleep, bindM, modify, emit, modify, ret. cbn.
  eexists. split; [reflexivity|]. cbn.
  rewrite Hcalls, Hr, Hw, Hi, Hq, Hs, Hl, last_snoc.
  subst s1 s0. cbn. repeat split; reflexivity.
Qed.

Lemma keeps_handle_line_unparsed (line : str) (consecutive_errors : nat) :
  (forall weather_data, parse_weather_data line <> Ok (Some weather_data)) ->
  keeps (same last_data_time) (handle_line w line consecutive_errors).
Proof.
  intros Hno. unfold handle_line.
  destruct (parse_weather_data line) as [[weather_data|]|e] eqn:Hp.
  - by destruct (Hno weather_data).
  - keeps_all.
  - keeps_all.
Qed.

Lemma keeps_run_rest_data_time (consecutive_errors : nat) (r : result nat) :
  keeps (F := F) (same last_data_time) (run_rest cfg consecutive_errors r).
Proof. apply (keeps_run_rest cfg (same last_data_time)); done. Qed.

(** The read with its handlers moves the data timer only when it gets
    a line that parses. *)
Lemma read_serial_data_time (consecutive_errors : nat) (s : @state F) :
  last_data_time (final (read_serial cfg w consecutive_errors s)) = last_data_time s
  \/ (exists text weather_data,
        serial_read w (read_calls s) = Line text
        /\ parse_weather_data (strip text) = Ok (Some weather_data)).
Proof.
  destruct (serial_read w (read_calls s)) as [|text|e] eqn:Hr.
  2: destruct (parse_weather_data (strip text)) as [[weather_data|]|e] eqn:Hp.
  2: { right. by exists text, weather_data. }
  all: left; unfold read_serial; unfold bindM at 1; unfold get at 1; rewrite Hr.
  all: match goal with
       | |- last_data_time (final (?m ?st)) = _ =>
           assert (Hk : keeps (same last_data_time) m); [|exact (Hk st)]
       end.
  all: keeps_all.
  all: try (apply (keeps_connect_serial cfg w (same last_data_time)); done).
  all: apply keeps_handle_line_unparsed; intros weather_data; by rewrite Hp.
Qed.

(** X12.  A turn of the main loop moves the data timer only when it reads a
    line that parses to a reading: lines that do not parse, read errors
    and reconnections leave it as it is, so the watchdog's data timeout
    keeps running while they go on. *)
Theorem data_timer_moves_only_on_a_reading (consecutive_errors : nat) (s : @state F) :
  last_data_time (final (run_iteration cfg w consecutive_errors s)) = last_data_time s
  \/ (exists text weather_data,
        serial_read w (read_calls s) = Line text
        /\ parse_weather_data (strip text) = Ok (Some weather_data)).
Proof.
  destruct (run_iteration_cases cfg w
              (same (fun s : @state F => (last_data_time s, read_calls s)))
              (fun _ _ => eq_refl) (fun _ _ => eq_refl) (fun _ _ => eq_refl)
              (fun _ _ => eq_refl) (fun _ _ => eq_refl) (fun _ _ => eq_refl)
              (fun _ _ => eq_refl) (fun _ _ => eq_refl) (fun _ _ => eq_refl)
              (fun _ _ => eq_refl) consecutive_errors s)
    as (s1 & HR & Hcases).
  unfold same in HR. injection HR as Hl Hr.
  destruct Hcases as [-> | [[_ ->] | [_ ->]]].
  - left. exact Hl.
  - destruct (read_serial_data_time consecutive_errors s1) as [Hkeep|Hparsed].
    + left. unfold bindM.
      destruct (read_serial cfg w consecutive_errors s1) as [r s2|c s2];
        cbn [final] in *.
      * rewrite (keeps_run_rest_data_time consecutive_errors r s2). congruence.
      * congruence.
    + right. by rewrite <- Hr.
  - left. rewrite (keeps_run_rest_data_time consecutive_errors _ s1). exact Hl.
Qed.

End ReadingsInTurn.

(** ** The writes a computation makes *)

Section Writes.
Import Daemon.
Context {F : Type} `{PyFloat F}.
Variable cfg : config.
Variable w : world.

Local Arguments Nat.ltb : simpl never.
Local Arguments Nat.leb : simpl never.

Lemma writes_app (a b : list (@event F)) : writes (a ++ b) = writes a ++ writes b.
Proof. unfold writes. apply omap_app. Qed.

Lemma answers_S (k n : nat) :
  answers w k (S n) = influx_write w k :: answers w (S k) n.
Proof.
  unfold answers. cbn [seq fmap list_fmap]. rewrite Nat.add_0_r. f_equal.
  rewrite <- seq_shift, <- list_fmap_compose. apply list_fmap_ext.
  intros _ i _. cbn. f_equal. lia.
Qed.

Lemma answers_length (k n : nat) : length (answers w k n) = n.
Proof. unfold answers. by rewrite length_fmap, length_seq. Qed.

(** One call of [send_to_influxdb], in full: with a point to make and a
    write API there is one write, of that point, and the result is the
    answer of the sink; otherwise there is no write and the result is
    [False]. *)
Lemma send_to_influxdb_run (weather_data : gmap str F) (timestamp : option Z)
    (s : @state F) :
  exists ok s' tr,
    send_to_influxdb w weather_data timestamp s = Ret ok s'
    /\ trace s' = trace s ++ tr
    /\ data_queue s' = data_queue s
    /\ write_api s' = write_api s
    /\ match make_point weather_data (default (clock s) timestamp), write_api s with
       | Some p, true =>
           ok = influx_write w (write_calls s)
           /\ writes tr = [(ok, p)]
           /\ write_calls s' = S (write_calls s)
           /\ sink s' = (if ok then sink s ++ [p] else sink s)
       | _, _ =>
           ok = false /\ writes tr = []
           /\ write_calls s' = write_calls s /\ sink s' = sink s
       end.
Proof.
  unfold send_to_influxdb, timestamp_or_now, bindM, get, now, ret, log, emit, modify.
  destruct timestamp as [t|]; cbn.
  all: match goal with
       | |- context [make_point ?a ?b] => destruct (make_point a b) as [p|]
       end; cbn.
  all: destruct (write_api s) eqn:Hwa; cbn.
  all: try destruct (influx_write w (write_calls s)); cbn.
  all: eexists; eexists; eexists; split; [reflexivity|]; cbn.
  all: rewrite <- ?app_assoc; split; [reflexivity|]; cbn.
  all: rewrite ?Hwa; repeat split; reflexivity.
Qed.

(** The batch loop of the sender, in full.  The flags say which pairs
    the sink took.  With a write API and pairs that have the four fields
    there is exactly one write for each pair taken, in their order, of
    the pair's point with the pair's own timestamp, and the flags are
    the answers of the sink; without a write API nothing is written and
    every pair is refused. *)
Lemma sender_batch_run (n : nat) :
  forall (s : @state F) (sent_count : nat) (failed_items : list (@item F)),
    (n <= qsize (data_queue s))%nat ->
    exists oks pts s1 tr,
      length oks = n
      /\ sender_batch w n sent_count failed_items s =
           Ret ((sent_count + length pts)%nat,
                failed_items ++ select false oks (take n (items (data_queue s)))) s1
      /\ items (data_queue s1) = drop n (items (data_queue s))
      /\ maxsize (data_queue s1) = maxsize (data_queue s)
      /\ sink s1 = sink s ++ pts
      /\ Forall2 point_of (select true oks (take n (items (data_queue s)))) pts
      /\ trace s1 = trace s ++ tr
      /\ (write_api s = true ->
          Forall complete (take n (items (data_queue s))) ->
          oks = answers w (write_calls s) n
          /\ write_calls s1 = (write_calls s + n)%nat
          /\ Forall2 written_as (take n (items (data_queue s))) (writes tr)
          /\ (writes tr).*1 = oks)
      /\ (write_api s = false ->
          oks = replicate n false /\ writes tr = []
          /\ write_calls s1 = write_calls s).
Proof.
  induction n as [|n IH]; intros s sent failed Hn.
  - exists [], [], s, []. cbn. rewrite Nat.add_0_r, !app_nil_r, drop_0.
    split; [done|]. split; [done|]. split; [done|]. split; [done|].
    split; [done|]. split; [constructor|]. split; [done|].
    split; [intros _ _|done].
    split; [done|]. split; [lia|]. split; [constructor|done].
  - unfold qsize in Hn.
    destruct (items (data_queue s)) as [|[wd ts] rest] eqn:Hit; [cbn in Hn; lia|].
    cbn [sender_batch]. unfold bindM at 1.
    rewrite (q_get_nowait_cons _ _ _ Hit).
    set (s1 := upd_data_queue _ s).
    destruct (send_to_influxdb_run wd (Some ts) s1)
      as (ok & s2 & tr2 & Hsend & Htr2 & Hq2 & Hwa2 & Hcase).
    unfold bindM at 1. rewrite Hsend.
    assert (Hit2 : items (data_queue s2) = rest) by (rewrite Hq2; done).
    assert (Hmax2 : maxsize (data_queue s2) = maxsize (data_queue s))
      by (rewrite Hq2; done).
    change (write_api s1) with (write_api s) in *.
    change (write_calls s1) with (write_calls s) in *.
    change (sink s1) with (sink s) in *.
    change (trace s1) with (trace s) in *.
    change (default (clock s1) (Some ts)) with ts in Hcase.
    assert (Hstep : exists sent' failed',
               (if ok then sender_batch w n (S sent) failed
                else sender_batch w n sent (failed ++ [(wd, ts)]))
               = sender_batch w n sent' failed'
               /\ sent' = (if ok then S sent else sent)
               /\ failed' = (if ok then failed else failed ++ [(wd, ts)])).
    { destruct ok; eexists; eexists; done. }
    destruct Hstep as (sent' & failed' & -> & Hsent' & Hfailed').
    destruct (IH s2 sent' failed')
      as (oks & pts & s3 & tr3 & Hlen & Hrun & Hit3 & Hmax3 & Hsink3 & Hpts
          & Htr3 & Hapi & Hnoapi).
    { unfold qsize. rewrite Hit2. cbn in Hn. lia. }
    rewrite Hit2 in Hrun, Hit3, Hpts, Hapi. rewrite Hwa2 in Hapi, Hnoapi.
    destruct (make_point wd ts) as [p|] eqn:Hp; cycle 1.
    { destruct Hcase as (-> & Hw2 & Hc2 & Hs2).
      exists (false :: oks), pts, s3, (tr2 ++ tr3). cbn.
      subst sent' failed'.
      split; [by rewrite Hlen|].
      split. { rewrite Hrun. by rewrite <- app_assoc. }
      split; [done|]. split; [congruence|].
      split. { rewrite Hsink3, Hs2. done. }
      split; [exact Hpts|].
      split. { rewrite Htr3, Htr2. by rewrite <- app_assoc. }
      split.
      - intros Hwa Hall. apply Forall_cons in Hall as [[q Hq] _].
        unfold point_of in Hq. cbn in Hq. congruence.
      - intros Hwa. destruct (Hnoapi Hwa) as (-> & Hw3 & Hc3).
        rewrite writes_app, Hw2, Hw3, Hc3, Hc2. done. }
    destruct (write_api s) eqn:Hwa; cycle 1.
    { destruct Hcase as (-> & Hw2 & Hc2 & Hs2).
      exists (false :: oks), pts, s3, (tr2 ++ tr3). cbn.
      subst sent' failed'.
      split; [by rewrite Hlen|].
      split. { rewrite Hrun. by rewrite <- app_assoc. }
      split; [done|]. split; [congruence|].
      split. { rewrite Hsink3, Hs2. done. }
      split; [exact Hpts|].
      split. { rewrite Htr3, Htr2. by rewrite <- app_assoc. }
      split; [done|].
      intros _. destruct (Hnoapi eq_refl) as (-> & Hw3 & Hc3).
      rewrite writes_app, Hw2, Hw3, Hc3, Hc2. done. }
    destruct Hcase as (Hok & Hw2 & Hc2 & Hs2).
    assert (Hpinned :
      Forall complete ((wd, ts) :: take n rest) ->
      ok :: oks = answers w (write_calls s) (S n)
      /\ write_calls s3 = (write_calls s + S n)%nat
      /\ Forall2 written_as ((wd, ts) :: take n rest) (writes (tr2 ++ tr3))
      /\ (writes (tr2 ++ tr3)).*1 = ok :: oks).
    { intros Hall. apply Forall_cons in Hall as [_ Hall].
      destruct (Hapi eq_refl Hall) as (Hoks & Hc3 & Hw3 & Hfl).
      rewrite writes_app, Hw2. cbn [app fmap list_fmap fst].
      split. { rewrite answers_S, <- Hok, <- Hc2, <- Hoks. done. }
      split; [lia|].
      split; [|by rewrite Hfl].
      constructor; [|exact Hw3].
      split; [exact Hp|]. exact (make_point_time _ _ _ Hp). }
    destruct ok.
    + exists (true :: oks), (p :: pts), s3, (tr2 ++ tr3). cbn.
      subst sent' failed'.
      split; [by rewrite Hlen|].
      split. { rewrite Hrun. do 2 f_equal. lia. }
      split; [done|]. split; [congruence|].
      split. { rewrite Hsink3, Hs2. by rewrite <- app_assoc. }
      split. { constructor; [exact Hp|exact Hpts]. }
      split. { rewrite Htr3, Htr2. by rewrite <- app_assoc. }
      split; [intros _; exact Hpinned|done].
    + exists (false :: oks), pts, s3, (tr2 ++ tr3). cbn.
      subst sent' failed'.
      split; [by rewrite Hlen|].
      split. { rewrite Hrun. by rewrite <- app_assoc. }
      split; [done|]. split; [congruence|].
      split. { rewrite Hsink3, Hs2. done. }
      split; [exact Hpts|].
      split. { rewrite Htr3, Htr2. by rewrite <- app_assoc. }
      split; [intros _; exact Hpinned|done].
Qed.

(** The final drain, in full, as the batch loop of the sender; no pair
    is kept. *)
Lemma cleanup_batch_run (n : nat) :
  forall s : @state F,
    (n <= qsize (data_queue s))%nat ->
    exists oks pts s1 tr,
      length oks = n
      /\ cleanup_batch w n s = Ret tt s1
      /\ items (data_queue s1) = drop n (items (data_queue s))
      /\ maxsize (data_queue s1) = maxsize (data_queue s)
      /\ sink s1 = sink s ++ pts
      /\ Forall2 point_of (select true oks (take n (items (data_queue s)))) pts
      /\ trace s1 = trace s ++ tr
      /\ (write_api s = true ->
          Forall complete (take n (items (data_queue s))) ->
          oks = answers w (write_calls s) n
          /\ write_calls s1 = (write_calls s + n)%nat
          /\ Forall2 written_as (take n (items (data_queue s))) (writes tr)
          /\ (writes tr).*1 = oks)
      /\ (write_api s = false ->
          oks = replicate n false /\ writes tr = []
          /\ write_calls s1 = write_calls s).
Proof.
  induction n as [|n IH]; intros s Hn.
  - exists [], [], s, []. cbn. rewrite !app_nil_r, drop_0.
    split; [done|]. split; [done|]. split; [done|]. split; [done|].
    split; [done|]. split; [constructor|]. split; [done|].
    split; [intros _ _|done].
    split; [done|]. split; [lia|]. split; [constructor|done].
  - unfold qsize in Hn.
    destruct (items (data_queue s)) as [|[wd ts] rest] eqn:Hit; [cbn in Hn; lia|].
    cbn [cleanup_batch]. unfold bindM at 1.
    rewrite (q_get_nowait_cons _ _ _ Hit).
    set (s1 := upd_data_queue _ s).
    destruct (send_to_influxdb_run wd (Some ts) s1)
      as (ok & s2 & tr2 & Hsend & Htr2 & Hq2 & Hwa2 & Hcase).
    unfold bindM at 1. rewrite Hsend.
    assert (Hit2 : items (data_queue s2) = rest) by (rewrite Hq2; done).
    assert (Hmax2 : maxsize (data_queue s2) = maxsize (data_queue s))
      by (rewrite Hq2; done).
    change (write_api s1) with (write_api s) in *.
    change (write_calls s1) with (write_calls s) in *.
    change (sink s1) with (sink s) in *.
    change (trace s1) with (trace s) in *.
    change (default (clock s1) (Some ts)) with ts in Hcase.
    destruct (IH s2)
      as (oks & pts & s3 & tr3 & Hlen & Hrun & Hit3 & Hmax3 & Hsink3 & Hpts
          & Htr3 & Hapi & Hnoapi).
    { unfold qsize. rewrite Hit2. cbn in Hn. lia. }
    rewrite Hit2 in Hit3, Hpts, Hapi. rewrite Hwa2 in Hapi, Hnoapi.
    destruct (make_point wd ts) as [p|] eqn:Hp; cycle 1.
    { destruct Hcase as (-> & Hw2 & Hc2 & Hs2).
      exists (false :: oks), pts, s3, (tr2 ++ tr3). cbn.
      split; [by rewrite Hlen|]. split; [done|].
      split; [done|]. split; [congruence|].
      split. { rewrite Hsink3, Hs2. done. }
      split; [exact Hpts|].
      split. { rewrite Htr3, Htr2. by rewrite <- app_assoc. }
      split.
      - intros Hwa Hall. apply Forall_cons in Hall as [[q Hq] _].
        unfold point_of in Hq. cbn in Hq. congruence.
      - intros Hwa. destruct (Hnoapi Hwa) as (-> & Hw3 & Hc3).
        rewrite writes_app, Hw2, Hw3, Hc3, Hc2. done. }
    destruct (write_api s) eqn:Hwa; cycle 1.
    { destruct Hcase as (-> & Hw2 & Hc2 & Hs2).
      exists (false :: oks), pts, s3, (tr2 ++ tr3). cbn.
      split; [by rewrite Hlen|]. split; [done|].
      split; [done|]. split; [congruence|].
      split. { rewrite Hsink3, Hs2. done. }
      split; [exact Hpts|].
      split. { rewrite Htr3, Htr2. by rewrite <- app_assoc. }
      split; [done|].
      intros _. destruct (Hnoapi eq_refl) as (-> & Hw3 & Hc3).
      rewrite writes_app, Hw2, Hw3, Hc3, Hc2. done. }
    destruct Hcase as (Hok & Hw2 & Hc2 & Hs2).
    assert (Hpinned :
      Forall complete ((wd, ts) :: take n rest) ->
      ok :: oks = answers w (write_calls s) (S n)
      /\ write_calls s3 = (write_calls s + S n)%nat
      /\ Forall2 written_as ((wd, ts) :: take n rest) (writes (tr2 ++ tr3))
      /\ (writes (tr2 ++ tr3)).*1 = ok :: oks).
    { intros Hall. apply Forall_cons in Hall as [_ Hall].
      destruct (Hapi eq_refl Hall) as (Hoks & Hc3 & Hw3 & Hfl).
      rewrite writes_app, Hw2. cbn [app fmap list_fmap fst].
      split. { rewrite answers_S, <- Hok, <- Hc2, <- Hoks. done. }
      split; [lia|].
      split; [|by rewrite Hfl].
      constructor; [|exact Hw3].
      split; [exact Hp|]. exact (make_point_time _ _ _ Hp). }
    destruct ok.
    + exists (true :: oks), (p :: pts), s3, (tr2 ++ tr3). cbn.
      split; [by rewrite Hlen|]. split; [done|].
      split; [done|]. split; [congruence|].
      split. { rewrite Hsink3, Hs2. by rewrite <- app_assoc. }
      split. { constructor; [exact Hp|exact Hpts]. }
      split. { rewrite Htr3, Htr2. by rewrite <- app_assoc. }
      split; [intros _; exact Hpinned|done].
    + exists (false :: oks), pts, s3, (tr2 ++ tr3). cbn.
      split; [by rewrite Hlen|]. split; [done|].
      split; [done|]. split; [congruence|].
      split. { rewrite Hsink3, Hs2. done. }
      split; [exact Hpts|].
      split. { rewrite Htr3, Htr2. by rewrite <- app_assoc. }
      split; [intros _; exact Hpinned|done].
Qed.

End Writes.

(** ** The sender thread and the final drain when the sink answers *)

Section Delivery.
Import Daemon.
Context {F : Type} `{PyFloat F}.
Variable cfg : config.
Variable w : world.

Local Arguments Nat.ltb : simpl never.
Local Arguments Nat.leb : simpl never.

Lemma take_add_drop {A : Type} (a b : nat) (l : list A) :
  take (a + b) l = take a l ++ take b (drop a l).
Proof.
  revert l. induction a as [|a IH]; intros l; [done|].
  destruct l as [|x l]; cbn; [by rewrite take_nil|]. by rewrite IH.
Qed.

Lemma take_min_length {A : Type} (n : nat) (l : list A) :
  take (Nat.min n (length l)) l = take n l.
Proof.
  destruct (Nat.le_gt_cases n (length l)).
  - by rewrite Nat.min_l.
  - rewrite Nat.min_r by lia. rewrite !take_ge by lia. done.
Qed.

Lemma drop_min_length {A : Type} (n : nat) (l : list A) :
  drop (Nat.min n (length l)) l = drop n l.
Proof.
  destruct (Nat.le_gt_cases n (length l)).
  - by rewrite Nat.min_l.
  - rewrite Nat.min_r by lia. rewrite !drop_ge by lia. done.
Qed.

Lemma send_accepted (weather_data : gmap str F) (timestamp : Z) (pt : @point F)
    (s : @state F) :
  write_api s = true -> influx_write w (write_calls s) = true ->
  make_point weather_data timestamp = Some pt ->
  exists s',
    send_to_influxdb w weather_data (Some timestamp) s = Ret true s'
    /\ data_queue s' = data_queue s /\ sink s' = sink s ++ [pt]
    /\ write_api s' = true /\ influx_client s' = influx_client s.
Proof.
  intros Hwa Hok Hpt.
  unfold send_to_influxdb, timestamp_or_now, bindM, get, now, ret, log, emit, modify.
  cbn. rewrite Hpt, Hwa. cbn. rewrite Hok. cbn.
  eexists. split; [reflexivity|]. done.
Qed.

(** With a sink that accepts, the batch loop sends the [n] oldest pairs
    in their order and collects nothing to put back. *)
Lemma sender_batch_all_accepted (n : nat) :
  (forall i, influx_write w i = true) ->
  forall (s : @state F) (sent_count : nat) (failed_items : list (@item F)),
    (n <= qsize (data_queue s))%nat ->
    write_api s = true ->
    Forall complete (items (data_queue s)) ->
    exists pts s1,
      sender_batch w n sent_count failed_items s
      = Ret ((sent_count + n)%nat, failed_items) s1
      /\ Forall2 point_of (take n (items (data_queue s))) pts
      /\ sink s1 = sink s ++ pts
      /\ items (data_queue s1) = drop n (items (data_queue s))
      /\ maxsize (data_queue s1) = maxsize (data_queue s)
      /\ write_api s1 = true /\ influx_client s1 = influx_client s.
Proof.
  intros Hw. induction n as [|n IH]; intros s sent failed Hn Hwa Hall.
  - exists [], s. cbn. rewrite Nat.add_0_r, app_nil_r, drop_0.
    split; [done|]. split; [constructor|]. done.
  - unfold qsize in Hn.
    destruct (items (data_queue s)) as [|[wd ts] rest] eqn:Hit; [cbn in Hn; lia|].
    apply Forall_cons in Hall as [[pt Hpt] Hall]. cbn in Hpt.
    cbn [sender_batch]. unfold bindM at 1.
    rewrite (q_get_nowait_cons _ _ _ Hit).
    set (s1 := upd_data_queue _ s).
    destruct (send_accepted wd ts pt s1 Hwa (Hw _) Hpt)
      as (s2 & Hsend & Hq2 & Hsink2 & Hwa2 & Hic2).
    unfold bindM at 1. rewrite Hsend.
    destruct (IH s2 (S sent) failed)
      as (pts & s3 & Hrun & Hpts & Hsink3 & Hit3 & Hmax3 & Hwa3 & Hic3).
    { unfold qsize. rewrite Hq2. subst s1. cbn in *. lia. }
    { exact Hwa2. }
    { rewrite Hq2. exact Hall. }
    rewrite Hq2 in Hpts, Hit3, Hmax3. subst s1. cbn in *.
    exists (pt :: pts), s3.
    split. { rewrite Hrun. do 2 f_equal. lia. }
    split. { constructor; [exact Hpt|exact Hpts]. }
    split. { rewrite Hsink3, Hsink2. by rewrite <- app_assoc. }
    repeat split; congruence.
Qed.

Lemma sender_cycle_all_accepted (s : @state F) :
  (forall i, influx_write w i = true) ->
  influx_client s = true -> write_api s = true ->
  Forall complete (items (data_queue s)) ->
  exists pts s',
    data_sender_cycle cfg w s = Ret tt s'
    /\ Forall2 point_of (take 10 (items (data_queue s))) pts
    /\ sink s' = sink s ++ pts
    /\ items (data_queue s') = drop 10 (items (data_queue s))
    /\ influx_client s' = true /\ write_api s' = true.
Proof.
  intros Hw Hic Hwa Hall. unfold data_sender_cycle.
  unfold bindM at 1. unfold get at 1.
  destruct (empty (data_queue s)) eqn:Hempty.
  - unfold empty in Hempty.
    destruct (items (data_queue s)) eqn:Hit; [|done].
    exists []. unfold sleep, bindM, modify, emit, modify. cbn.
    eexists. split; [reflexivity|]. cbn. rewrite Hit, app_nil_r.
    repeat split; done.
  - rewrite Hic.
    destruct (sender_batch_all_accepted (Nat.min 10 (qsize (data_queue s))) Hw
                s 0%nat [] ltac:(lia) Hwa Hall)
      as (pts & s1 & Hrun & Hpts & Hsink & Hit & _ & Hwa1 & Hic1).
    unfold bindM at 1. rewrite Hrun.
    unfold qsize in Hpts, Hit. rewrite take_min_length in Hpts.
    rewrite drop_min_length in Hit.
    exists pts. cbn [sender_requeue].
    unfold bindM, ret, when, log, emit, modify.
    destruct (0 <? 0 + Nat.min 10 (qsize (data_queue s)))%nat; cbn.
    all: eexists; split; [reflexivity|]; cbn.
    all: rewrite Hic1 in *; done.
Qed.

(** X13.  Once the sink accepts, the sender thread delivers what is queued in
    the order of the queue, ten pairs a turn and each with its own
    timestamp: after [n] turns the [10 n] oldest pairs have become the
    newest points of the sink, in their order, and have left the queue;
    so a queue of at most [10 n] pairs is empty after [n] turns. *)
Theorem sender_delivers_in_queue_order (n : nat) (s : @state F) :
  (forall i, influx_write w i = true) ->
  influx_client s = true -> write_api s = true ->
  Forall complete (items (data_queue s)) ->
  exists pts s',
    data_sender_turns cfg w n s = Ret tt s'
    /\ Forall2 (fun x pt => point_of x pt /\ time pt = snd x)
         (take (10 * n) (items (data_queue s))) pts
    /\ sink s' = sink s ++ pts
    /\ items (data_queue s') = drop (10 * n) (items (data_queue s))
    /\ ((qsize (data_queue s) <= 10 * n)%nat -> empty (data_queue s') = true).
Proof.
  intros Hw. revert s. induction n as [|n IH]; intros s Hic Hwa Hall.
  - exists [], s. cbn. rewrite app_nil_r, drop_0.
    split; [done|]. split; [constructor|]. split; [done|]. split; [done|].
    unfold qsize, empty. intros Hle.
    destruct (items (data_queue s)); [done|cbn in Hle; lia].
  - destruct (sender_cycle_all_accepted s Hw Hic Hwa Hall)
      as (pts1 & s1 & Hcyc & Hpts1 & Hsink1 & Hit1 & Hic1 & Hwa1).
    destruct (IH s1 Hic1 Hwa1) as (pts2 & s2 & Hturns & Hpts2 & Hsink2 & Hit2 & _).
    { rewrite Hit1. by apply Forall_drop. }
    exists (pts1 ++ pts2), s2.
    cbn [data_sender_turns]. unfold bindM at 1. rewrite Hcyc.
    split; [exact Hturns|].
    replace (10 * S n)%nat with (10 + 10 * n)%nat by lia.
    rewrite Hit1 in Hpts2, Hit2. rewrite drop_drop in Hit2.
    split.
    { rewrite take_add_drop. apply Forall2_app; [|exact Hpts2].
      eapply Forall2_impl; [exact Hpts1|].
      intros x pt Hx. split; [exact Hx|]. exact (make_point_time _ _ _ Hx). }
    split. { rewrite Hsink2, Hsink1. by rewrite <- app_assoc. }
    split; [exact Hit2|].
    intros Hle. unfold empty. rewrite Hit2.
    rewrite drop_ge; [done|]. unfold qsize in Hle. lia.
Qed.

(** The final drain when the sink refuses. *)
Lemma cleanup_batch_all_refused (n : nat) :
  (forall i, influx_write w i = false) ->
  forall s : @state F, sink (final (cleanup_batch w n s)) = sink s.
Proof.
  intros Hw. induction n as [|n IH]; intros s; [done|].
  cbn [cleanup_batch]. unfold bindM at 1.
  unfold q_get_nowait, bindM, get, get_nowait, modify, ret.
  destruct (items (data_queue s)) as [|[wd ts] rest]; [done|].
  set (s1 := upd_data_queue _ s).
  destruct (send_refused w wd (Some ts) s1 (Hw _)) as (s2 & Hsend & _).
  pose proof (send_to_influxdb_effect w wd (Some ts) s1)
    as (ok & s2' & Hsend' & _ & _ & _ & _ & _ & Hko).
  rewrite Hsend in Hsend'. injection Hsend' as <- <-.
  rewrite Hsend. rewrite IH. by rewrite (Hko eq_refl).
Qed.

Lemma select_true_none {A : Type} (n : nat) (l : list A) :
  select true (replicate n false) l = [].
Proof.
  revert l. induction n as [|k IHk]; intros l; [done|].
  destruct l as [|x l]; [done|]. cbn. exact (IHk l).
Qed.

(** X14.  The final drain of [cleanup] takes the 50 oldest pairs out of the
    queue, or all of them when there are fewer, and sends each once: with
    a write API and pairs that have the four fields it makes exactly one
    write for each pair taken, in their order, of the pair's point with
    the pair's own timestamp; the sink holds the points it accepted, and
    the pairs it refused are not put back, so they are in neither the
    sink nor the queue afterwards; what is queued beyond the first 50 is
    left unsent.  With a sink that refuses everything the drain only
    empties the queue.  Without a client the drain does nothing. *)
Theorem final_drain_sends_once_and_keeps_nothing (s : @state F) :
  let n := Nat.min 50 (qsize (data_queue s)) in
  let batch := take 50 (items (data_queue s)) in
  exists s' tr,
    cleanup_drain w s = Ret tt s'
    /\ trace s' = trace s ++ tr
    /\ (if influx_client s then
          items (data_queue s') = drop 50 (items (data_queue s))
          /\ (exists oks pts,
                length oks = n
                /\ sink s' = sink s ++ pts
                /\ Forall2 point_of (select true oks batch) pts
                /\ (write_api s = true -> Forall complete batch ->
                    oks = answers w (write_calls s) n
                    /\ write_calls s' = (write_calls s + n)%nat
                    /\ Forall2 written_as batch (writes tr)
                    /\ (writes tr).*1 = oks)
                /\ (write_api s = false ->
                    writes tr = [] /\ sink s' = sink s))
          /\ ((forall i, influx_write w i = false) -> sink s' = sink s)
        else s' = s).
Proof.
  cbn zeta. unfold cleanup_drain. unfold bindM at 1. unfold get at 1.
  destruct (influx_client s) eqn:Hic; cbn [andb];
    [|exists s, []; by rewrite app_nil_r].
  destruct (empty (data_queue s)) eqn:Hempty; cbn [negb when].
  - exists s, []. rewrite app_nil_r. split; [done|]. split; [done|].
    unfold empty in Hempty.
    destruct (items (data_queue s)) eqn:Hit; [|done]. cbn.
    split; [done|]. split; [|done].
    exists [], []. unfold qsize. rewrite Hit, app_nil_r. cbn.
    split; [done|]. split; [done|]. split; [constructor|].
    split; [intros _ _|done].
    split; [done|]. split; [lia|]. split; [constructor|done].
  - unfold bindM at 1. cbn [log emit modify].
    set (s1 := upd_trace _ s).
    destruct (cleanup_batch_run w (Nat.min 50 (qsize (data_queue s))) s1)
      as (oks & pts & s2 & tr & Hlen & Hrun & Hit & _ & Hsink & Hpts & Htr
          & Hapi & Hnoapi).
    { change (data_queue s1) with (data_queue s). lia. }
    pose proof (fun Hw => cleanup_batch_all_refused
                  (Nat.min 50 (qsize (data_queue s))) Hw s1) as Hrefused.
    rewrite Hrun in *. cbn [final] in Hrefused.
    exists s2, ([EvLog Info (MsgRemaining (qsize (data_queue s)))] ++ tr).
    split; [done|].
    change (data_queue s1) with (data_queue s) in *.
    change (sink s1) with (sink s) in *.
    change (write_api s1) with (write_api s) in *.
    change (write_calls s1) with (write_calls s) in *.
    split. { rewrite Htr. subst s1. cbn. by rewrite <- app_assoc. }
    unfold qsize in Hit, Hpts, Hapi.
    rewrite drop_min_length in Hit. rewrite take_min_length in Hpts, Hapi.
    split; [exact Hit|]. split; [|exact Hrefused].
    exists oks, pts.
    split; [exact Hlen|]. split; [exact Hsink|]. split; [exact Hpts|].
    split.
    + intros Hwa Hall. destruct (Hapi Hwa Hall) as (Hoks & Hc & Hw & Hfl).
      rewrite writes_app. cbn [writes omap list_omap write_of app].
      done.
    + intros Hwa. destruct (Hnoapi Hwa) as (Hoks & Hw & _).
      rewrite writes_app, Hw. split; [done|].
      rewrite Hsink. subst oks.
      rewrite select_true_none in Hpts. inversion Hpts. by rewrite app_nil_r.
Qed.

End Delivery.

(** ** The merge of a loaded configuration with the defaults *)

Section MergeConfig.
Import Station.
Context {A : Type}.

Lemma value_nested_ind (P : value A -> Prop) :
  (forall a, P (Other a)) ->
  (forall entries, Forall (fun kv => P kv.2) entries -> P (Dict entries)) ->
  forall v, P v.
Proof.
  intros HO HD. fix IH 1. intros [a|entries]; [apply HO|].
  apply HD. induction entries as [|[k x] rest IHrest]; constructor.
  - apply IH.
  - exact IHrest.
Qed.

Lemma dict_get_set_eq (key : str) (v : value A) (d : dict) :
  dict_get key (dict_set key v d) = Some v.
Proof.
  induction d as [|[k x] rest IH]; cbn.
  - by rewrite decide_True.
  - destruct (decide (k = key)) as [->|Hne]; cbn.
    + by rewrite decide_True.
    + by rewrite decide_False.
Qed.

Lemma dict_get_set_ne (key key' : str) (v : value A) (d : dict) :
  key <> key' -> dict_get key' (dict_set key v d) = dict_get key' d.
Proof.
  intros Hne. induction d as [|[k x] rest IH]; cbn.
  - by rewrite decide_False.
  - destruct (decide (k = key)) as [->|Hk]; cbn.
    + by rewrite !decide_False.
    + destruct (decide (k = key')); [done|exact IH].
Qed.

Lemma dict_set_same (key : str) (v : value A) (d : dict) :
  dict_get key d = Some v -> dict_set key v d = d.
Proof.
  induction d as [|[k x] rest IH]; cbn; [done|].
  destruct (decide (k = key)) as [->|Hk].
  - by intros [= ->].
  - intros Hget. by rewrite IH.
Qed.

Lemma dict_get_None (key : str) (d : @dict A) :
  dict_get key d = None <-> key ∉ keys d.
Proof.
  induction d as [|[k x] rest IH]; cbn.
  - split; [intros _; apply not_elem_of_nil|done].
  - destruct (decide (k = key)) as [->|Hk].
    + split; [done|]. intros Hn. destruct Hn. apply elem_of_cons. by left.
    + rewrite IH. unfold keys. cbn. rewrite not_elem_of_cons. naive_solver.
Qed.

Lemma dict_get_entry (key : str) (v : value A) (d : @dict A) :
  NoDup (keys d) -> (key, v) ∈ d -> dict_get key d = Some v.
Proof.
  induction d as [|[k x] rest IH]; cbn; intros Hnd Hin.
  - by apply elem_of_nil in Hin.
  - apply NoDup_cons in Hnd as [Hk Hnd].
    apply elem_of_cons in Hin as [[= <- <-]|Hin].
    + by rewrite decide_True.
    + rewrite decide_False; [by apply IH|].
      intros ->. apply Hk. unfold keys.
      apply list_elem_of_fmap. by exists (key, v).
Qed.

Lemma merged_values (old new : value A) :
  merged (Some old) new = merge_values old new.
Proof. by destruct old, new. Qed.

Lemma merge_config_cons (d : dict) (key : str) (v : value A) (rest : dict) :
  merge_config d ((key, v) :: rest)
  = merge_config (dict_set key (merged (dict_get key d) v) d) rest.
Proof. reflexivity. Qed.

Lemma merge_config_absent (key : str) (loaded : @dict A) :
  forall d, key ∉ keys loaded ->
    dict_get key (merge_config d loaded) = dict_get key d.
Proof.
  induction loaded as [|[k x] rest IH]; intros d Hk; [done|].
  unfold keys in Hk. cbn in Hk. apply not_elem_of_cons in Hk as [Hne Hk].
  rewrite merge_config_cons, IH by exact Hk.
  by apply dict_get_set_ne.
Qed.

Lemma merge_config_lookup (key : str) (loaded : @dict A) :
  NoDup (keys loaded) ->
  forall d,
    dict_get key (merge_config d loaded)
    = match dict_get key loaded with
      | None => dict_get key d
      | Some v => Some (merged (dict_get key d) v)
      end.
Proof.
  induction loaded as [|[k x] rest IH]; intros Hnd d; [done|].
  unfold keys in Hnd. cbn in Hnd. apply NoDup_cons in Hnd as [Hk Hnd].
  rewrite merge_config_cons. cbn [dict_get].
  destruct (decide (k = key)) as [->|Hne].
  - rewrite merge_config_absent by exact Hk. apply dict_get_set_eq.
  - rewrite IH by exact Hnd.
    by rewrite dict_get_set_ne.
Qed.

(** X15.  The configuration [merge_config] returns, key by key, for a loaded
    dict as [json.load] gives it, with no key twice: a key the file does
    not have keeps the default; a key whose default and loaded values are
    both dicts gets the merge of the two; under any other key of the file
    the loaded value replaces the default, whatever the two are. *)
Theorem merge_config_key_by_key (default loaded : @dict A) (key : str) :
  NoDup (keys loaded) ->
  dict_get key (merge_config default loaded)
  = match dict_get key loaded, dict_get key default with
    | None, old => old
    | Some new, Some old => Some (merge_values old new)
    | Some new, None => Some new
    end.
Proof.
  intros Hnd. rewrite merge_config_lookup by exact Hnd.
  destruct (dict_get key loaded) as [new|]; [|by destruct (dict_get key default)].
  destruct (dict_get key default) as [old|].
  - by rewrite merged_values.
  - by destruct new.
Qed.

Lemma merge_config_fixed (d loaded : @dict A) :
  (forall key v, (key, v) ∈ loaded ->
     dict_get key d = Some v /\ merged (Some v) v = v) ->
  merge_config d loaded = d.
Proof.
  induction loaded as [|[k x] rest IH]; intros Hall; [done|].
  rewrite merge_config_cons.
  destruct (Hall k x) as [Hget Hm]; [apply elem_of_cons; by left|].
  rewrite Hget, Hm, (dict_set_same _ _ _ Hget).
  apply IH. intros key v Hin. apply Hall. apply elem_of_cons. by right.
Qed.

Lemma merged_with_itself (v : value A) :
  well_formed v -> merged (Some v) v = v.
Proof.
  induction v as [a|entries IH] using value_nested_ind; [done|].
  intros Hwf. inversion Hwf as [|? Hnd Hall]; subst.
  rewrite merged_values. cbn. f_equal.
  apply merge_config_fixed. intros key v Hin.
  split; [by apply dict_get_entry|].
  rewrite Forall_forall in IH, Hall.
  apply (IH (key, v)); [done|]. by apply (Hall (key, v)).
Qed.

(** X16.  Loading a file that holds the defaults themselves, as the one
    [load_config] writes when there is none, gives the defaults back; so
    does a file with no key at all. *)
Theorem merge_config_with_defaults_is_identity (default : @dict A) :
  well_formed (Dict default) ->
  merge_config default default = default
  /\ merge_config default [] = default.
Proof.
  intros Hwf. split; [|done].
  pose proof (merged_with_itself _ Hwf) as Hm.
  rewrite merged_values in Hm. cbn in Hm. by injection Hm.
Qed.

End MergeConfig.

(** ** The daemon of [weather_daemon.py]: start and collection *)

Section StationProperties.
Import Station.
Context {F : Type} `{PyFloat F}.
Variable cfg : settings.
Variable w : world.

Local Ltac station_cbn :=
  cbn -[Collector.parse_weather_data strip Z.add].

Local Ltac station_unfold :=
  unfold collect_turn, use_line, write_to_influxdb, on_exception, setup_serial,
    setup_influxdb, sleep, when, log, bindM, get, modify, ret;
  station_cbn.

Lemma collector_parse_nonempty (line : str) (parsed_data : gmap str F) :
  Collector.parse_weather_data line = Ok (Some parsed_data) ->
  parsed_data <> ∅ /\ strip line <> [].
Proof.
  unfold Collector.parse_weather_data, Collector.parse_body, try_except.
  destruct (decide (strip line = [])) as [|Hne]; [done|].
  destruct (Collector.parse_pairs ∅ (split " " (strip line))) as [d|e]; cbn; [|done].
  unfold Collector.nonempty_or_none.
  destruct (decide (d = ∅)); [done|]. by intros [= <-].
Qed.

(** X17.  [start] returns [True] exactly when the port opens and the sink
    answers at the first attempt; it makes one attempt at the port, one
    at the sink only after the port has opened, and sets [running] only
    when it returns [True]; a port it has opened stays open when the sink
    then fails. *)
Theorem start_succeeds_iff_both_connect (s : @state F) :
  let serial_ok := serial_open w (serial_calls s) in
  let influx_ok :=
    match influx_open w (influx_calls s) with
    | Daemon.InfluxConnected => true
    | _ => false
    end in
  let s' := (start w s).2 in
  (start w s).1 = serial_ok && influx_ok
  /\ running s' = (if serial_ok && influx_ok then true else running s)
  /\ serial_calls s' = S (serial_calls s)
  /\ influx_calls s' = (if serial_ok then S (influx_calls s) else influx_calls s)
  /\ serial_is_open s' = serial_ok.
Proof.
  cbn zeta.
  unfold start, setup_serial, setup_influxdb, bindM, get, when, log, modify, ret,
    serial_is_open.
  cbn.
  destruct (serial_conn s) as [[|]|] eqn:Hconn; cbn.
  all: destruct (serial_open w (serial_calls s)); cbn.
  all: try destruct (influx_open w (influx_calls s)); cbn.
  all: rewrite ?Hconn; repeat split; reflexivity.
Qed.

(** X18.  A turn of the collection loop with the port open and a line that
    parses: the reading is written once, as one batch stamped with the
    clock; when the write is refused, or there is no write API, the
    reading is dropped, the sink is tried once and the turn goes on to
    its pause: the reading is not written again. *)
Theorem refused_reading_is_dropped (text : str) (parsed_data : gmap str F)
    (s : @state F) :
  serial_is_open s = true ->
  serial_read w (read_calls s) = Daemon.Line text ->
  Collector.parse_weather_data (strip text) = Ok (Some parsed_data) ->
  let accepted := write_api s && influx_write w (write_calls s) in
  let s' := (collect_turn cfg w s).2 in
  sink s' = (if accepted then sink s ++ [(parsed_data, clock s)] else sink s)
  /\ write_calls s' = (if write_api s then S (write_calls s) else write_calls s)
  /\ influx_calls s' = (if accepted then influx_calls s else S (influx_calls s))
  /\ serial_calls s' = serial_calls s
  /\ clock s' = clock s + loop_delay cfg.
Proof.
  intros Hopen Hread Hparse. cbn zeta.
  destruct (collector_parse_nonempty _ _ Hparse) as [Hne _].
  assert (Hline : strip text <> []).
  { intros E. rewrite E in Hparse. by destruct (collector_parse_nonempty _ _ Hparse). }
  station_unfold. rewrite Hopen. station_cbn. rewrite Hread. station_cbn.
  destruct (decide (strip text = [])) as [|_]; [done|].
  station_cbn. rewrite Hparse. station_cbn.
  destruct (decide (parsed_data = ∅)) as [|_]; [done|]. station_cbn.
  destruct (write_api s); station_cbn.
  1: destruct (influx_write w (write_calls s)); station_cbn.
  all: try destruct (influx_open w (influx_calls s)); station_cbn.
  all: repeat split; reflexivity.
Qed.

Lemma advance_trans (p1 p2 : Z) (r1 r2 w1 w2 t1 t2 o1 o2 : nat)
    (s1 s2 s3 : @state F) :
  advance p1 r1 w1 t1 o1 s1 s2 -> advance p2 r2 w2 t2 o2 s2 s3 ->
  advance (p1 + p2) (r1 + r2) (w1 + w2) (t1 + t2) (o1 + o2) s1 s3.
Proof. unfold advance. intros (?&?&?&?&?&?) (?&?&?&?&?&?). repeat split; lia || congruence. Qed.

Lemma advance_weaken (p : Z) (r r' w1 w1' t t' o o' : nat) (s s' : @state F) :
  (r <= r')%nat -> (w1 <= w1')%nat -> (t <= t')%nat -> (o <= o')%nat ->
  advance p r w1 t o s s' -> advance p r' w1' t' o' s s'.
Proof. unfold advance. intros ? ? ? ? (?&?&?&?&?&?). repeat split; lia || congruence. Qed.

Lemma advance_sleep (d : Z) (s : @state F) :
  advance d 0 0 0 0 s (sleep d s).2.
Proof. unfold advance. cbn. repeat split; lia. Qed.

Lemma advance_log (l : Daemon.level) (m : message) (s : @state F) :
  advance 0 0 0 0 0 s (log l m s).2.
Proof. unfold advance. cbn. repeat split; lia. Qed.

Lemma advance_setup_serial (s : @state F) :
  advance 0 0 0 0 1 s (setup_serial w s).2.
Proof.
  unfold advance. station_unfold.
  destruct (serial_is_open s); station_cbn.
  all: destruct (serial_open w (serial_calls s)); station_cbn.
  all: repeat split; lia.
Qed.

Lemma advance_setup_influxdb (s : @state F) :
  advance 0 0 0 1 0 s (setup_influxdb w s).2.
Proof.
  unfold advance. station_unfold.
  destruct (influx_open w (influx_calls s)); station_cbn.
  all: repeat split; lia.
Qed.

Lemma advance_use_line (line : str) (s : @state F) :
  advance 0 0 1 1 0 s (use_line w line s).2.
Proof.
  unfold advance. station_unfold.
  destruct (Collector.parse_weather_data line) as [[d|]|e]; station_cbn.
  1: destruct (decide (d = ∅)) as [|_]; station_cbn.
  2: destruct (write_api s); station_cbn.
  2: destruct (influx_write w (write_calls s)); station_cbn.
  all: try destruct (influx_open w (influx_calls s)); station_cbn.
  all: repeat split; lia.
Qed.

Lemma advance_on_exception (e : exn) (s : @state F) :
  advance (retry_delay cfg) 0 0 0 1 s (on_exception cfg w e s).2.
Proof.
  unfold on_exception.
  destruct e.
  2: { unfold bindM. cbn [log modify].
       destruct (sleep (retry_delay cfg) _) as [[] s2] eqn:Hs.
       pose proof (advance_sleep (retry_delay cfg)
                     (add_event (EvLog Daemon.Error MsgSerialError) s)) as H1.
       rewrite Hs in H1. cbn [snd] in H1.
       pose proof (advance_setup_serial s2) as H2.
       destruct (setup_serial w s2) as [b s3]. cbn [snd] in *.
       pose proof (advance_trans _ _ _ _ _ _ _ _ _ _ _ _ _ H1 H2) as H3.
       unfold advance in *. cbn in H3. cbn. repeat split; lia || tauto. }
  all: unfold advance; station_unfold; repeat split; lia.
Qed.

(** X19.  Every turn of the collection loop pauses exactly once, for
    [loop_delay] or for [retry_delay], whatever the port and the sink do:
    the loop never spins.  In a turn the port is read at most once, the
    sink is written to at most once and tried at most once, and the port
    is opened at most twice (once before the read and once after a read
    that raises [SerialException]). *)
Theorem collect_turn_pauses_once (s : @state F) :
  let s' := (collect_turn cfg w s).2 in
  advance (loop_delay cfg) 1 1 1 2 s s' \/ advance (retry_delay cfg) 1 1 1 2 s s'.
Proof.
  cbn zeta.
  set (P := fun s' : @state F =>
         advance (loop_delay cfg) 1 1 1 2 s s'
         \/ advance (retry_delay cfg) 1 1 1 2 s s').
  change (P (collect_turn cfg w s).2).
  unfold collect_turn.
  unfold bindM at 1. unfold get at 1.
  unfold bindM at 1.
  assert (H1 : advance 0 0 0 0 1 s
                 ((if serial_is_open s then ret true
                   else bindM (log Daemon.Warning MsgSerialLost)
                          (fun _ => setup_serial w)) s).2).
  { destruct (serial_is_open s).
    - unfold advance. cbn. repeat split; lia.
    - unfold bindM. cbn [log modify].
      pose proof (advance_setup_serial
                    (add_event (EvLog Daemon.Warning MsgSerialLost) s)) as Hs.
      unfold advance in *. cbn in Hs. exact Hs. }
  match type of H1 with
  | advance _ _ _ _ _ _ (?t).2 => destruct t as [connected s1]
  end.
  cbn [snd] in H1.
  destruct connected; cbn [negb].
  2: { unfold P. right. pose proof (advance_sleep (retry_delay cfg) s1) as H2.
       pose proof (advance_trans _ _ _ _ _ _ _ _ _ _ _ _ _ H1 H2) as H3.
       eapply advance_weaken; [| | | |exact H3]; lia. }
  unfold bindM at 1. unfold get at 1.
  unfold bindM at 1. cbn [modify].
  assert (Hr : advance 0 1 0 0 0 s1 (next_read_call s1)).
  { unfold advance. cbn. repeat split; lia. }
  pose proof (advance_trans _ _ _ _ _ _ _ _ _ _ _ _ _ H1 Hr) as H2.
  clear H1 Hr. set (s2 := next_read_call s1) in *.
  unfold bindM.
  assert (Hbody : advance 0 0 1 1 0 s2
            (match serial_read w (read_calls s1) with
             | Daemon.NothingWaiting => ret (Ok tt)
             | Daemon.Line text =>
                 if decide (strip text = []) then ret (Ok tt)
                 else use_line w (strip text)
             | Daemon.ReadRaises e => ret (Raise e)
             end s2).2).
  { destruct (serial_read w (read_calls s1)) as [|text|e].
    - unfold advance. cbn. repeat split; lia.
    - destruct (decide (strip text = [])).
      + unfold advance. cbn. repeat split; lia.
      + apply advance_use_line.
    - unfold advance. cbn. repeat split; lia. }
  match type of Hbody with
  | advance _ _ _ _ _ _ (?t).2 => destruct t as [body s3]
  end.
  cbn [snd] in Hbody.
  pose proof (advance_trans _ _ _ _ _ _ _ _ _ _ _ _ _ H2 Hbody) as H3.
  destruct body as [[]|e].
  - unfold P. left. pose proof (advance_sleep (loop_delay cfg) s3) as H4.
    pose proof (advance_trans _ _ _ _ _ _ _ _ _ _ _ _ _ H3 H4) as H5.
    eapply advance_weaken; [| | | |exact H5]; lia.
  - unfold P. right. pose proof (advance_on_exception e s3) as H4.
    pose proof (advance_trans _ _ _ _ _ _ _ _ _ _ _ _ _ H3 H4) as H5.
    eapply advance_weaken; [| | | |exact H5]; lia.
Qed.

End StationProperties.
(** ** The sender and the timestamps, with the writes counted *)

Section SenderRuns.
Import Daemon.
Context {F : Type} `{PyFloat F}.
Variable cfg : config.
Variable w : world.

Local Arguments Nat.ltb : simpl never.
Local Arguments Nat.leb : simpl never.

(** Putting pairs back makes no write. *)
Lemma sender_requeue_quiet (xs : list (@item F)) :
  forall s : @state F,
    exists s' tr,
      sender_requeue xs s = Ret tt s'
      /\ trace s' = trace s ++ tr
      /\ writes tr = []
      /\ write_calls s' = write_calls s.
Proof.
  induction xs as [|x xs IH]; intros s.
  - exists s, []. cbn. by rewrite app_nil_r.
  - cbn [sender_requeue].
    unfold bindM at 1. unfold q_put_nowait, bindM at 1, get at 1, put_nowait.
    destruct (full (data_queue s)).
    + cbn [ret]. unfold bindM at 1. cbn [log emit modify].
      set (s1 := upd_trace _ s).
      destruct (IH s1) as (s' & tr & Hrun & Htr & Hw & Hc).
      exists s', ([EvLog Warning MsgRequeueFullDrop] ++ tr).
      split; [exact Hrun|]. subst s1. cbn in *.
      rewrite Htr, <- app_assoc. done.
    + unfold bindM at 1. cbn [modify].
      set (s1 := upd_data_queue _ s).
      unfold bindM at 1. cbn [ret].
      destruct (IH s1) as (s' & tr & Hrun & Htr & Hw & Hc).
      exists s', tr. split; [exact Hrun|]. subst s1. cbn in *. done.
Qed.

Lemma select_false_length {A : Type} (oks : list bool) (l : list A) :
  (length (select false oks l) <= length oks)%nat.
Proof.
  revert l. induction oks as [|ok oks IH]; intros l; [cbn; lia|].
  destruct l as [|x l]; cbn; [lia|]. specialize (IH l).
  destruct ok; cbn; lia.
Qed.

(** C5, as the code has it.  A turn of the sender that starts with the
    queue within its capacity returns.  With an empty queue, or without
    a sink client, it leaves queue and sink alone and makes no write.
    Otherwise it takes the [min(10, qsize)] oldest pairs in their order
    and sends each: with a write API and pairs that have the four
    fields, the turn makes exactly one write for each pair taken, in
    their order, of the point of the pair with the timestamp of the
    pair, and the answers of the sink to these writes decide which
    pairs are accepted; without a write API it makes no write and every
    pair is refused.  The sink holds the points of the pairs accepted,
    and the pairs refused are put back, in their order, behind the pairs
    that were not taken.  Putting a pair back is a plain [put_nowait] in
    any state of the queue: the pair goes last when there is room, and
    when the queue is full it is the pair itself that is left out, with
    a warning, while the queue stays as it is; it always returns. *)
Theorem sender_turn_sends_batch_and_puts_back (s : @state F) :
  within_capacity (data_queue s) ->
  (exists s' tr,
     data_sender_cycle cfg w s = Ret tt s'
     /\ trace s' = trace s ++ tr
     /\ if empty (data_queue s) || negb (influx_client s) then
          items (data_queue s') = items (data_queue s) /\ sink s' = sink s
          /\ writes tr = [] /\ write_calls s' = write_calls s
        else
          let k := Nat.min 10 (qsize (data_queue s)) in
          let batch := take k (items (data_queue s)) in
          exists oks pts,
            length oks = k
            /\ sink s' = sink s ++ pts
            /\ Forall2 point_of (select true oks batch) pts
            /\ items (data_queue s') =
                 drop k (items (data_queue s)) ++ select false oks batch
            /\ (write_api s = true -> Forall complete batch ->
                oks = answers w (write_calls s) k
                /\ write_calls s' = (write_calls s + k)%nat
                /\ Forall2 written_as batch (writes tr)
                /\ (writes tr).*1 = oks)
            /\ (write_api s = false ->
                oks = replicate k false
                /\ writes tr = []
                /\ write_calls s' = write_calls s))
  /\ (forall (x : @item F) (t : @state F),
        exists t',
          sender_requeue [x] t = Ret tt t'
          /\ items (data_queue t') = after_put_nowait (data_queue t) x
          /\ trace t' =
               trace t ++ (if full (data_queue t)
                           then [EvLog Warning MsgRequeueFullDrop] else [])).
Proof.
  intros Hcap. split.
  - unfold data_sender_cycle. unfold bindM at 1. unfold get at 1.
    destruct (empty (data_queue s)) eqn:Hempty; cbn [orb].
    { cbn. eexists. eexists. split; [reflexivity|]. cbn.
      split; [reflexivity|]. done. }
    destruct (influx_client s) eqn:Hic; cbn [negb]; cycle 1.
    { cbn. eexists. eexists. split; [reflexivity|]. cbn.
      split; [reflexivity|]. done. }
    set (k := Nat.min 10 (qsize (data_queue s))).
    destruct (sender_batch_run w k s 0%nat [])
      as (oks & pts & s1 & tr1 & Hlen & Hrun & Hit1 & Hmax1 & Hsink1 & Hpts
          & Htr1 & Hapi & Hnoapi);
      [subst k; lia|].
    unfold bindM at 1. rewrite Hrun. cbn [app].
    set (failed := select false oks (take k (items (data_queue s)))) in *.
    assert (Hfailed : (length failed <= k)%nat).
    { subst failed. rewrite <- Hlen. apply select_false_length. }
    destruct (sender_requeue_room failed s1)
      as (s2 & Hrq & Hmax2 & Hit2 & Hsink2).
    { unfold within_capacity, qsize in *. rewrite Hmax1, Hit1, length_drop.
      subst k. unfold qsize in *. lia. }
    destruct (sender_requeue_quiet failed s1)
      as (s2' & tr2 & Hrq' & Htr2 & Hw2 & Hc2).
    rewrite Hrq in Hrq'. injection Hrq' as <-.
    unfold bindM at 1. rewrite Hrq.
    destruct (0 <? 0 + length pts)%nat; cbn.
    all: eexists; eexists; split; [reflexivity|]; cbn.
    all: rewrite Htr2, Htr1, <- ?app_assoc; split; [reflexivity|].
    all: exists oks, pts; rewrite ?Hit2, ?Hsink2, ?Hit1, ?Hsink1.
    all: split; [done|]; split; [done|]; split; [done|]; split; [done|].
    all: rewrite ?writes_app, Hw2, ?app_nil_r, Hc2; cbn.
    all: rewrite ?app_nil_r; split; [exact Hapi | exact Hnoapi].
  - intros x t. destruct (sender_requeue_one x t) as (t' & Hrun & _ & Hit & _ & Htr).
    exists t'. done.
Qed.

(** C10. A reading queued without a timestamp is paired with the clock
    of the moment it is queued.  The batch loop of the sender and the
    final drain of [cleanup] send each pair they take with the timestamp
    stored in the pair, whatever the clock is then: with a write API and
    pairs that have the four fields they make exactly one write for each
    pair taken, in their order, of the point of the pair with the
    timestamp of the pair, the answers of the sink to these writes
    decide which points the sink holds, and the sender collects the
    refused pairs unchanged.  A reading sent without a timestamp is
    written, once, with the clock of the moment it is sent. *)
Theorem queued_timestamp_is_preserved (weather_data : gmap str F) (n : nat)
    (s : @state F) :
  within_capacity (data_queue s) ->
  (n <= qsize (data_queue s))%nat ->
  let batch := take n (items (data_queue s)) in
  (exists s',
     queue_data weather_data None s = Ret tt s'
     /\ last (items (data_queue s')) = Some (weather_data, clock s))
  /\ (exists oks pts s' tr,
        length oks = n
        /\ sender_batch w n 0 [] s =
             Ret (length pts, select false oks batch) s'
        /\ sink s' = sink s ++ pts
        /\ Forall2 (fun x p => point_of x p /\ time p = snd x)
             (select true oks batch) pts
        /\ trace s' = trace s ++ tr
        /\ (write_api s = true -> Forall complete batch ->
            oks = answers w (write_calls s) n
            /\ Forall2 written_as batch (writes tr)
            /\ (writes tr).*1 = oks)
        /\ (write_api s = false -> oks = replicate n false /\ writes tr = []))
  /\ (exists oks pts s' tr,
        length oks = n
        /\ cleanup_batch w n s = Ret tt s'
        /\ sink s' = sink s ++ pts
        /\ Forall2 (fun x p => point_of x p /\ time p = snd x)
             (select true oks batch) pts
        /\ trace s' = trace s ++ tr
        /\ (write_api s = true -> Forall complete batch ->
            oks = answers w (write_calls s) n
            /\ Forall2 written_as batch (writes tr)
            /\ (writes tr).*1 = oks)
        /\ (write_api s = false -> oks = replicate n false /\ writes tr = []))
  /\ (exists ok s' tr,
        send_to_influxdb w weather_data None s = Ret ok s'
        /\ trace s' = trace s ++ tr
        /\ (ok = true -> exists p, sink s' = sink s ++ [p] /\ time p = clock s)
        /\ (ok = false -> sink s' = sink s)
        /\ (write_api s = true -> complete (weather_data, clock s) ->
            exists p,
              make_point weather_data (clock s) = Some p
              /\ time p = clock s
              /\ ok = influx_write w (write_calls s)
              /\ writes tr = [(ok, p)])
        /\ (write_api s = false -> ok = false /\ writes tr = [])).
Proof.
  intros Hcap Hn batch. subst batch.
  assert (Hboth : forall (xs : list (@item F)) pts,
             Forall2 point_of xs pts ->
             Forall2 (fun x p => point_of x p /\ time p = snd x) xs pts).
  { intros xs pts HF. induction HF as [|x p xs pts Hp _ IH]; constructor;
      [|exact IH]. split; [exact Hp | exact (make_point_time _ _ _ Hp)]. }
  split; [|split; [|split]].
  - destruct (queue_data_effect weather_data None s Hcap)
      as (s' & Hrun & _ & Hit & _).
    exists s'. split; [done|]. rewrite Hit. unfold after_queue_data.
    apply last_snoc.
  - destruct (sender_batch_run w n s 0%nat [] Hn)
      as (oks & pts & s' & tr & Hlen & Hrun & _ & _ & Hsink & Hpts & Htr
          & Hapi & Hnoapi).
    exists oks, pts, s', tr. split; [done|]. split; [exact Hrun|].
    split; [done|]. split; [by apply Hboth|]. split; [done|].
    split.
    + intros Hwa Hall. destruct (Hapi Hwa Hall) as (? & _ & ? & ?). done.
    + intros Hwa. destruct (Hnoapi Hwa) as (? & ? & _). done.
  - destruct (cleanup_batch_run w n s Hn)
      as (oks & pts & s' & tr & Hlen & Hrun & _ & _ & Hsink & Hpts & Htr
          & Hapi & Hnoapi).
    exists oks, pts, s', tr. split; [done|]. split; [done|].
    split; [done|]. split; [by apply Hboth|]. split; [done|].
    split.
    + intros Hwa Hall. destruct (Hapi Hwa Hall) as (? & _ & ? & ?). done.
    + intros Hwa. destruct (Hnoapi Hwa) as (? & ? & _). done.
  - destruct (send_to_influxdb_effect w weather_data None s)
      as (ok & s' & Hrun & _ & _ & _ & _ & Hok & Hko).
    destruct (send_to_influxdb_run w weather_data None s)
      as (ok' & s2 & tr & Hrun' & Htr & _ & _ & Hcase).
    rewrite Hrun in Hrun'. injection Hrun' as <- <-.
    exists ok, s', tr. split; [done|]. split; [done|].
    split.
    { intros E. destruct (Hok E) as (p & Hp & Hsink).
      exists p. split; [done|]. exact (make_point_time _ _ _ Hp). }
    split; [done|].
    cbn [default] in Hcase. split.
    + intros Hwa [p Hp]. cbn [fst snd] in Hp. rewrite Hp, Hwa in Hcase.
      exists p. destruct Hcase as (? & ? & _).
      split; [done|]. split; [exact (make_point_time _ _ _ Hp)|]. done.
    + intros Hwa. rewrite Hwa in Hcase.
      destruct (make_point weather_data (clock s)); destruct Hcase as (? & ? & _); done.
Qed.

End SenderRuns.

(** ** The connection attempts of a turn of the watchdog *)

Section WatchdogRuns.
Import Daemon.
Context {F : Type} `{PyFloat F}.
Variable cfg : config.
Variable w : world.

Local Arguments Nat.ltb : simpl never.
Local Arguments Nat.leb : simpl never.

Local Arguments opens : simpl never.

Lemma serial_tries_app (a b : list (@event F)) :
  serial_tries (a ++ b) = serial_tries a ++ serial_tries b.
Proof. unfold serial_tries. apply omap_app. Qed.

Lemma opens_S (k n : nat) :
  opens w k (S n) = serial_open w k :: opens w (S k) n.
Proof.
  unfold opens. cbn [seq fmap list_fmap]. rewrite Nat.add_0_r. f_equal.
  rewrite <- seq_shift, <- list_fmap_compose. apply list_fmap_ext.
  intros _ i _. cbn. f_equal. lia.
Qed.

(** The attempts of one call of [connect_serial]: it asks the port
    again and again, from its next answer on, until the port opens or
    the retries are used up. *)
Lemma connect_serial_loop_tries (k : nat) :
  forall (r fuel : nat) (s : @state F),
    (r + k = max_serial_retries cfg)%nat -> (k < fuel)%nat ->
    exists b s' tr n,
      connect_serial_loop cfg w fuel r s = Ret (Some b) s'
      /\ trace s' = trace s ++ tr
      /\ serial_tries tr = opens w (serial_calls s) n
      /\ count_events is_serial_try tr = n
      /\ serial_calls s' = (serial_calls s + n)%nat
      /\ (n <= k)%nat
      /\ (running s = false -> n = 0%nat)
      /\ (running s = true ->
          if b then
            exists j, n = S j
              /\ Forall (fun t => failed_try t = true) (opens w (serial_calls s) j)
              /\ serial_open w (serial_calls s + j) = SerialOpened
              /\ serial_is_open s' = true
          else
            n = k
            /\ Forall (fun t => failed_try t = true) (opens w (serial_calls s) k)).
Proof.
  induction k as [|k IH]; intros r fuel s Hr Hfuel.
  - destruct fuel as [|fuel]; [lia|]. cbn.
    unfold bindM, get. cbn.
    replace (r <? max_serial_retries cfg)%nat with false
      by (symmetry; apply Nat.ltb_ge; lia).
    cbn. exists false. eexists. eexists. exists 0%nat.
    split; [reflexivity|]. cbn. rewrite Nat.add_0_r.
    repeat split; try done; try constructor.
  - destruct fuel as [|fuel]; [lia|]. cbn [connect_serial_loop].
    unfold bindM at 1. unfold get at 1.
    replace (r <? max_serial_retries cfg)%nat with true
      by (symmetry; apply Nat.ltb_lt; lia).
    destruct (running s) eqn:Hrun; cbn [andb]; cycle 1.
    { cbn. exists false. eexists. eexists. exists 0%nat.
      split; [reflexivity|]. cbn. rewrite Nat.add_0_r.
      repeat split; try done; try lia. }
    destruct (serial_open w (serial_calls s)) as [|e|e] eqn:Hopen.
    + exists true.
      unfold serial_attempt, bindM, get, when, emit, log, emit, modify, ret.
      destruct (serial_is_open s); cbn; rewrite Hopen; cbn.
      all: eexists; eexists; exists 1%nat; split; [reflexivity|]; cbn.
      all: rewrite <- ?app_assoc; split; [reflexivity|].
      all: rewrite opens_S, Hopen.
      all: repeat split; try done; try lia.
      all: intros _; exists 0%nat; rewrite Nat.add_0_r.
      all: repeat split; try done; constructor.
    + unfold serial_attempt, bindM, get, when, emit, log, emit, modify, ret, sleep.
      destruct (serial_is_open s); cbn; rewrite Hopen; cbn.
      all: destruct e; cbn.
      all: destruct (S r <? max_serial_retries cfg)%nat; cbn.
      all: match goal with
           | |- context [connect_serial_loop _ _ ?f ?r1 ?s1] =>
               destruct (IH r1 f s1)
                 as (b & s' & tr & n & -> & Htr & Hts & Hcnt & Hcalls & Hle
                     & _ & Hcase);
                 [lia | lia |]
           end.
      all: cbn in Htr, Hts, Hcalls, Hcase; specialize (Hcase Hrun).
      all: exists b, s'; eexists; exists (S n); split; [reflexivity|].
      all: rewrite Htr, <- ?app_assoc; split; [reflexivity|].
      all: rewrite ?serial_tries_app, ?count_events_app, Hts, Hcnt, Hcalls.
      all: rewrite opens_S, Hopen; cbn.
      all: split; [reflexivity|]; split; [reflexivity|]; split; [lia|].
      all: split; [lia|]; split; [done|]; intros _.
      all: destruct b.
      all: try (destruct Hcase as (j & -> & Hall & Hj & Hop); exists (S j);
                rewrite opens_S, Hopen, Nat.add_succ_r;
                repeat split; try done; by constructor).
      all: destruct Hcase as (-> & Hall); split; [done|];
           rewrite opens_S, Hopen; by constructor.
    + unfold serial_attempt, bindM, get, when, emit, log, emit, modify, ret, sleep.
      destruct (serial_is_open s); cbn; rewrite Hopen; cbn.
      all: destruct e; cbn.
      all: destruct (S r <? max_serial_retries cfg)%nat; cbn.
      all: match goal with
           | |- context [connect_serial_loop _ _ ?f ?r1 ?s1] =>
               destruct (IH r1 f s1)
                 as (b & s' & tr & n & -> & Htr & Hts & Hcnt & Hcalls & Hle
                     & _ & Hcase);
                 [lia | lia |]
           end.
      all: cbn in Htr, Hts, Hcalls, Hcase; specialize (Hcase Hrun).
      all: exists b, s'; eexists; exists (S n); split; [reflexivity|].
      all: rewrite Htr, <- ?app_assoc; split; [reflexivity|].
      all: rewrite ?serial_tries_app, ?count_events_app, Hts, Hcnt, Hcalls.
      all: rewrite opens_S, Hopen; cbn.
      all: split; [reflexivity|]; split; [reflexivity|]; split; [lia|].
      all: split; [lia|]; split; [done|]; intros _.
      all: destruct b.
      all: try (destruct Hcase as (j & -> & Hall & Hj & Hop); exists (S j);
                rewrite opens_S, Hopen, Nat.add_succ_r;
                repeat split; try done; by constructor).
      all: destruct Hcase as (-> & Hall); split; [done|];
           rewrite opens_S, Hopen; by constructor.
Qed.

Lemma no_serial_tries (tr : list (@event F)) :
  count_events is_serial_try tr = 0%nat -> serial_tries tr = [].
Proof.
  unfold count_events, serial_tries.
  induction tr as [|e tr IH]; [done|]. cbn.
  destruct e; cbn; try exact IH. done.
Qed.

Lemma watchdog_rest_serial_calls (now_ : Z) (s : @state F) :
  serial_calls (final (watchdog_rest cfg now_ s)) = serial_calls s.
Proof.
  unfold watchdog_rest, bindM, get, when, log, emit, modify, sleep, os_exit, ret.
  cbn.
  destruct (watchdog_timeout cfg <? now_ - last_heartbeat s); cbn.
  1: destruct (restart_on_hang cfg); cbn.
  all: try destruct (0 <? qsize (data_queue s))%nat; cbn.
  all: done.
Qed.

(** C7, as the code has it.  In a turn of the watchdog: when the last
    data is older than [data_timeout] the warning is logged first; when
    moreover the serial port counts as open, the reconnection is
    announced once and [connect_serial] is run once, to its end;
    otherwise the turn neither announces nor runs a reconnection and
    makes no connection attempt.  The one run of [connect_serial] makes
    its connection attempts one after the other, each asking the port
    for its next answer: it stops at the first attempt that opens the
    port, which then counts as open, and otherwise makes all
    [max_serial_retries] attempts; it makes none when the daemon is
    stopping.  The turn leaves [last_data_time] as it is, so the same
    happens in every turn until data arrive or the port is no longer
    open; and the port is no longer open once [connect_serial] has
    given up after attempts that all failed to open it. *)
Theorem watchdog_reconnects_once_per_stale_cycle (s : @state F) :
  let stale := data_timeout cfg <? clock s - last_data_time s in
  let s' := final (watchdog_cycle cfg w s) in
  exists tr n,
    trace s' = trace s ++ tr
    /\ count_events is_reconnect_trigger tr
         = (if stale && serial_is_open s then 1 else 0)%nat
    /\ count_events is_reconnect_end tr
         = (if stale && serial_is_open s then 1 else 0)%nat
    /\ (stale = true ->
          head tr = Some (EvLog Warning (MsgNoData (data_timeout cfg))))
    /\ last_data_time s' = last_data_time s
    /\ serial_tries tr = opens w (serial_calls s) n
    /\ count_events is_serial_try tr = n
    /\ serial_calls s' = (serial_calls s + n)%nat
    /\ (n <= max_serial_retries cfg)%nat
    /\ (stale && serial_is_open s && running s = false -> n = 0%nat)
    /\ (stale && serial_is_open s && running s = true ->
        (exists j, n = S j
           /\ Forall (fun t => failed_try t = true) (opens w (serial_calls s) j)
           /\ serial_open w (serial_calls s + j) = SerialOpened
           /\ serial_is_open s' = true)
        \/ (n = max_serial_retries cfg
            /\ Forall (fun t => failed_try t = true)
                 (opens w (serial_calls s) n)))
    /\ (stale && serial_is_open s = true ->
        running s = true -> (0 < max_serial_retries cfg)%nat ->
        (forall i, exists e, serial_open w i = SerialCtorRaises e) ->
        serial_is_open s' = false).
Proof.
  cbn zeta.
  destruct (data_timeout cfg <? clock s - last_data_time s) eqn:Hstale;
    cbn [andb].
  - set (s1 := upd_trace
                 (fun t => t ++ [EvLog Warning (MsgNoData (data_timeout cfg))]) s).
    destruct (serial_is_open s) eqn:Hopen.
    + set (s2 := upd_trace (fun t => t ++ [EvLog Info MsgReconnectSerial]) s1).
      destruct (connect_serial_total cfg w s2)
        as (b & s3 & tr3 & Hc & Htr3 & Ht3 & He3 & Hd3 & _).
      destruct (connect_serial_loop_tries (max_serial_retries cfg) 0%nat
                  (S (max_serial_retries cfg)) s2)
        as (b' & s3' & tr3' & n & Hc' & Htr3' & Hts & Hcnt & Hcalls & Hle
            & Hstop & Hcase); [lia | lia |].
      change (connect_serial cfg w s2 = Ret (Some b') s3') in Hc'.
      rewrite Hc in Hc'.
      injection Hc' as <- <-.
      rewrite Htr3 in Htr3'. apply app_inv_head in Htr3'. subst tr3'.
      assert (Hcyc : watchdog_cycle cfg w s = watchdog_rest cfg (clock s) s3).
      { rewrite watchdog_cycle_unfold, Hstale. unfold bindM at 1.
        unfold when at 1. unfold bindM at 1. cbn [log emit modify]. fold s1.
        unfold bindM at 1. unfold get at 1.
        change (serial_is_open s1) with (serial_is_open s). rewrite Hopen.
        unfold when at 1. unfold bindM at 1. cbn [log emit modify]. fold s2.
        unfold bindM at 1. rewrite Hc. reflexivity. }
      rewrite Hcyc.
      destruct (watchdog_rest_effect cfg (clock s) s3)
        as (tr & Htr & Ht & He & Hs & Hd & Hsc).
      pose proof (watchdog_rest_serial_calls (clock s) s3) as Hrc.
      pose proof (no_serial_tries tr Hs) as Hnone.
      assert (Hlast : running s = true -> (0 < max_serial_retries cfg)%nat ->
                (forall i, exists e, serial_open w i = SerialCtorRaises e) ->
                serial_is_open (final (watchdog_rest cfg (clock s) s3)) = false).
      { intros Hrun Hmax Hfail.
        destruct (connect_serial_loop_closed cfg w (max_serial_retries cfg) Hfail
                    0%nat (S (max_serial_retries cfg)) s2)
          as (s4 & Hc4 & Hclosed); [lia | lia | exact Hrun | by right |].
        unfold connect_serial in Hc. rewrite Hc4 in Hc.
        assert (s4 = s3) as -> by congruence.
        unfold serial_is_open in *. rewrite Hsc. exact Hclosed. }
      assert (Hopen' : serial_is_open (final (watchdog_rest cfg (clock s) s3))
                       = serial_is_open s3).
      { unfold serial_is_open. by rewrite Hsc. }
      change (running s2) with (running s) in *.
      change (serial_calls s2) with (serial_calls s) in *.
      rewrite Htr, Hd, Htr3, Hd3, Hrc, Hcalls, Hopen'. subst s2 s1. cbn.
      exists ([EvLog Warning (MsgNoData (data_timeout cfg));
               EvLog Info MsgReconnectSerial] ++ tr3 ++ tr), n.
      rewrite <- !app_assoc. split; [reflexivity|].
      rewrite !serial_tries_app, !count_events_app, Ht3, He3, Ht, He, Hs, Hnone,
        Hts, Hcnt.
      cbn. rewrite ?app_nil_r, ?Nat.add_0_r.
      split; [done|]. split; [done|]. split; [done|]. split; [done|].
      split; [done|]. split; [done|]. split; [done|]. split; [lia|].
      split; [exact Hstop|]. split; [|intros _; by rewrite <- Hopen'].
      intros Hrun. specialize (Hcase Hrun). destruct b.
      * left. exact Hcase.
      * right. destruct Hcase as (-> & Hall). done.
    + assert (Hcyc : watchdog_cycle cfg w s = watchdog_rest cfg (clock s) s1).
      { rewrite watchdog_cycle_unfold, Hstale. unfold bindM at 1.
        unfold when at 1. unfold bindM at 1. cbn [log emit modify]. fold s1.
        unfold bindM at 1. unfold get at 1.
        change (serial_is_open s1) with (serial_is_open s). rewrite Hopen.
        reflexivity. }
      rewrite Hcyc.
      destruct (watchdog_rest_effect cfg (clock s) s1)
        as (tr & Htr & Ht & He & Hs & Hd & _).
      pose proof (watchdog_rest_serial_calls (clock s) s1) as Hrc.
      pose proof (no_serial_tries tr Hs) as Hnone.
      rewrite Htr, Hd, Hrc. subst s1. cbn.
      exists ([EvLog Warning (MsgNoData (data_timeout cfg))] ++ tr), 0%nat.
      rewrite <- !app_assoc. split; [reflexivity|].
      rewrite !serial_tries_app, !count_events_app, Ht, He, Hs, Hnone. cbn.
      rewrite Nat.add_0_r.
      repeat (split; [done || lia|]). done.
  - assert (Hcyc : watchdog_cycle cfg w s = watchdog_rest cfg (clock s) s).
    { rewrite watchdog_cycle_unfold, Hstale. reflexivity. }
    rewrite Hcyc.
    destruct (watchdog_rest_effect cfg (clock s) s)
      as (tr & Htr & Ht & He & Hs & Hd & _).
    pose proof (watchdog_rest_serial_calls (clock s) s) as Hrc.
    pose proof (no_serial_tries tr Hs) as Hnone.
    rewrite Htr, Hd, Hrc. exists tr, 0%nat.
    rewrite Hnone, Hs, Nat.add_0_r.
    repeat (split; [done || lia|]). done.
Qed.

End WatchdogRuns.


(** ** The main loop with the sender at the queue *)

Section MainLoopAndSender.
Import Daemon.
Context {F : Type} `{PyFloat F}.
Variable cfg : config.
Variable w : world.

Local Arguments Nat.ltb : simpl never.
Local Arguments Nat.leb : simpl never.

(** With nothing done in the meantime the definitions with an
    interleaving are the ones of the main loop itself. *)
Lemma queue_data_alone (weather_data : gmap str F) (timestamp : option Z) :
  queue_data_meanwhile (F := F) (ret tt) weather_data timestamp
  = queue_data weather_data timestamp.
Proof. reflexivity. Qed.

Lemma run_iteration_alone (consecutive_errors : nat) :
  run_iteration_meanwhile cfg w (ret tt) consecutive_errors
  = run_iteration cfg w consecutive_errors.
Proof. reflexivity. Qed.

Lemma not_full_one_left (q : pyqueue (@item F)) :
  Z.of_nat (qsize q) + 1 = maxsize q -> full q = false.
Proof.
  intros Hq. unfold full.
  destruct (Z.leb_spec (maxsize q) (Z.of_nat (qsize q))); [lia|].
  apply andb_false_r.
Qed.

Lemma full_after_one_more (q : pyqueue (@item F)) (x : @item F) :
  Z.of_nat (qsize q) + 1 = maxsize q ->
  full (mkQueue (maxsize q) (items q ++ [x])) = true.
Proof.
  intros Hq. unfold full, qsize in *. cbn. rewrite length_app. cbn.
  apply andb_true_intro. split; [apply Z.ltb_lt | apply Z.leb_le]; lia.
Qed.

(** [queue_data] with one place left in the queue and a [put_nowait] of
    the sender between its test of [full()] and its own [put_nowait]:
    the queue is found not full, nothing is taken out, the sender's
    pair takes the last place, the [put_nowait] of [queue_data] raises
    [queue.Full] and the reading is gone with an error entry. *)
Lemma queue_data_loses_to_put (weather_data : gmap str F) (x : @item F)
    (s : @state F) :
  Z.of_nat (qsize (data_queue s)) + 1 = maxsize (data_queue s) ->
  queue_data_meanwhile (sender_requeue [x]) weather_data None s
  = Ret tt
      (upd_trace (fun t => t ++ [EvLog Error MsgQueueFailed])
         (upd_data_queue
            (fun _ => mkQueue (maxsize (data_queue s))
                        (items (data_queue s) ++ [x])) s)).
Proof.
  intros Hq.
  pose proof (not_full_one_left _ Hq) as Hnot.
  pose proof (full_after_one_more _ x Hq) as Hfull.
  unfold queue_data_meanwhile, timestamp_or_now, sender_requeue, q_put_nowait,
    put_nowait, bindM, now, get, when, ret, log, emit, modify.
  rewrite Hnot. cbn [upd_data_queue data_queue].
  rewrite Hnot. cbn [upd_data_queue data_queue]. rewrite Hfull. reflexivity.
Qed.

Lemma send_to_influxdb_keeps_data_time (weather_data : gmap str F)
    (timestamp : option Z) (s : @state F) :
  last_data_time (final (send_to_influxdb w weather_data timestamp s))
  = last_data_time s.
Proof.
  unfold send_to_influxdb, timestamp_or_now, bindM, get, now, ret, log, emit, modify.
  destruct timestamp as [t|]; cbn.
  all: match goal with
       | |- context [make_point ?a ?b] => destruct (make_point a b) as [p|]
       end; cbn.
  all: destruct (write_api s); cbn.
  all: try destruct (influx_write w (write_calls s)); cbn.
  all: reflexivity.
Qed.

(** A turn of the main loop that reads a line with a reading in it and
    gets no acceptance from the sink comes to its call of [queue_data]
    with the queue and the sink as they were. *)
Lemma turn_comes_to_queue_data (meanwhile : @M F unit)
    (consecutive_errors : nat) (text : str) (weather_data : gmap str F)
    (s : @state F) :
  serial_is_open s = true ->
  influx_client s = true ->
  (write_api s = true -> influx_write w (write_calls s) = false) ->
  serial_read w (read_calls s) = Line text ->
  parse_weather_data (strip text) = Ok (Some weather_data) ->
  exists s1 tr,
    run_iteration_meanwhile cfg w meanwhile consecutive_errors s
    = bindM (queue_data_meanwhile meanwhile weather_data None)
        (fun _ => run_rest cfg consecutive_errors (Ok consecutive_errors)) s1
    /\ trace s1 = trace s ++ tr
    /\ sink s1 = sink s
    /\ data_queue s1 = data_queue s
    /\ clock s1 = clock s
    /\ last_data_time s1 = clock s.
Proof.
  intros Hopen Hic Hrefuse Hread Hparse.
  pose proof (parse_result_nonempty _ _ Hparse) as Hne.
  assert (Hline : strip text <> []).
  { intros E. rewrite E, parse_empty_line in Hparse. discriminate Hparse. }
  set (s0 := upd_last_heartbeat (fun _ => clock s) s).
  set (s2 := upd_read_calls S s0).
  set (s3 := upd_trace (fun t => t ++ [EvLog Info MsgParsed])
               (upd_last_data_time (fun _ => clock s)
                  (upd_trace (fun t => t ++ [EvLog Debug MsgReceived]) s2))).
  destruct (send_to_influxdb_run w weather_data None s3)
    as (ok & s4 & tr4 & Hsend & Htr4 & Hq4 & _ & Hcase).
  destruct (send_to_influxdb_effect w weather_data None s3)
    as (ok' & s4' & Hsend' & _ & Hck4 & _ & _ & _ & _).
  rewrite Hsend in Hsend'. injection Hsend' as <- <-.
  pose proof (send_to_influxdb_keeps_data_time weather_data None s3) as Hld4.
  rewrite Hsend in Hld4. cbn [final] in Hld4.
  assert (Hok : ok = false /\ sink s4 = sink s3).
  { change (write_api s3) with (write_api s) in Hcase.
    change (write_calls s3) with (write_calls s) in Hcase.
    destruct (make_point weather_data (default (clock s3) None)) as [p|].
    - destruct (write_api s) eqn:Hwa.
      + destruct Hcase as (-> & _ & _ & Hsink).
        rewrite (Hrefuse eq_refl) in *. done.
      + destruct Hcase as (-> & _ & _ & Hsink). done.
    - destruct Hcase as (-> & _ & _ & Hsink). done. }
  destruct Hok as (-> & Hsk4).
  exists (upd_trace (fun t => t ++ [EvLog Warning MsgQueueing]) s4).
  exists ([EvLog Debug MsgReceived; EvLog Info MsgParsed] ++ tr4
          ++ [EvLog Warning MsgQueueing]).
  split.
  - unfold run_iteration_meanwhile.
    unfold bindM at 1. unfold now at 1.
    unfold bindM at 1. cbn [modify]. fold s0.
    unfold bindM at 1. unfold get at 1.
    change (serial_is_open s0) with (serial_is_open s). rewrite Hopen.
    unfold bindM at 1. cbn [ret negb].
    unfold bindM at 1. unfold get at 1.
    change (influx_client s0) with (influx_client s). rewrite Hic.
    unfold bindM at 1. cbn [negb when ret].
    unfold bindM at 1. unfold get at 1.
    change (serial_is_open s0) with (serial_is_open s). rewrite Hopen.
    unfold bindM at 1. unfold read_serial_meanwhile.
    unfold bindM at 1. unfold get at 1.
    change (read_calls s0) with (read_calls s). rewrite Hread.
    unfold bindM at 1. cbn [modify]. fold s2.
    destruct (decide (strip text = [])) as [|_]; [done|].
    unfold bindM at 1. unfold handle_line_meanwhile. rewrite Hparse.
    destruct (decide (weather_data = ∅)) as [|_]; [done|].
    unfold bindM at 1. cbn [log emit modify].
    unfold bindM at 1. unfold now at 1.
    unfold bindM at 1. cbn [modify].
    unfold bindM at 1. cbn [log emit modify].
    unfold bindM at 1. unfold get at 1.
    change (clock (upd_trace (fun t => t ++ [EvLog Debug MsgReceived]) s2))
      with (clock s).
    fold s3. change (influx_client s3) with (influx_client s). rewrite Hic.
    unfold bindM at 1. rewrite Hsend.
    unfold bindM at 1. cbn [log emit modify].
    set (QD := queue_data_meanwhile meanwhile weather_data None).
    unfold bindM.
    destruct (QD _) as [[] s5|code s5]; reflexivity.
  - cbn [trace sink data_queue clock last_data_time upd_trace].
    rewrite Htr4, Hsk4, Hq4, Hck4, Hld4. subst s3 s2 s0. cbn.
    rewrite <- !app_assoc. done.
Qed.

(** C4.  The reading of a turn of the main loop is lost when the sender
    is at the queue at the wrong moment.  [queue_data] holds
    [queue_lock] from its test of [full()] to its [put_nowait], but the
    sender puts its refused pairs back without the lock.  Take a turn
    that reads a line with a reading in it, with a sink that does not
    accept the write and one place left in the queue: when a
    [put_nowait] of the sender falls between the test and the
    [put_nowait] of [queue_data], the turn returns with the sink as it
    was and the sender's pair in the last place of the queue; the
    reading is in neither and an error entry is all that is left of it.
    The same turn with nothing in between puts the reading last in the
    queue. *)
Theorem reading_lost_when_sender_puts_meanwhile (consecutive_errors : nat)
    (text : str) (weather_data : gmap str F) (x : @item F) (s : @state F) :
  serial_is_open s = true ->
  influx_client s = true ->
  (write_api s = true -> influx_write w (write_calls s) = false) ->
  serial_read w (read_calls s) = Line text ->
  parse_weather_data (strip text) = Ok (Some weather_data) ->
  Z.of_nat (qsize (data_queue s)) + 1 = maxsize (data_queue s) ->
  (consecutive_errors < max_consecutive_errors)%nat ->
  (exists s' tr,
     run_iteration_meanwhile cfg w (sender_requeue [x]) consecutive_errors s
     = Ret consecutive_errors s'
     /\ trace s' = trace s ++ tr
     /\ EvLog Error MsgQueueFailed ∈ tr
     /\ last_data_time s' = clock s
     /\ sink s' = sink s
     /\ items (data_queue s') = items (data_queue s) ++ [x])
  /\ (exists s',
        run_iteration cfg w consecutive_errors s = Ret consecutive_errors s'
        /\ sink s' = sink s
        /\ items (data_queue s')
           = items (data_queue s) ++ [(weather_data, clock s)]).
Proof.
  intros Hopen Hic Hrefuse Hread Hparse Hq Hn.
  assert (Hrest : forall t : @state F,
             run_rest cfg consecutive_errors (Ok consecutive_errors) t
             = Ret consecutive_errors
                 (upd_trace (fun l => l ++ [EvSleep (read_interval cfg)])
                    (upd_clock (fun c => c + read_interval cfg) t))).
  { intros t. unfold run_rest.
    replace (max_consecutive_errors <=? consecutive_errors)%nat with false
      by (symmetry; apply Nat.leb_gt; exact Hn).
    reflexivity. }
  split.
  - destruct (turn_comes_to_queue_data (sender_requeue [x]) consecutive_errors
                text weather_data s Hopen Hic Hrefuse Hread Hparse)
      as (s1 & tr & Hrun & Htr & Hsk & Hdq & Hck & Hld).
    rewrite Hrun. unfold bindM at 1.
    rewrite queue_data_loses_to_put by (rewrite Hdq; exact Hq).
    rewrite Hrest. eexists. eexists. split; [reflexivity|].
    cbn. rewrite Htr, Hsk, Hdq, Hld, <- !app_assoc.
    split; [reflexivity|]. split; [|done].
    apply elem_of_app. right. apply elem_of_cons. by left.
  - destruct (turn_comes_to_queue_data (ret tt) consecutive_errors
                text weather_data s Hopen Hic Hrefuse Hread Hparse)
      as (s1 & tr & Hrun & Htr & Hsk & Hdq & Hck & Hld).
    rewrite <- run_iteration_alone, Hrun. unfold bindM at 1.
    rewrite queue_data_alone.
    destruct (queue_data_effect weather_data None s1)
      as (s2 & Hqd & _ & Hit & _ & Hsink & _).
    { unfold within_capacity. rewrite Hdq. lia. }
    rewrite Hqd, Hrest. eexists. split; [reflexivity|].
    cbn. rewrite Hsink, Hsk, Hit. unfold after_queue_data.
    rewrite Hdq, (not_full_one_left _ Hq), Hck. done.
Qed.

End MainLoopAndSender.

(** ** When the threads end the process *)

Section ProcessEnds.
Import Daemon.
Context {F : Type} `{PyFloat F}.
Variable cfg : config.
Variable w : world.

Local Arguments Nat.ltb : simpl never.
Local Arguments Nat.leb : simpl never.

#[local] Existing Instance same_preorder.

Lemma returns_only_ret {A : Type} (Q : A -> Prop) (a : A) :
  Q a -> returns_only (F := F) Q (ret a).
Proof. intros Ha s b s' [= <- _]. exact Ha. Qed.

Lemma returns_only_bind {A B : Type} (Q1 : A -> Prop) (Q : B -> Prop)
    (m : @M F A) (k : A -> @M F B) :
  returns_only Q1 m -> (forall a, Q1 a -> returns_only Q (k a)) ->
  returns_only Q (bindM m k).
Proof.
  intros Hm Hk s b s' E. unfold bindM in E.
  destruct (m s) as [a s1|c s1] eqn:Em; [|done].
  exact (Hk a (Hm _ _ _ Em) _ _ _ E).
Qed.

Lemma returns_only_any {A : Type} (m : @M F A) :
  returns_only (fun _ => True) m.
Proof. by intros s a s' _. Qed.

(** The count [handle_line] gives back is the count it got, or 0 after
    a reading the sink accepted. *)
Lemma handle_line_count (line : str) (consecutive_errors : nat) :
  returns_only
    (fun r => match r with
              | Ok n => (n <= consecutive_errors)%nat
              | Raise _ => True
              end)
    (handle_line w line consecutive_errors).
Proof.
  unfold handle_line.
  apply (returns_only_bind (fun _ => True)); [apply returns_only_any|].
  intros _ _.
  destruct (parse_weather_data line) as [[weather_data|]|e].
  - destruct (decide (weather_data = ∅)).
    + apply (returns_only_bind (fun _ => True)); [apply returns_only_any|].
      intros _ _. by apply returns_only_ret.
    + repeat (apply (returns_only_bind (fun _ => True));
              [apply returns_only_any|]; intros ? _).
      match goal with
      | |- returns_only _ (if ?b then _ else _) => destruct b
      end.
      * apply returns_only_ret. lia.
      * repeat (apply (returns_only_bind (fun _ => True));
                [apply returns_only_any|]; intros ? _).
        by apply returns_only_ret.
  - apply (returns_only_bind (fun _ => True)); [apply returns_only_any|].
    intros _ _. by apply returns_only_ret.
  - by apply returns_only_ret.
Qed.

(** The read with its handlers adds at most one to the count. *)
Lemma read_serial_count (consecutive_errors : nat) :
  returns_only
    (fun r => match r with
              | Ok n => (n <= S consecutive_errors)%nat
              | Raise _ => True
              end)
    (read_serial cfg w consecutive_errors).
Proof.
  unfold read_serial.
  apply (returns_only_bind (fun _ => True)); [apply returns_only_any|].
  intros s _.
  apply (returns_only_bind (fun _ => True)); [apply returns_only_any|].
  intros _ _.
  apply (returns_only_bind
           (fun r => match r with
                     | Ok n => (n <= consecutive_errors)%nat
                     | Raise _ => True
                     end)).
  - destruct (serial_read w (read_calls s)) as [|text|e].
    + by apply returns_only_ret.
    + cbn zeta. destruct (decide (strip text = [])).
      * by apply returns_only_ret.
      * apply handle_line_count.
    + by apply returns_only_ret.
  - intros [n|e] Hr.
    + apply returns_only_ret. lia.
    + destruct e; try by apply returns_only_ret.
      all: repeat (apply (returns_only_bind (fun _ => True));
                   [apply returns_only_any|]; intros ? _).
      all: apply returns_only_ret; lia.
Qed.

(** The end of a turn: the process ends only under [restart_on_hang]
    with a count of 10 or more, and the count goes on as it is, or as 0
    after the long pause, or one up after an unexpected exception. *)
Lemma run_rest_outcome (consecutive_errors : nat) (r : result nat)
    (s : @state F) :
  match r with
  | Ok n => (n <= S consecutive_errors)%nat
  | Raise _ => True
  end ->
  match run_rest cfg consecutive_errors r s with
  | Ret n _ => (n <= S consecutive_errors)%nat
  | Exit code _ =>
      code = 1 /\ restart_on_hang cfg = true
      /\ (max_consecutive_errors <= S consecutive_errors)%nat
  end.
Proof.
  intros Hr. unfold run_rest, bindM, log, emit, modify, sleep, os_exit, ret.
  destruct r as [n|e]; cbn; [|lia].
  destruct (Nat.leb_spec max_consecutive_errors n); cbn; [|lia].
  destruct (restart_on_hang cfg); cbn; [|lia].
  split; [done|]. split; [done|]. lia.
Qed.

(** A turn of the main loop adds at most one to the count of errors,
    and ends the process only when that makes 10 or more. *)
Lemma run_iteration_outcome (consecutive_errors : nat) (s : @state F) :
  match run_iteration cfg w consecutive_errors s with
  | Ret n _ => (n <= S consecutive_errors)%nat
  | Exit code _ =>
      code = 1 /\ restart_on_hang cfg = true
      /\ (max_consecutive_errors <= S consecutive_errors)%nat
  end.
Proof.
  destruct (run_iteration_cases cfg w (same (fun _ : @state F => tt))
              (fun _ _ => eq_refl) (fun _ _ => eq_refl) (fun _ _ => eq_refl)
              (fun _ _ => eq_refl) (fun _ _ => eq_refl) (fun _ _ => eq_refl)
              (fun _ _ => eq_refl) (fun _ _ => eq_refl) (fun _ _ => eq_refl)
              (fun _ _ => eq_refl) consecutive_errors s)
    as (s1 & _ & [-> | [[_ ->] | [_ ->]]]).
  - lia.
  - unfold bindM.
    destruct (read_serial cfg w consecutive_errors s1) as [r s2|c s2] eqn:E.
    + apply run_rest_outcome. exact (read_serial_count _ _ _ _ E).
    + assert (Hc : exit_code (read_serial cfg w consecutive_errors s1) = Some c)
        by (by rewrite E).
      by destruct (exits_read_serial cfg w False consecutive_errors s1 c Hc).
  - apply run_rest_outcome. lia.
Qed.

(** X3.  Where the threads of the daemon call [os._exit].  A turn of
    the sender thread, the final drain of [cleanup] and the two
    connection routines never end the process.  A turn of the watchdog
    ends it exactly when the heartbeat is older than [watchdog_timeout]
    and [restart_on_hang] is set, with [os._exit(1)].  The main loop
    ends it only with [os._exit(1)], only under [restart_on_hang] and
    only with 10 errors counted: a turn adds at most one to the count,
    so [k] turns that start with a count of [n] errors cannot end the
    process unless [n + k] is at least 10. *)
Theorem os_exit_only_on_hang_or_ten_errors (k n : nat) (s : @state F) :
  exit_code (data_sender_cycle cfg w s) = None
  /\ exit_code (cleanup_drain w s) = None
  /\ exit_code (connect_serial cfg w s) = None
  /\ exit_code (connect_influxdb cfg w s) = None
  /\ exit_code (watchdog_cycle cfg w s)
     = (if (watchdog_timeout cfg <? clock s - last_heartbeat s)
           && restart_on_hang cfg
        then Some 1 else None)
  /\ (forall code,
        exit_code (run_iterations cfg w k n s) = Some code ->
        code = 1 /\ restart_on_hang cfg = true
        /\ (max_consecutive_errors <= n + k)%nat).
Proof.
  assert (Hno : forall (A : Type) (m : @M F A),
             exits_only_if False m -> exit_code (m s) = None).
  { intros A m Hm. destruct (exit_code (m s)) as [c|] eqn:Hc; [|done].
    by destruct (Hm s c Hc). }
  split; [apply Hno, exits_data_sender_cycle|].
  split; [apply Hno, exits_cleanup_drain|].
  split; [apply Hno, exits_connect_serial|].
  split; [apply Hno, exits_connect_influxdb|].
  split; [apply watchdog_cycle_exit_code|].
  clear Hno. revert n s.
  induction k as [|k IH]; intros n s code; cbn [run_iterations]; [done|].
  unfold bindM.
  pose proof (run_iteration_outcome n s) as Hturn.
  destruct (run_iteration cfg w n s) as [m s1|c s1].
  - intros Hc. destruct (IH m s1 code Hc) as (? & ? & ?).
    split; [done|]. split; [done|]. lia.
  - intros [= <-]. destruct Hturn as (? & ? & ?).
    split; [done|]. split; [done|]. lia.
Qed.

End ProcessEnds.

(** ** Sample runs of the further properties *)

Section FurtherSamples.
Import FloatModel Daemon Sample Scenario.

Local Ltac decimal ip dot fp :=
  exists (lit ip), (lit dot), (lit fp);
  split; [reflexivity|];
  split; [discriminate|];
  split; [by repeat constructor|];
  split; [by (left + right)|by repeat constructor].

Lemma sample_numbers :
  unsigned_decimal (lit "22.6") /\ unsigned_decimal (lit "50.1")
  /\ unsigned_decimal (lit "1011.9") /\ unsigned_decimal (lit "0.00").
Proof.
  split; [decimal "22" "." "6"|].
  split; [decimal "50" "." "1"|].
  split; [decimal "1011" "." "9"|decimal "0" "." "00"].
Qed.

(** The line of the source comment followed by a unit. *)
Lemma regex_parser_reads_whole_numbers_witness :
  @Daemon.parse_weather_data pyfloat _ (lit "T:22.6 H:50.1 P:1011.9 WS:0.00 m/s")
  = Ok (Some reading).
Proof.
  destruct sample_numbers as (N1 & N2 & N3 & N4).
  apply (regex_parser_reads_whole_numbers (F := pyfloat)
           (lit "T:22.6 H:50.1 P:1011.9 WS:0.00")
           (lit "22.6") (lit "50.1") (lit "1011.9") (lit "0.00") (lit " m/s")).
  - exists (lit " "), (lit " "), (lit " ").
    split; [reflexivity|].
    repeat split; try assumption; try discriminate; by repeat constructor.
  - split; [reflexivity|discriminate].
  - reflexivity.
  - reflexivity.
  - reflexivity.
  - reflexivity.
Defined.

(** The line of the source comment. *)
Lemma parsers_agree_on_clean_line_witness :
  Collector.parse_weather_data (lit "T:22.6 H:50.1 P:1011.9 WS:0.00")
  = Ok (Some (<[lit "windspeed" := Fin false 0 (-2)]>
             (<[lit "pressure" := Fin false 10119 (-1)]>
             (<[lit "humidity" := Fin false 501 (-1)]>
             (<[lit "temperature" := Fin false 226 (-1)]> ∅)))))
  /\ @Daemon.parse_weather_data pyfloat _ (lit "T:22.6 H:50.1 P:1011.9 WS:0.00")
     = Ok (Some reading).
Proof.
  destruct sample_numbers as (N1 & N2 & N3 & N4).
  exact (parsers_agree_on_clean_line (F := pyfloat)
           (lit "22.6") (lit "50.1") (lit "1011.9") (lit "0.00")
           _ _ _ _ N1 N2 N3 N4 eq_refl eq_refl eq_refl eq_refl).
Defined.

Lemma sample_line_parses :
  @Daemon.parse_weather_data pyfloat _
    (strip (lit "T:22.6 H:50.1 P:1011.9 WS:0.00")) = Ok (Some reading).
Proof.
  unfold Daemon.parse_weather_data.
  replace (Regex.search pattern (strip (lit "T:22.6 H:50.1 P:1011.9 WS:0.00")))
    with (Some (RegexSpec.groups_of (lit "22.6") (lit "50.1")
                  (lit "1011.9") (lit "0.00")))
    by (vm_compute; reflexivity).
  reflexivity.
Qed.

(** A turn of the main loop and then a turn of the sender, from the
    state [__init__] sets up, with the port and the sink down. *)
Lemma queue_bounded_in_every_reachable_state_witness :
  let s := final (data_sender_cycle cfg down
                    (final (run_iteration cfg down 0 (init (F := pyfloat) 0)))) in
  maxsize (data_queue s) = 1000 /\ (qsize (data_queue s) <= 1000)%nat.
Proof.
  apply (queue_bounded_in_every_reachable_state cfg down 0).
  unfold reachable.
  eapply rtc_l; [apply (turn_main cfg down 0)|].
  eapply rtc_l; [apply turn_sender|].
  apply rtc_refl.
Defined.

(** The port opens at the third attempt, after two pauses. *)
Lemma connect_returns_at_first_success_witness :
  exists s' tr,
    connect_serial cfg late (init (F := pyfloat) 0) = Ret (Some true) s'
    /\ trace s' = tr ++ [EvLog Info MsgSerialConnected]
    /\ schedule tr = [Attempt; Delay 5; Attempt; Delay 5; Attempt]
    /\ serial_retry_count s' = 0%nat.
Proof.
  destruct (connect_returns_at_first_success cfg late 2 (init (F := pyfloat) 0))
    as [Hserial _]; [reflexivity|].
  destruct Hserial as (s' & tr & Hrun & Htr & Hsched & _ & _ & Hcount).
  - cbv. lia.
  - intros [|[|i]] Hi; [discriminate|discriminate|lia].
  - reflexivity.
  - exists s', tr. split; [exact Hrun|]. split; [exact Htr|].
    split; [exact Hsched|exact Hcount].
Defined.

(** The sample reading sent with the timestamp 7 to a sink that accepts. *)
Lemma parsed_reading_always_makes_a_point_witness :
  exists pt s',
    send_to_influxdb flaky reading (Some 7) connected = Ret true s'
    /\ time pt = 7
    /\ sink s' = [pt].
Proof.
  destruct (parsed_reading_always_makes_a_point flaky
              (strip (lit "T:22.6 H:50.1 P:1011.9 WS:0.00")) reading (Some 7)
              connected sample_line_parses eq_refl)
    as (pt & s' & Hrun & Htime & _ & _ & _ & _ & _ & Hsink & _).
  exists pt, s'. split; [exact Hrun|]. split; [exact Htime|exact Hsink].
Defined.

(** A turn with the sample line waiting, a sink that accepts and four
    errors counted so far. *)
Lemma accepted_reading_resets_error_count_witness :
  exists pt s',
    run_iteration cfg flaky 4 connected = Ret 0%nat s'
    /\ sink s' = [pt]
    /\ last_data_time s' = 0.
Proof.
  destruct (accepted_reading_resets_error_count cfg flaky 4
              (lit "T:22.6 H:50.1 P:1011.9 WS:0.00") reading connected)
    as (pt & s' & Hrun & _ & Hsink & _ & Hldt & _);
    [reflexivity|reflexivity|reflexivity|reflexivity
    |exact sample_line_parses|reflexivity|].
  exists pt, s'. split; [exact Hrun|]. split; [exact Hsink|exact Hldt].
Defined.

(** A turn from the state [__init__] sets up, with a port that cannot
    be opened: three attempts and no read. *)
Lemma failed_reconnect_skips_the_read_witness :
  exists s',
    run_iteration cfg down 4 (init (F := pyfloat) 0) = Ret 4%nat s'
    /\ serial_calls s' = 3%nat
    /\ read_calls s' = 0%nat.
Proof.
  destruct (failed_reconnect_skips_the_read cfg down 4 (init (F := pyfloat) 0))
    as (s' & Hrun & Hcalls & Hreads & _).
  - reflexivity.
  - reflexivity.
  - intros i. discriminate.
  - exists s'. split; [exact Hrun|]. split; [exact Hcalls|exact Hreads].
Defined.

Lemma three_complete : Forall complete three.
Proof.
  assert (Hpt : forall t, complete (reading, t)).
  { intros t. destruct (parsed_makes_point _ reading t sample_line_parses)
      as (pt & Hpt & _). by exists pt. }
  repeat constructor; apply Hpt.
Qed.

(** A queue of three readings and a sink that accepts: one turn of the
    sender empties the queue. *)
Lemma sender_delivers_in_queue_order_witness :
  exists pts s',
    data_sender_turns cfg noisy 1 (with_queue (mkQueue 1000 three) connected)
    = Ret tt s'
    /\ Forall2 (fun x pt => point_of x pt /\ time pt = snd x) three pts
    /\ sink s' = pts
    /\ empty (data_queue s') = true.
Proof.
  destruct (sender_delivers_in_queue_order cfg noisy 1
              (with_queue (mkQueue 1000 three) connected))
    as (pts & s' & Hrun & Hpts & Hsink & _ & Hempty).
  - reflexivity.
  - reflexivity.
  - reflexivity.
  - exact three_complete.
  - exists pts, s'. split; [exact Hrun|]. split; [exact Hpts|].
    split; [exact Hsink|]. apply Hempty. cbv. lia.
Defined.

(** The defaults merged with a file that names another port: the
    section [serial] has the new port and keeps the other two settings. *)
Lemma merge_config_key_by_key_witness :
  Station.dict_get (lit "serial") (Station.merge_config DEFAULT_CONFIG other_port)
  = Some (Station.Dict
            [(lit "port", Station.Other "/dev/ttyACM0"%string);
             (lit "baudrate", Station.Other "9600"%string);
             (lit "timeout", Station.Other "5"%string)]).
Proof.
  rewrite (merge_config_key_by_key DEFAULT_CONFIG other_port (lit "serial")).
  - reflexivity.
  - apply NoDup_singleton.
Defined.

Local Ltac distinct_keys :=
  apply (bool_decide_unpack _); vm_compute; exact I.

Lemma DEFAULT_CONFIG_well_formed : well_formed (Station.Dict DEFAULT_CONFIG).
Proof.
  constructor; [distinct_keys|].
  repeat constructor; cbn; try distinct_keys.
Qed.

(** [DEFAULT_CONFIG] merged with itself. *)
Lemma merge_config_with_defaults_is_identity_witness :
  Station.merge_config DEFAULT_CONFIG DEFAULT_CONFIG = DEFAULT_CONFIG
  /\ Station.merge_config DEFAULT_CONFIG [] = DEFAULT_CONFIG.
Proof.
  exact (merge_config_with_defaults_is_identity DEFAULT_CONFIG
           DEFAULT_CONFIG_well_formed).
Defined.

Lemma sample_line_tokens :
  @Collector.parse_weather_data pyfloat _
    (strip (lit "T:22.6 H:50.1 P:1011.9 WS:0.00")) = Ok (Some station_reading).
Proof.
  destruct sample_numbers as (N1 & N2 & N3 & N4).
  replace (strip (lit "T:22.6 H:50.1 P:1011.9 WS:0.00"))
    with (clean_line (lit "22.6") (lit "50.1") (lit "1011.9") (lit "0.00"))
    by (vm_compute; reflexivity).
  unfold station_reading.
  assert (Ht := tokens_clean_line _ _ _ _ N1 N2 N3 N4).
  destruct Ht as [Hs Htok].
  unfold Collector.parse_weather_data, Collector.parse_body.
  rewrite Hs, Htok. rewrite decide_False by done.
  cbn [Collector.parse_pairs].
  change (lit "T:" ++ lit "22.6") with (lit "T" ++ ":"%char :: lit "22.6").
  change (lit "H:" ++ lit "50.1") with (lit "H" ++ ":"%char :: lit "50.1").
  change (lit "P:" ++ lit "1011.9") with (lit "P" ++ ":"%char :: lit "1011.9").
  change (lit "WS:" ++ lit "0.00") with (lit "WS" ++ ":"%char :: lit "0.00").
  rewrite (parse_pair_token (F := pyfloat) (lit "T") (lit "22.6") _ (Fin false 226 (-1)));
    [|by repeat constructor|done|done|done].
  cbn [bind].
  rewrite (parse_pair_token (F := pyfloat) (lit "H") (lit "50.1") _ (Fin false 501 (-1)));
    [|by repeat constructor|done|done|done].
  cbn [bind].
  rewrite (parse_pair_token (F := pyfloat) (lit "P") (lit "1011.9") _ (Fin false 10119 (-1)));
    [|by repeat constructor|done|done|done].
  cbn [bind].
  rewrite (parse_pair_token (F := pyfloat) (lit "WS") (lit "0.00") _ (Fin false 0 (-2)));
    [|by repeat constructor|done|done|done].
  cbn [bind try_except].
  unfold Collector.nonempty_or_none.
  rewrite decide_False by apply insert_non_empty. reflexivity.
Qed.

(** A turn of the station daemon with the sample line waiting and a
    sink that refuses the write: nothing is written and the sink is tried
    once. *)
Lemma refused_reading_is_dropped_witness :
  let s' := (Station.collect_turn station_cfg refusing started).2 in
  Station.sink s' = []
  /\ Station.write_calls s' = 1%nat
  /\ Station.influx_calls s' = 2%nat
  /\ Station.serial_calls s' = 1%nat
  /\ Station.clock s' = 1.
Proof.
  exact (refused_reading_is_dropped station_cfg refusing
           (lit "T:22.6 H:50.1 P:1011.9 WS:0.00") station_reading started
           eq_refl eq_refl sample_line_tokens).
Defined.

(** A turn of the sender five seconds after the start, on a queue of
    three readings taken at times 1, 2 and 3, with a sink that accepts
    every second write: three writes, each of a reading with its own
    timestamp, the second refused and put back. *)
Lemma sender_turn_sends_batch_and_puts_back_witness :
  exists s' tr pts,
    data_sender_cycle cfg flaky waiting = Ret tt s'
    /\ trace s' = trace waiting ++ tr
    /\ Forall2 written_as three (writes tr)
    /\ (writes tr).*1 = [true; false; true]
    /\ write_calls s' = 3%nat
    /\ sink s' = pts
    /\ Forall2 point_of [(reading, 1); (reading, 3)] pts
    /\ items (data_queue s') = [(reading, 2)].
Proof.
  destruct (sender_turn_sends_batch_and_puts_back cfg flaky waiting)
    as ((s' & tr & Hrun & Htr & Hcase) & _).
  - cbv. discriminate.
  - change (empty (data_queue waiting) || negb (influx_client waiting))
      with false in Hcase.
    cbv zeta in Hcase.
    destruct Hcase as (oks & pts & _ & Hsink & Hpts & Hit & Hapi & _).
    destruct (Hapi eq_refl three_complete) as (Hoks & Hcalls & Hw & Hfst).
    change (answers flaky (write_calls waiting)
              (Nat.min 10 (qsize (data_queue waiting))))
      with [true; false; true] in Hoks.
    subst oks.
    exists s', tr, pts. split; [exact Hrun|]. split; [exact Htr|].
    split; [exact Hw|]. split; [exact Hfst|]. split; [exact Hcalls|].
    split; [exact Hsink|]. split; [exact Hpts|exact Hit].
Defined.

(** The same queue, five seconds after the start: a reading queued now
    gets the timestamp 5, the three queued ones are written by the
    sender and by the final drain with the timestamps 1, 2 and 3, and a
    reading sent now is written with the timestamp 5. *)
Lemma queued_timestamp_is_preserved_witness :
  (exists s',
     queue_data reading None waiting = Ret tt s'
     /\ last (items (data_queue s')) = Some (reading, 5))
  /\ (exists s' tr pts,
        sender_batch flaky 3 0 [] waiting = Ret (length pts, [(reading, 2)]) s'
        /\ trace s' = trace waiting ++ tr
        /\ Forall2 written_as three (writes tr)
        /\ (writes tr).*1 = [true; false; true]
        /\ sink s' = pts
        /\ Forall2 (fun x p => point_of x p /\ time p = snd x)
             [(reading, 1); (reading, 3)] pts)
  /\ (exists s' tr,
        cleanup_batch flaky 3 waiting = Ret tt s'
        /\ trace s' = trace waiting ++ tr
        /\ Forall2 written_as three (writes tr)
        /\ (writes tr).*1 = [true; false; true])
  /\ (exists s' tr p,
        send_to_influxdb flaky reading None waiting = Ret true s'
        /\ trace s' = trace waiting ++ tr
        /\ writes tr = [(true, p)]
        /\ time p = 5).
Proof.
  destruct (queued_timestamp_is_preserved flaky reading 3 waiting)
    as (Hq & Hbatch & Hdrain & Hsend).
  - cbv. discriminate.
  - cbv. lia.
  - split; [exact Hq|]. split; [|split].
    + destruct Hbatch
        as (oks & pts & s' & tr & _ & Hrun & Hsink & Hpts & Htr & Hapi & _).
      destruct (Hapi eq_refl three_complete) as (Hoks & Hw & Hfst).
      change (answers flaky (write_calls waiting) 3)
        with [true; false; true] in Hoks.
      subst oks. exists s', tr, pts. done.
    + destruct Hdrain as (oks & pts & s' & tr & _ & Hrun & _ & _ & Htr & Hapi & _).
      destruct (Hapi eq_refl three_complete) as (Hoks & Hw & Hfst).
      change (answers flaky (write_calls waiting) 3)
        with [true; false; true] in Hoks.
      subst oks. exists s', tr. done.
    + destruct Hsend as (ok & s' & tr & Hrun & Htr & _ & _ & Hapi & _).
      destruct (Hapi eq_refl) as (p & _ & Htime & Hok & Hw).
      { destruct (parsed_makes_point _ reading 5 sample_line_parses)
          as (pt & Hpt & _). by exists pt. }
      change (influx_write flaky (write_calls waiting)) with true in Hok.
      subst ok. exists s', tr, p. done.
Defined.

(** A stale turn of the watchdog on a port that cannot be opened: the
    one run of [connect_serial] makes three attempts and leaves the
    port closed. *)
Lemma watchdog_reconnects_once_per_stale_cycle_witness :
  let s' := final (watchdog_cycle cfg down silent) in
  exists tr,
    trace s' = trace silent ++ tr
    /\ count_events is_reconnect_trigger tr = 1%nat
    /\ serial_tries tr = opens down 0 3
    /\ count_events is_serial_try tr = 3%nat
    /\ serial_is_open s' = false.
Proof.
  cbn zeta.
  destruct (watchdog_reconnects_once_per_stale_cycle cfg down silent)
    as (tr & n & Htr & Htrig & _ & _ & _ & Htries & Hcount & _ & _ & _
        & Hcase & Hclosed).
  destruct (Hcase eq_refl) as [(j & _ & _ & Hopened & _)|[Hn _]];
    [discriminate Hopened|].
  change (max_serial_retries cfg) with 3%nat in Hn.
  rewrite Hn in Htries, Hcount.
  exists tr. split; [exact Htr|]. split; [exact Htrig|].
  split; [exact Htries|]. split; [exact Hcount|].
  apply Hclosed; [reflexivity|reflexivity|cbv; lia|].
  intros i. by exists SerialException.
Defined.

(** C7, where the code differs: one stale turn of the watchdog, with
    the port counting as open and [max_serial_retries] at 3, makes three
    connection attempts on a port that cannot be opened, not one. *)
Lemma stale_cycle_makes_max_serial_retries_attempts :
  let tr := trace (final (watchdog_cycle cfg down silent)) in
  (data_timeout cfg <? clock silent - last_data_time silent) = true
  /\ serial_is_open silent = true
  /\ trace silent = []
  /\ count_events is_reconnect_trigger tr = 1%nat
  /\ serial_tries tr = replicate 3 (SerialCtorRaises SerialException)
  /\ count_events is_serial_try tr = 3%nat
  /\ count_events is_serial_try tr <> 1%nat.
Proof.
  cbn zeta.
  assert (Hcount : count_events is_serial_try
                     (trace (final (watchdog_cycle cfg down silent))) = 3%nat)
    by (vm_compute; reflexivity).
  split; [reflexivity|]. split; [reflexivity|]. split; [reflexivity|].
  split; [vm_compute; reflexivity|]. split; [vm_compute; reflexivity|].
  split; [exact Hcount|]. rewrite Hcount. discriminate.
Qed.

(** The failing run of C4: two seconds after the start, 999 readings
    queued, a sink that refuses the write, the sample line waiting, and
    the sender putting back a pair taken earlier just before the
    [put_nowait] of [queue_data].  The queue ends with the sender's
    pair and without the reading; with nothing in between the reading
    is queued with the timestamp 2. *)
Lemma reading_lost_when_sender_puts_meanwhile_witness :
  (exists s',
     run_iteration_meanwhile cfg down (sender_requeue [(reading, 0)]) 0 busy
     = Ret 0%nat s'
     /\ EvLog Error MsgQueueFailed ∈ trace s'
     /\ sink s' = []
     /\ items (data_queue s') = replicate 999 (reading, 1) ++ [(reading, 0)])
  /\ (exists s',
        run_iteration cfg down 0 busy = Ret 0%nat s'
        /\ items (data_queue s') = replicate 999 (reading, 1) ++ [(reading, 2)]).
Proof.
  destruct (reading_lost_when_sender_puts_meanwhile cfg down 0
              (lit "T:22.6 H:50.1 P:1011.9 WS:0.00") reading (reading, 0) busy)
    as ((s' & tr & Hrun & Htr & Hin & _ & Hsink & Hit) & (s2 & Hrun2 & _ & Hit2)).
  - reflexivity.
  - reflexivity.
  - reflexivity.
  - reflexivity.
  - exact sample_line_parses.
  - unfold qsize. cbn [busy with_queue upd_clock upd_data_queue data_queue
                         items maxsize].
    rewrite length_replicate. reflexivity.
  - unfold max_consecutive_errors. lia.
  - split.
    + exists s'. split; [exact Hrun|]. split; [by rewrite Htr|].
      split; [exact Hsink|exact Hit].
    + exists s2. split; [exact Hrun2|exact Hit2].
Defined.

(** The final drain on the queue of three readings, with a sink that
    accepts every second write: three writes with the timestamps 1, 2
    and 3, and an empty queue. *)
Lemma final_drain_sends_once_and_keeps_nothing_witness :
  exists s' tr,
    cleanup_drain flaky waiting = Ret tt s'
    /\ trace s' = trace waiting ++ tr
    /\ Forall2 written_as three (writes tr)
    /\ (writes tr).*1 = [true; false; true]
    /\ write_calls s' = 3%nat
    /\ items (data_queue s') = [].
Proof.
  destruct (final_drain_sends_once_and_keeps_nothing flaky waiting)
    as (s' & tr & Hrun & Htr & Hcase).
  change (influx_client waiting) with true in Hcase. cbv iota in Hcase.
  destruct Hcase as (Hit & (oks & pts & _ & _ & _ & Hapi & _) & _).
  destruct (Hapi eq_refl three_complete) as (Hoks & Hcalls & Hw & Hfst).
  change (answers flaky (write_calls waiting)
            (Nat.min 50 (qsize (data_queue waiting))))
    with [true; false; true] in Hoks.
  subst oks. exists s', tr. done.
Defined.

(** Nine errors counted and a tenth at the next read: the turn ends the
    process, with 9 + 1 = 10. *)
Lemma os_exit_only_on_hang_or_ten_errors_witness :
  exit_code (run_iterations cfg noisy 1 9 connected) = Some 1
  /\ restart_on_hang cfg = true
  /\ (max_consecutive_errors <= 9 + 1)%nat.
Proof.
  assert (Hexit : exit_code (run_iterations cfg noisy 1 9 connected) = Some 1)
    by (vm_compute; reflexivity).
  split; [exact Hexit|].
  destruct (os_exit_only_on_hang_or_ten_errors cfg noisy 1 9 connected)
    as (_ & _ & _ & _ & _ & Hmain).
  destruct (Hmain 1 Hexit) as (_ & Hr & Hn). split; [exact Hr|exact Hn].
Defined.

End FurtherSamples.
